(** * A grid hedging bot for a perpetual-futures venue: model and properties

    This development embeds the [Trader] class of [main.py] and proves the
    properties its specification states about it.

    Modelling decisions, shared by every statement below:

    - Python numbers (prices, offsets, quantities) are rationals [Q], and
      the engine is given twice.  The first engine ([first_trade],
      [hedging_loop], ...) computes [*], [+] and [-] exactly; it carries the
      properties that do not depend on how a level is rounded: the control
      flow, the orders, the sign and the size of the tracked exposure, the
      handling of failures.  The second engine ([first_trade_in],
      [hedging_loop_in], ...) is the same code with [float(...)], [*], [+]
      and [-] taken from an [arithmetic]: in [exact] it is the first engine,
      in [binary64] every operation rounds its result to the nearest
      binary64 number, as the floats of Python do.  The statements on the
      order of the price levels are about the engine in [binary64].
    - Comparisons are the boolean ones of [Q]; results that the code
      computes with [*], [+] and [-] are compared with [==], results that
      it only copies are compared with [=].
    - The Binance client is a [Gateway]: a record of functions over an
      arbitrary venue state [W].  Each call may return a value or raise; the
      model threads the venue state and keeps a log of the calls issued.
    - Methods of [Trader] run in a state-and-exception monad [M] over a
      [machine] (the [self] object, the venue, the call log).  A raised
      exception keeps the assignments made before it, as in Python.
    - [print] and [report_trade] only write to the console; they are kept
      as steps with no effect on the machine.  Answers of the venue are
      typed: an order answer has the two fields [report_trade] reads, a
      ticker answer is a price and a position entry has a side and an
      amount, so that reading them does not fail. *)

From Stdlib Require Import QArith Qabs Qpower Qround ZArith String List Bool.
From Stdlib Require Import Lia Lqa PrimFloat SpecFloat FloatOps.
Import ListNotations.

Open Scope Q_scope.

(** ** Data *)

(** [last_direction] only ever receives the literals ["LONG"], ["SHORT"] and
    [None]; the same two literals are the [positionSide] of every order. *)
Inductive direction : Type := LONG | SHORT.

Inductive order_side : Type := BUY | SELL.

Inductive order_type : Type := MARKET.

(** Keyword arguments of [client.futures_create_order]. *)
Record order_request : Type := {
  o_symbol : string;
  o_side : order_side;
  o_type : order_type;
  o_quantity : Q;
  o_positionSide : direction
}.

(** The fields of an order answer that [report_trade] reads. *)
Record order_response : Type := {
  orderId : Z;
  origQty : Q
}.

(** One entry of [client.futures_position_information]: [positionSide] is
    compared with string literals by the code, [positionAmt] is the entry's
    amount after [float(...)]. *)
Record position : Type := {
  positionSide : string;
  positionAmt : Q
}.

(** A kline message of the price socket: [E] is the event time, [k_c] the
    closing price after [float(...)]; [None] stands for a field that is
    missing or does not parse. *)
Record kline_msg : Type := {
  E : option Z;
  k_c : option Q
}.

Inductive exn : Type := Exception (message : string).

(** The attributes of a [Trader] object, in the order [__init__] sets them. *)
Record Trader : Type := {
  symbol : string;
  bar_length : string;
  base_units : Q;
  int_units : Q;
  leverage : Z;
  cum_profits : Q;
  side : string;
  close : Q;
  long_entry_add : Q;
  short_entry_deduct : Q;
  long_tp_add : Q;
  long_sl_deduct : Q;
  short_tp_deduct : Q;
  short_sl_add : Q;
  long_entry : Q;
  short_entry : Q;
  long_tp : Q;
  long_sl : Q;
  short_tp : Q;
  short_sl : Q;
  last_units : Q;
  last_direction : option direction
}.

(** [Trader.__init__]. *)
Definition init (symbol0 bar_length0 : string) (units : Q) (leverage0 : Z)
    (side0 : string)
    (long_entry_add0 short_entry_deduct0 long_tp_add0 long_sl_deduct0
       short_tp_deduct0 short_sl_add0 : Q) : Trader :=
  {| symbol := symbol0;
     bar_length := bar_length0;
     base_units := units;
     int_units := units;
     leverage := leverage0;
     cum_profits := 0;
     side := side0;
     close := 0;
     long_entry_add := long_entry_add0;
     short_entry_deduct := short_entry_deduct0;
     long_tp_add := long_tp_add0;
     long_sl_deduct := long_sl_deduct0;
     short_tp_deduct := short_tp_deduct0;
     short_sl_add := short_sl_add0;
     long_entry := 0;
     short_entry := 0;
     long_tp := 0;
     long_sl := 0;
     short_tp := 0;
     short_sl := 0;
     last_units := 0;
     last_direction := None |}.

(** Attribute assignment [self.f = v], one function per assigned attribute. *)
Definition with_side (v : string) (t : Trader) : Trader :=
  {| symbol := symbol t; bar_length := bar_length t;
     base_units := base_units t; int_units := int_units t;
     leverage := leverage t; cum_profits := cum_profits t;
     side := v; close := close t;
     long_entry_add := long_entry_add t;
     short_entry_deduct := short_entry_deduct t;
     long_tp_add := long_tp_add t; long_sl_deduct := long_sl_deduct t;
     short_tp_deduct := short_tp_deduct t; short_sl_add := short_sl_add t;
     long_entry := long_entry t; short_entry := short_entry t;
     long_tp := long_tp t; long_sl := long_sl t;
     short_tp := short_tp t; short_sl := short_sl t;
     last_units := last_units t; last_direction := last_direction t |}.

Definition with_close (v : Q) (t : Trader) : Trader :=
  {| symbol := symbol t; bar_length := bar_length t;
     base_units := base_units t; int_units := int_units t;
     leverage := leverage t; cum_profits := cum_profits t;
     side := side t; close := v;
     long_entry_add := long_entry_add t;
     short_entry_deduct := short_entry_deduct t;
     long_tp_add := long_tp_add t; long_sl_deduct := long_sl_deduct t;
     short_tp_deduct := short_tp_deduct t; short_sl_add := short_sl_add t;
     long_entry := long_entry t; short_entry := short_entry t;
     long_tp := long_tp t; long_sl := long_sl t;
     short_tp := short_tp t; short_sl := short_sl t;
     last_units := last_units t; last_direction := last_direction t |}.

Definition with_long_entry (v : Q) (t : Trader) : Trader :=
  {| symbol := symbol t; bar_length := bar_length t;
     base_units := base_units t; int_units := int_units t;
     leverage := leverage t; cum_profits := cum_profits t;
     side := side t; close := close t;
     long_entry_add := long_entry_add t;
     short_entry_deduct := short_entry_deduct t;
     long_tp_add := long_tp_add t; long_sl_deduct := long_sl_deduct t;
     short_tp_deduct := short_tp_deduct t; short_sl_add := short_sl_add t;
     long_entry := v; short_entry := short_entry t;
     long_tp := long_tp t; long_sl := long_sl t;
     short_tp := short_tp t; short_sl := short_sl t;
     last_units := last_units t; last_direction := last_direction t |}.

Definition with_short_entry (v : Q) (t : Trader) : Trader :=
  {| symbol := symbol t; bar_length := bar_length t;
     base_units := base_units t; int_units := int_units t;
     leverage := leverage t; cum_profits := cum_profits t;
     side := side t; close := close t;
     long_entry_add := long_entry_add t;
     short_entry_deduct := short_entry_deduct t;
     long_tp_add := long_tp_add t; long_sl_deduct := long_sl_deduct t;
     short_tp_deduct := short_tp_deduct t; short_sl_add := short_sl_add t;
     long_entry := long_entry t; short_entry := v;
     long_tp := long_tp t; long_sl := long_sl t;
     short_tp := short_tp t; short_sl := short_sl t;
     last_units := last_units t; last_direction := last_direction t |}.

Definition with_long_tp (v : Q) (t : Trader) : Trader :=
  {| symbol := symbol t; bar_length := bar_length t;
     base_units := base_units t; int_units := int_units t;
     leverage := leverage t; cum_profits := cum_profits t;
     side := side t; close := close t;
     long_entry_add := long_entry_add t;
     short_entry_deduct := short_entry_deduct t;
     long_tp_add := long_tp_add t; long_sl_deduct := long_sl_deduct t;
     short_tp_deduct := short_tp_deduct t; short_sl_add := short_sl_add t;
     long_entry := long_entry t; short_entry := short_entry t;
     long_tp := v; long_sl := long_sl t;
     short_tp := short_tp t; short_sl := short_sl t;
     last_units := last_units t; last_direction := last_direction t |}.

Definition with_long_sl (v : Q) (t : Trader) : Trader :=
  {| symbol := symbol t; bar_length := bar_length t;
     base_units := base_units t; int_units := int_units t;
     leverage := leverage t; cum_profits := cum_profits t;
     side := side t; close := close t;
     long_entry_add := long_entry_add t;
     short_entry_deduct := short_entry_deduct t;
     long_tp_add := long_tp_add t; long_sl_deduct := long_sl_deduct t;
     short_tp_deduct := short_tp_deduct t; short_sl_add := short_sl_add t;
     long_entry := long_entry t; short_entry := short_entry t;
     long_tp := long_tp t; long_sl := v;
     short_tp := short_tp t; short_sl := short_sl t;
     last_units := last_units t; last_direction := last_direction t |}.

Definition with_short_tp (v : Q) (t : Trader) : Trader :=
  {| symbol := symbol t; bar_length := bar_length t;
     base_units := base_units t; int_units := int_units t;
     leverage := leverage t; cum_profits := cum_profits t;
     side := side t; close := close t;
     long_entry_add := long_entry_add t;
     short_entry_deduct := short_entry_deduct t;
     long_tp_add := long_tp_add t; long_sl_deduct := long_sl_deduct t;
     short_tp_deduct := short_tp_deduct t; short_sl_add := short_sl_add t;
     long_entry := long_entry t; short_entry := short_entry t;
     long_tp := long_tp t; long_sl := long_sl t;
     short_tp := v; short_sl := short_sl t;
     last_units := last_units t; last_direction := last_direction t |}.

Definition with_short_sl (v : Q) (t : Trader) : Trader :=
  {| symbol := symbol t; bar_length := bar_length t;
     base_units := base_units t; int_units := int_units t;
     leverage := leverage t; cum_profits := cum_profits t;
     side := side t; close := close t;
     long_entry_add := long_entry_add t;
     short_entry_deduct := short_entry_deduct t;
     long_tp_add := long_tp_add t; long_sl_deduct := long_sl_deduct t;
     short_tp_deduct := short_tp_deduct t; short_sl_add := short_sl_add t;
     long_entry := long_entry t; short_entry := short_entry t;
     long_tp := long_tp t; long_sl := long_sl t;
     short_tp := short_tp t; short_sl := v;
     last_units := last_units t; last_direction := last_direction t |}.

Definition with_last_units (v : Q) (t : Trader) : Trader :=
  {| symbol := symbol t; bar_length := bar_length t;
     base_units := base_units t; int_units := int_units t;
     leverage := leverage t; cum_profits := cum_profits t;
     side := side t; close := close t;
     long_entry_add := long_entry_add t;
     short_entry_deduct := short_entry_deduct t;
     long_tp_add := long_tp_add t; long_sl_deduct := long_sl_deduct t;
     short_tp_deduct := short_tp_deduct t; short_sl_add := short_sl_add t;
     long_entry := long_entry t; short_entry := short_entry t;
     long_tp := long_tp t; long_sl := long_sl t;
     short_tp := short_tp t; short_sl := short_sl t;
     last_units := v; last_direction := last_direction t |}.

Definition with_last_direction (v : option direction) (t : Trader) : Trader :=
  {| symbol := symbol t; bar_length := bar_length t;
     base_units := base_units t; int_units := int_units t;
     leverage := leverage t; cum_profits := cum_profits t;
     side := side t; close := close t;
     long_entry_add := long_entry_add t;
     short_entry_deduct := short_entry_deduct t;
     long_tp_add := long_tp_add t; long_sl_deduct := long_sl_deduct t;
     short_tp_deduct := short_tp_deduct t; short_sl_add := short_sl_add t;
     long_entry := long_entry t; short_entry := short_entry t;
     long_tp := long_tp t; long_sl := long_sl t;
     short_tp := short_tp t; short_sl := short_sl t;
     last_units := last_units t; last_direction := v |}.

(** Python's [x < y] on numbers; [x > y] is [Qlt_bool y x] and [x >= y] is
    [Qle_bool y x]. *)
Definition Qlt_bool (x y : Q) : bool :=
  (Qnum x * QDen y <? Qnum y * QDen x)%Z.

(** ** The venue *)

(** The calls the bot makes on [client], as they appear in the log. *)
Inductive call : Type :=
| CreateOrder (request : order_request)
| SymbolTicker (symbol0 : string)
| PositionInformation (symbol0 : string)
| ChangeLeverage (symbol0 : string) (leverage0 : Z)
| GetPositionMode
| ChangePositionMode (dualSidePosition : bool).

(** What a call on the venue does: it answers or raises, and moves the
    venue to a new state. *)
Record Gateway (W : Type) : Type := {
  futures_create_order : order_request -> W -> (exn + order_response) * W;
  futures_symbol_ticker : string -> W -> (exn + Q) * W;
  futures_position_information : string -> W -> (exn + list position) * W;
  futures_change_leverage : string -> Z -> W -> (exn + unit) * W;
  futures_get_position_mode : W -> (exn + bool) * W;
  futures_change_position_mode : bool -> W -> (exn + unit) * W
}.

Arguments futures_create_order {W} _ _ _.
Arguments futures_symbol_ticker {W} _ _ _.
Arguments futures_position_information {W} _ _ _.
Arguments futures_change_leverage {W} _ _ _ _.
Arguments futures_get_position_mode {W} _ _.
Arguments futures_change_position_mode {W} _ _ _.

(** ** The monad of [Trader] methods *)

Inductive outcome (A : Type) : Type :=
| Return (a : A)
| Raise (e : exn).

Arguments Return {A} a.
Arguments Raise {A} e.

Record machine (W : Type) : Type := {
  self : Trader;
  world : W;
  calls : list call
}.

Arguments self {W} _.
Arguments world {W} _.
Arguments calls {W} _.
Arguments Build_machine {W} _ _ _.

Definition M (W A : Type) : Type := machine W -> outcome A * machine W.

Definition ret {W A : Type} (a : A) : M W A := fun m => (Return a, m).

Definition raise {W A : Type} (e : exn) : M W A := fun m => (Raise e, m).

Definition bind {W A B : Type} (c : M W A) (k : A -> M W B) : M W B :=
  fun m =>
    match c m with
    | (Return a, m1) => k a m1
    | (Raise e, m1) => (Raise e, m1)
    end.

(** [try: body  except Exception as e: handler e]. *)
Definition try_except {W A : Type} (body : M W A) (handler : exn -> M W A)
    : M W A :=
  fun m =>
    match body m with
    | (Return a, m1) => (Return a, m1)
    | (Raise e, m1) => handler e m1
    end.

Declare Scope py_scope.
Delimit Scope py_scope with py.

Notation "x <- c ;; k" := (bind c (fun x => k))
  (at level 61, c at next level, right associativity) : py_scope.
Notation "c ;; k" := (bind c (fun _ => k))
  (at level 61, right associativity) : py_scope.

Open Scope py_scope.

(** Reading and assigning attributes of [self]. *)
Definition get_self {W : Type} : M W Trader := fun m => (Return (self m), m).

Definition assign {W : Type} (f : Trader -> Trader) : M W unit :=
  fun m =>
    (Return tt, {| self := f (self m); world := world m; calls := calls m |}).

(** [print(...)]. *)
Definition print {W : Type} (text : string) : M W unit := ret tt.

(** [for x in xs: body x]. *)
Fixpoint for_each {W A : Type} (xs : list A) (body : A -> M W unit)
    : M W unit :=
  match xs with
  | [] => ret tt
  | x :: rest => body x ;; for_each rest body
  end.

(** A venue call: it is logged, the venue moves, and a failure is raised. *)
Definition client_call {W A : Type} (c : call) (f : W -> (exn + A) * W)
    : M W A :=
  fun m =>
    let (answer, w) := f (world m) in
    let m1 := {| self := self m; world := w; calls := calls m ++ [c] |} in
    match answer with
    | inr a => (Return a, m1)
    | inl e => (Raise e, m1)
    end.

(** ** The methods of [Trader] *)

Section Engine.

Context {W : Type} (client : Gateway W).

Definition create_order (request : order_request) : M W order_response :=
  client_call (CreateOrder request) (futures_create_order client request).

Definition symbol_ticker (symbol0 : string) : M W Q :=
  client_call (SymbolTicker symbol0) (futures_symbol_ticker client symbol0).

Definition position_information (symbol0 : string) : M W (list position) :=
  client_call (PositionInformation symbol0)
    (futures_position_information client symbol0).

Definition change_leverage (symbol0 : string) (leverage0 : Z) : M W unit :=
  client_call (ChangeLeverage symbol0 leverage0)
    (futures_change_leverage client symbol0 leverage0).

Definition get_position_mode : M W bool :=
  client_call GetPositionMode (futures_get_position_mode client).

Definition change_position_mode (dualSidePosition : bool) : M W unit :=
  client_call (ChangePositionMode dualSidePosition)
    (futures_change_position_mode client dualSidePosition).

(** [Trader.report_trade]: three lines on the console. *)
Definition report_trade (order : order_response) (direction0 : string)
    (price : Q) : M W unit :=
  print direction0 ;;
  print "Order ID" ;;
  print "Quantity".

(** The LONG branch of [first_trade] (lines 91-122). *)
Definition enter_long : M W unit :=
  t <- get_self ;;
  order <- create_order
             {| o_symbol := symbol t; o_side := BUY; o_type := MARKET;
                o_quantity := int_units t; o_positionSide := LONG |} ;;
  ticker <- symbol_ticker (symbol t) ;;
  assign (with_long_entry ticker) ;;
  assign (fun s =>
    with_short_entry (long_entry s - short_entry_deduct s * long_entry s) s) ;;
  assign (fun s =>
    with_long_tp (long_entry s + long_tp_add s * long_entry s) s) ;;
  assign (fun s =>
    with_long_sl (long_entry s - long_sl_deduct s * long_entry s) s) ;;
  assign (fun s =>
    with_short_tp (short_entry s - short_tp_deduct s * short_entry s) s) ;;
  assign (fun s =>
    with_short_sl (short_entry s + short_sl_add s * short_entry s) s) ;;
  assign (fun s => with_last_units (int_units s) s) ;;
  assign (with_last_direction (Some LONG)) ;;
  s <- get_self ;;
  report_trade order "ENTERING LONG at" (long_entry s) ;;
  print "long tp, long sl" ;;
  print "next short entry".

(** The SHORT branch of [first_trade] (lines 127-158). *)
Definition enter_short : M W unit :=
  t <- get_self ;;
  order <- create_order
             {| o_symbol := symbol t; o_side := SELL; o_type := MARKET;
                o_quantity := int_units t; o_positionSide := SHORT |} ;;
  ticker <- symbol_ticker (symbol t) ;;
  assign (with_short_entry ticker) ;;
  assign (fun s =>
    with_long_entry (short_entry s + long_entry_add s * short_entry s) s) ;;
  assign (fun s =>
    with_short_tp (short_entry s - short_tp_deduct s * short_entry s) s) ;;
  assign (fun s =>
    with_short_sl (short_entry s + short_sl_add s * short_entry s) s) ;;
  assign (fun s =>
    with_long_tp (long_entry s + long_tp_add s * long_entry s) s) ;;
  assign (fun s =>
    with_long_sl (long_entry s - long_sl_deduct s * long_entry s) s) ;;
  assign (fun s => with_last_units (int_units s * -1) s) ;;
  assign (with_last_direction (Some SHORT)) ;;
  s <- get_self ;;
  report_trade order "ENTERING SHORT at" (short_entry s) ;;
  print "short tp, short sl" ;;
  print "next long entry".

(** [Trader.first_trade]. *)
Definition first_trade : M W unit :=
  try_except
    (t <- get_self ;;
     if (side t =? "LONG")%string then enter_long
     else if (side t =? "SHORT")%string then enter_short
     else ret tt)
    (fun e => print "Error in first_trade" ;; raise e).

(** The body of the loop of [Trader.close_all_positions] (lines 287-315). *)
Definition close_position (pos : position) : M W unit :=
  let type := positionSide pos in
  let amt := positionAmt pos in
  if Qeq_bool amt 0 then ret tt
  else
    let qty := Qabs amt in
    if (type =? "LONG")%string && Qlt_bool 0 amt then
      t <- get_self ;;
      order <- create_order
                 {| o_symbol := symbol t; o_side := SELL; o_type := MARKET;
                    o_quantity := qty; o_positionSide := LONG |} ;;
      print "Closed LONG position"
    else if (type =? "SHORT")%string && Qlt_bool amt 0 then
      t <- get_self ;;
      order <- create_order
                 {| o_symbol := symbol t; o_side := BUY; o_type := MARKET;
                    o_quantity := qty; o_positionSide := SHORT |} ;;
      print "Closed SHORT position"
    else ret tt.

(** [Trader.close_all_positions]. *)
Definition close_all_positions : M W unit :=
  try_except
    (t <- get_self ;;
     positions <- position_information (symbol t) ;;
     for_each positions close_position)
    (fun e => print "Error in close_all_positions" ;; raise e).

(** The hedge of a LONG position in [hedging_loop] (lines 191-210). *)
Definition hedge_short : M W unit :=
  t <- get_self ;;
  order <- create_order
             {| o_symbol := symbol t; o_side := SELL; o_type := MARKET;
                o_quantity := Qabs (last_units t * 2);
                o_positionSide := SHORT |} ;;
  ticker <- symbol_ticker (symbol t) ;;
  assign (with_short_entry ticker) ;;
  assign (fun s =>
    with_short_tp (short_entry s - short_tp_deduct s * short_entry s) s) ;;
  assign (fun s =>
    with_short_sl (short_entry s + short_sl_add s * short_entry s) s) ;;
  assign (fun s => with_last_units (last_units s * 2 * -1) s) ;;
  assign (with_last_direction (Some SHORT)) ;;
  s <- get_self ;;
  report_trade order "ENTERING SHORT at" (short_entry s) ;;
  print "next long entry".

(** The take-profit of a LONG position in [hedging_loop] (lines 215-223). *)
Definition take_profit_long : M W unit :=
  print "Close is equal to long tp" ;;
  close_all_positions ;;
  assign (with_last_units 0) ;;
  assign (with_last_direction None) ;;
  assign (with_side "LONG") ;;
  print "All positions closed, Side set to Long, Running first trade" ;;
  first_trade.

(** The hedge of a SHORT position in [hedging_loop] (lines 232-254). *)
Definition hedge_long : M W unit :=
  print "Close is equal to short entry + 400" ;;
  t <- get_self ;;
  order <- create_order
             {| o_symbol := symbol t; o_side := BUY; o_type := MARKET;
                o_quantity := Qabs (last_units t * 2);
                o_positionSide := LONG |} ;;
  ticker <- symbol_ticker (symbol t) ;;
  assign (with_long_entry ticker) ;;
  assign (fun s =>
    with_long_tp (long_entry s + long_tp_add s * long_entry s) s) ;;
  assign (fun s =>
    with_long_sl (long_entry s - long_sl_deduct s * long_entry s) s) ;;
  assign (fun s => with_last_units (last_units s * 2 * -1) s) ;;
  assign (with_last_direction (Some LONG)) ;;
  s <- get_self ;;
  report_trade order "ENTERING LONG at" (long_entry s) ;;
  print "next short entry".

(** The take-profit of a SHORT position in [hedging_loop] (lines 259-268). *)
Definition take_profit_short : M W unit :=
  print "Close is equal to short tp" ;;
  close_all_positions ;;
  print "Closing long position" ;;
  assign (with_last_units 0) ;;
  assign (with_last_direction None) ;;
  assign (with_side "SHORT") ;;
  print "All positions closed, Side set to Short, Running first trade" ;;
  first_trade.

(** [Trader.hedging_loop]. *)
Definition hedging_loop : M W unit :=
  try_except
    (t <- get_self ;;
     match last_direction t with
     | Some LONG =>
         if Qlt_bool 0 (last_units t) then
           if Qle_bool (close t) (short_entry t) then hedge_short
           else if Qle_bool (long_tp t) (close t) then take_profit_long
           else ret tt
         else ret tt
     | Some SHORT =>
         if Qlt_bool (last_units t) 0 then
           if Qle_bool (long_entry t) (close t) then hedge_long
           else if Qle_bool (close t) (short_tp t) then take_profit_short
           else ret tt
         else ret tt
     | None => ret tt
     end)
    (fun e => print "Error in hedging_loop").

(** Reading a field of the socket message; a missing field raises. *)
Definition field {A : Type} (name : string) (value : option A) : M W A :=
  match value with
  | Some a => ret a
  | None => raise (Exception name)
  end.

(** [Trader.stream_price], the callback of the price socket. *)
Definition stream_price (msg : kline_msg) : M W unit :=
  try_except
    (event_time <- field "E" (E msg) ;;
     close0 <- field "c" (k_c msg) ;;
     assign (with_close close0) ;;
     hedging_loop)
    (fun e => print "Error in stream_price").

(** [Trader.start_trading]; [feed] is the sequence of messages the socket
    delivers to the callback, one after the other. *)
Definition start_trading (feed : list kline_msg) : M W unit :=
  t <- get_self ;;
  change_leverage (symbol t) (leverage t) ;;
  try_except
    (position_mode <- get_position_mode ;;
     if negb position_mode then change_position_mode true else ret tt)
    (fun e => print "Error checking/setting position mode") ;;
  first_trade ;;
  for_each feed stream_price.

End Engine.

(** ** A scripted venue

    A small venue for running the bot on concrete inputs: the ticker answers
    [quote], the position query answers [report], and the venue accepts
    [orders_accepted] more orders before it starts to reject them. *)

Record venue : Type := {
  quote : Q;
  report : list position;
  orders_accepted : nat;
  ticker_up : bool;
  report_up : bool;
  dual_side : bool;
  next_order_id : Z
}.

Definition venue_create_order (request : order_request) (w : venue)
    : (exn + order_response) * venue :=
  match orders_accepted w with
  | O => (inl (Exception "order rejected"), w)
  | S n =>
      (inr {| orderId := next_order_id w; origQty := o_quantity request |},
       {| quote := quote w; report := report w; orders_accepted := n;
          ticker_up := ticker_up w; report_up := report_up w;
          dual_side := dual_side w;
          next_order_id := (next_order_id w + 1)%Z |})
  end.

Definition venue_symbol_ticker (symbol0 : string) (w : venue)
    : (exn + Q) * venue :=
  if ticker_up w then (inr (quote w), w)
  else (inl (Exception "ticker unavailable"), w).

Definition venue_position_information (symbol0 : string) (w : venue)
    : (exn + list position) * venue :=
  if report_up w then (inr (report w), w)
  else (inl (Exception "positions unavailable"), w).

Definition venue_change_position_mode (dualSidePosition : bool) (w : venue)
    : (exn + unit) * venue :=
  (inr tt,
   {| quote := quote w; report := report w;
      orders_accepted := orders_accepted w;
      ticker_up := ticker_up w; report_up := report_up w;
      dual_side := dualSidePosition;
      next_order_id := next_order_id w |}).

Definition scripted : Gateway venue :=
  {| futures_create_order := venue_create_order;
     futures_symbol_ticker := venue_symbol_ticker;
     futures_position_information := venue_position_information;
     futures_change_leverage := fun _ _ w => (inr tt, w);
     futures_get_position_mode := fun w => (inr (dual_side w), w);
     futures_change_position_mode := venue_change_position_mode |}.

(** A healthy venue quoting [p] and reporting [ps]. *)
Definition healthy (p : Q) (ps : list position) : venue :=
  {| quote := p; report := ps; orders_accepted := 1000;
     ticker_up := true; report_up := true; dual_side := true;
     next_order_id := 1 |}.

(** The trader of the [__main__] block: BTCUSDT, one-minute candles,
    0.3 units, leverage 50, starting LONG, offsets 0.4%, 0.4%, 0.8%, 1.2%,
    0.8%, 1.2%. *)
Definition main_trader : Trader :=
  init "BTCUSDT" "1m" 0.3 50 "LONG"
    (0.4 / 100) (0.4 / 100) (0.8 / 100) (1.2 / 100) (0.8 / 100) (1.2 / 100).

Definition boot {W : Type} (t : Trader) (w : W) : machine W :=
  {| self := t; world := w; calls := [] |}.

(** A well-formed price message. *)
Definition tick (p : Q) : kline_msg := {| E := Some 0%Z; k_c := Some p |}.

(** ** Transitions of the trader

    The assignments of each block of the engine, composed in the order the
    code makes them, and the orders the blocks send. *)

(** [enter_long] after the ticker answered [p]. *)
Definition entered_long (p : Q) (t : Trader) : Trader :=
  let s := with_long_entry p t in
  let s :=
    with_short_entry (long_entry s - short_entry_deduct s * long_entry s) s in
  let s := with_long_tp (long_entry s + long_tp_add s * long_entry s) s in
  let s := with_long_sl (long_entry s - long_sl_deduct s * long_entry s) s in
  let s :=
    with_short_tp (short_entry s - short_tp_deduct s * short_entry s) s in
  let s := with_short_sl (short_entry s + short_sl_add s * short_entry s) s in
  let s := with_last_units (int_units s) s in
  with_last_direction (Some LONG) s.

(** [enter_short] after the ticker answered [p]. *)
Definition entered_short (p : Q) (t : Trader) : Trader :=
  let s := with_short_entry p t in
  let s :=
    with_long_entry (short_entry s + long_entry_add s * short_entry s) s in
  let s :=
    with_short_tp (short_entry s - short_tp_deduct s * short_entry s) s in
  let s := with_short_sl (short_entry s + short_sl_add s * short_entry s) s in
  let s := with_long_tp (long_entry s + long_tp_add s * long_entry s) s in
  let s := with_long_sl (long_entry s - long_sl_deduct s * long_entry s) s in
  let s := with_last_units (int_units s * -1) s in
  with_last_direction (Some SHORT) s.

(** [hedge_short] after the ticker answered [p]. *)
Definition hedged_short (p : Q) (t : Trader) : Trader :=
  let s := with_short_entry p t in
  let s :=
    with_short_tp (short_entry s - short_tp_deduct s * short_entry s) s in
  let s := with_short_sl (short_entry s + short_sl_add s * short_entry s) s in
  let s := with_last_units (last_units s * 2 * -1) s in
  with_last_direction (Some SHORT) s.

(** [hedge_long] after the ticker answered [p]. *)
Definition hedged_long (p : Q) (t : Trader) : Trader :=
  let s := with_long_entry p t in
  let s := with_long_tp (long_entry s + long_tp_add s * long_entry s) s in
  let s := with_long_sl (long_entry s - long_sl_deduct s * long_entry s) s in
  let s := with_last_units (last_units s * 2 * -1) s in
  with_last_direction (Some LONG) s.

(** The reset a take-profit block makes between [close_all_positions] and
    [first_trade]. *)
Definition flattened (side0 : string) (t : Trader) : Trader :=
  with_side side0 (with_last_direction None (with_last_units 0 t)).

Definition opening_side (d : direction) : order_side :=
  match d with
  | LONG => BUY
  | SHORT => SELL
  end.

(** The order [first_trade] sends to open a position on side [d]. *)
Definition entry_order (d : direction) (t : Trader) : order_request :=
  {| o_symbol := symbol t; o_side := opening_side d; o_type := MARKET;
     o_quantity := int_units t; o_positionSide := d |}.

(** The order [hedging_loop] sends to hedge into side [d]. *)
Definition hedge_order (d : direction) (t : Trader) : order_request :=
  {| o_symbol := symbol t; o_side := opening_side d; o_type := MARKET;
     o_quantity := Qabs (last_units t * 2); o_positionSide := d |}.

(** The positions for which [close_position] sends an order, and the order. *)
Definition closable (pos : position) : bool :=
  negb (Qeq_bool (positionAmt pos) 0)
  && (((positionSide pos =? "LONG")%string && Qlt_bool 0 (positionAmt pos))
      || ((positionSide pos =? "SHORT")%string
          && Qlt_bool (positionAmt pos) 0)).

Definition closing_order (symbol0 : string) (pos : position)
    : order_request :=
  if (positionSide pos =? "LONG")%string && Qlt_bool 0 (positionAmt pos)
  then {| o_symbol := symbol0; o_side := SELL; o_type := MARKET;
          o_quantity := Qabs (positionAmt pos); o_positionSide := LONG |}
  else {| o_symbol := symbol0; o_side := BUY; o_type := MARKET;
          o_quantity := Qabs (positionAmt pos); o_positionSide := SHORT |}.

(** The machine after some calls: a new [self], a new venue state, and the
    calls appended to the log. *)
Definition moved {W : Type} (m : machine W) (t : Trader) (w : W)
    (cs : list call) : machine W :=
  {| self := t; world := w; calls := calls m ++ cs |}.

(** The orders of a call log, in the order they were sent. *)
Fixpoint orders_of (cs : list call) : list order_request :=
  match cs with
  | [] => []
  | CreateOrder request :: rest => request :: orders_of rest
  | _ :: rest => orders_of rest
  end.

(** ** Predicates of the specification *)

(** The sign of the tracked exposure matches the tracked direction. *)
Definition sign_matches (t : Trader) : Prop :=
  match last_direction t with
  | Some LONG => 0 < last_units t
  | Some SHORT => last_units t < 0
  | None => last_units t == 0
  end.

(** The invariant of a run: the sign matches and the entry size is
    positive. *)
Definition run_invariant (t : Trader) : Prop :=
  sign_matches t /\ 0 < int_units t.

(** The six derived price levels of two traders are the same. *)
Definition same_levels (t t' : Trader) : Prop :=
  long_entry t' = long_entry t /\ short_entry t' = short_entry t /\
  long_tp t' = long_tp t /\ long_sl t' = long_sl t /\
  short_tp t' = short_tp t /\ short_sl t' = short_sl t.

(** Two prices agree to the decimal the specification prints. *)
Definition approx (x y : Q) : Prop := Qabs (x - y) <= 0.05.

(** The machine with [self] replaced and nothing else touched. *)
Definition with_self {W : Type} (t : Trader) (m : machine W) : machine W :=
  {| self := t; world := world m; calls := calls m |}.

(** The orders [close_all_positions] sends for a report, as they appear in
    the log. *)
Definition closing_calls (symbol0 : string) (ps : list position)
    : list call :=
  map (fun pos => CreateOrder (closing_order symbol0 pos))
    (filter closable ps).

(** The literal [self.side] is compared with, for each direction. *)
Definition side_name (d : direction) : string :=
  match d with
  | LONG => "LONG"
  | SHORT => "SHORT"
  end.

(** ** The effect of one price update on the trader

    [transition t t'] lists what one run of [hedging_loop] can do to the
    attributes of the trader: nothing; a hedge, with the ticker answer [p];
    a take-profit whose re-entry succeeded, with the ticker answer [p]; a
    take-profit whose re-entry failed after the positions were closed. *)
Inductive transition (t : Trader) : Trader -> Prop :=
| Idle : transition t t
| HedgeShort (p : Q) :
    last_direction t = Some LONG -> 0 < last_units t ->
    close t <= short_entry t ->
    transition t (hedged_short p t)
| TakeProfitLong (p : Q) :
    last_direction t = Some LONG -> 0 < last_units t ->
    short_entry t < close t -> long_tp t <= close t ->
    transition t (entered_long p (flattened "LONG" t))
| StrandedLong :
    last_direction t = Some LONG -> 0 < last_units t ->
    short_entry t < close t -> long_tp t <= close t ->
    transition t (flattened "LONG" t)
| HedgeLong (p : Q) :
    last_direction t = Some SHORT -> last_units t < 0 ->
    long_entry t <= close t ->
    transition t (hedged_long p t)
| TakeProfitShort (p : Q) :
    last_direction t = Some SHORT -> last_units t < 0 ->
    close t < long_entry t -> close t <= short_tp t ->
    transition t (entered_short p (flattened "SHORT" t))
| StrandedShort :
    last_direction t = Some SHORT -> last_units t < 0 ->
    close t < long_entry t -> close t <= short_tp t ->
    transition t (flattened "SHORT" t).

(** The tracked direction, the tracked exposure and the six price levels of
    [t'] are those of [t]. *)
Definition engine_unchanged (t t' : Trader) : Prop :=
  last_direction t' = last_direction t /\ last_units t' = last_units t /\
  same_levels t t'.

(** ** Concrete runs *)

(** The machine on another venue. *)
Definition with_world {W : Type} (w : W) (m : machine W) : machine W :=
  {| self := self m; world := w; calls := calls m |}.

(** A venue that rejects every order. *)
Definition rejecting (p : Q) (ps : list position) : venue :=
  {| quote := p; report := ps; orders_accepted := 0;
     ticker_up := true; report_up := true; dual_side := true;
     next_order_id := 1 |}.

(** A venue whose ticker is down. *)
Definition silent (ps : list position) : venue :=
  {| quote := 0; report := ps; orders_accepted := 1000;
     ticker_up := false; report_up := true; dual_side := true;
     next_order_id := 1 |}.

(** A venue whose position query is down. *)
Definition blind (p : Q) : venue :=
  {| quote := p; report := []; orders_accepted := 1000;
     ticker_up := true; report_up := false; dual_side := true;
     next_order_id := 1 |}.

(** Scenario A of the specification: the bot of the [__main__] block makes
    its first trade on a venue quoting 50000. *)
Definition scenario_A : machine venue :=
  snd (first_trade scripted (boot main_trader (healthy 50000 []))).

(** Scenario B: after A the price falls to 49800 and the hedge fills at
    49800. *)
Definition scenario_B : machine venue :=
  snd (stream_price scripted (tick 49800)
         (with_world (healthy 49800 []) scenario_A)).

(** ** The wording of the specification *)

(** A valid configuration: every offset is a fraction strictly between 0
    and 1. *)
Definition offset_fraction (x : Q) : Prop := 0 < x /\ x < 1.

Definition valid_configuration (t : Trader) : Prop :=
  offset_fraction (long_entry_add t)
  /\ offset_fraction (short_entry_deduct t)
  /\ offset_fraction (long_tp_add t)
  /\ offset_fraction (long_sl_deduct t)
  /\ offset_fraction (short_tp_deduct t)
  /\ offset_fraction (short_sl_add t).

(** The levels scenario A of the specification expects after the first
    trade. *)
Definition scenario_A_expected (t : Trader) : Prop :=
  long_entry t == 50000 /\ short_entry t == 49800
  /\ long_tp t == 50400 /\ long_sl t == 49400
  /\ approx (short_tp t) 49404.4 /\ approx (short_sl t) 50397.6
  /\ last_units t == 0.3.

(** The reported positions with a nonzero quantity, and the market order
    opposing a reported position for its exact quantity. *)
Definition nonzero_positions (ps : list position) : list position :=
  filter (fun pos => negb (Qeq_bool (positionAmt pos) 0)) ps.

Definition opposing_order (symbol0 : string) (pos : position)
    : order_request :=
  if (positionSide pos =? "LONG")%string
  then {| o_symbol := symbol0; o_side := SELL; o_type := MARKET;
          o_quantity := Qabs (positionAmt pos); o_positionSide := LONG |}
  else {| o_symbol := symbol0; o_side := BUY; o_type := MARKET;
          o_quantity := Qabs (positionAmt pos); o_positionSide := SHORT |}.

(** ** Further definitions *)

(** The block of [start_trading] that checks the position mode of the
    account (lines 350-355). *)
Definition ensure_dual_side {W : Type} (client : Gateway W) : M W unit :=
  try_except
    (position_mode <- get_position_mode client ;;
     if negb position_mode then change_position_mode client true
     else ret tt)
    (fun e => print "Error checking/setting position mode").

(** The attributes [__init__] receives and no method assigns. *)
Definition same_configuration (t t' : Trader) : Prop :=
  symbol t' = symbol t /\ bar_length t' = bar_length t
  /\ base_units t' = base_units t /\ int_units t' = int_units t
  /\ leverage t' = leverage t /\ cum_profits t' = cum_profits t
  /\ long_entry_add t' = long_entry_add t
  /\ short_entry_deduct t' = short_entry_deduct t
  /\ long_tp_add t' = long_tp_add t /\ long_sl_deduct t' = long_sl_deduct t
  /\ short_tp_deduct t' = short_tp_deduct t
  /\ short_sl_add t' = short_sl_add t.

(** The tracked exposure is zero, or the entry size doubled [k] times. *)
Definition grid_sized (t : Trader) : Prop :=
  last_units t == 0
  \/ exists k : nat,
       Qabs (last_units t) == Qabs (int_units t) * 2 ^ Z.of_nat k.

(** Stop-loss, entry and take-profit are in this order on both sides. *)
Definition levels_ordered (t : Trader) : Prop :=
  (long_sl t < long_entry t /\ long_entry t < long_tp t)
  /\ (short_tp t < short_entry t /\ short_entry t < short_sl t).

(** The calls of the price callback on symbol [s]: orders with a positive
    quantity, ticker queries and position queries, all on [s]. *)
Definition trading_call (s : string) (c : call) : Prop :=
  match c with
  | CreateOrder request => o_symbol request = s /\ 0 < o_quantity request
  | SymbolTicker symbol0 => symbol0 = s
  | PositionInformation symbol0 => symbol0 = s
  | _ => False
  end.

(** The log of [m'] is the log of [m] followed by calls that satisfy [P]. *)
Definition logged {W : Type} (P : call -> Prop) (m m' : machine W) : Prop :=
  exists cs, calls m' = calls m ++ cs /\ Forall P cs.

(** A venue in one-way mode, and a venue that refuses the leverage. *)
Definition one_way (p : Q) : venue :=
  {| quote := p; report := []; orders_accepted := 1000;
     ticker_up := true; report_up := true; dual_side := false;
     next_order_id := 1 |}.

Definition capped : Gateway venue :=
  {| futures_create_order := venue_create_order;
     futures_symbol_ticker := venue_symbol_ticker;
     futures_position_information := venue_position_information;
     futures_change_leverage :=
       fun _ _ w => (inl (Exception "leverage refused"), w);
     futures_get_position_mode := fun w => (inr (dual_side w), w);
     futures_change_position_mode := venue_change_position_mode |}.

(** ** Binary floating point

    A Python [float] is an IEEE 754 binary64 number, and every [+], [-] and
    [*] of two floats returns the exact result rounded to the nearest
    binary64 number, ties to the even mantissa.  [round64] is this rounding
    on the rationals: a number of magnitude [2^(k-1) <= |x| < 2^k] is
    rounded to a multiple of [2^(k-53)], and below [2^(-1021)] to a multiple
    of [2^(-1074)] (the subnormal numbers).  The exponent has no upper
    limit in [round64]: it is the rounding of binary64 for results of
    magnitude below [2^1024], and the statements about it bound the prices
    so that no result is larger. *)

Definition pow2 (k : Z) : Q := 2 ^ k.

(** The exponent of the last mantissa bit of a number of magnitude
    [2^(k-1) <= |x| < 2^k]. *)
Definition fexp (k : Z) : Z := Z.max (k - 53) (-1074).

(** The magnitude [k] of a positive rational: [2^(k-1) <= x < 2^k]. *)
Definition mag (x : Q) : Z :=
  let c := (Z.log2 (Qnum x) - Z.log2 (Z.pos (Qden x)))%Z in
  if Qlt_bool x (pow2 c) then c else (c + 1)%Z.

(** The nearest integer, ties to even. *)
Definition rne (x : Q) : Z :=
  let f := Qfloor x in
  match Qcompare (x - inject_Z f) (1 # 2) with
  | Lt => f
  | Gt => (f + 1)%Z
  | Eq => if Z.even f then f else (f + 1)%Z
  end.

Definition round64 (x : Q) : Q :=
  if Qeq_bool x 0 then 0
  else
    let e := fexp (mag (Qabs x)) in
    inject_Z (rne (x * pow2 (- e))) * pow2 e.

(** The rationals that are binary64 numbers. *)
Definition is_binary64 (x : Q) : Prop := round64 x == x.

(** The largest quote of the statements below: every level derived from a
    quote up to [2^1021] is at most [2^1023], a binary64 number. *)
Definition price_bound : Q := pow2 1021.

(** The rational a primitive binary64 number of Rocq stands for; [None] for
    an infinity or a NaN. *)
Definition Q_of_float (x : float) : option Q :=
  match Prim2SF x with
  | S754_zero _ => Some 0
  | S754_finite s m e =>
      Some (inject_Z (if s then Z.neg m else Z.pos m) * pow2 e)
  | _ => None
  end.

(** The primitive float [x] is finite and stands for the rational [q]. *)
Definition float_is (x : float) (q : Q) : bool :=
  match Q_of_float x with
  | Some y => Qeq_bool y q
  | None => false
  end.

(** ** The arithmetic of the price levels

    How [float(...)], [+], [-] and [*] compute.  The engine above is the
    engine below in the [exact] arithmetic; Python runs it in [binary64]. *)

Record arithmetic : Type := {
  float_of : Q -> Q;
  fadd : Q -> Q -> Q;
  fsub : Q -> Q -> Q;
  fmul : Q -> Q -> Q
}.

Definition exact : arithmetic :=
  {| float_of := fun x => x; fadd := Qplus; fsub := Qminus; fmul := Qmult |}.

Definition binary64 : arithmetic :=
  {| float_of := round64;
     fadd := fun x y => round64 (x + y);
     fsub := fun x y => round64 (x - y);
     fmul := fun x y => round64 (x * y) |}.

Section Rounded.

Context {W : Type} (client : Gateway W) (a : arithmetic).

(** The LONG branch of [first_trade] (lines 91-122). *)
Definition enter_long_in : M W unit :=
  t <- get_self ;;
  order <- create_order client
             {| o_symbol := symbol t; o_side := BUY; o_type := MARKET;
                o_quantity := int_units t; o_positionSide := LONG |} ;;
  ticker <- symbol_ticker client (symbol t) ;;
  assign (with_long_entry (float_of a ticker)) ;;
  assign (fun s =>
    with_short_entry
      (fsub a (long_entry s) (fmul a (short_entry_deduct s) (long_entry s)))
      s) ;;
  assign (fun s =>
    with_long_tp
      (fadd a (long_entry s) (fmul a (long_tp_add s) (long_entry s))) s) ;;
  assign (fun s =>
    with_long_sl
      (fsub a (long_entry s) (fmul a (long_sl_deduct s) (long_entry s)))
      s) ;;
  assign (fun s =>
    with_short_tp
      (fsub a (short_entry s) (fmul a (short_tp_deduct s) (short_entry s)))
      s) ;;
  assign (fun s =>
    with_short_sl
      (fadd a (short_entry s) (fmul a (short_sl_add s) (short_entry s)))
      s) ;;
  assign (fun s => with_last_units (int_units s) s) ;;
  assign (with_last_direction (Some LONG)) ;;
  s <- get_self ;;
  report_trade order "ENTERING LONG at" (long_entry s) ;;
  print "long tp, long sl" ;;
  print "next short entry".

(** The SHORT branch of [first_trade] (lines 127-158). *)
Definition enter_short_in : M W unit :=
  t <- get_self ;;
  order <- create_order client
             {| o_symbol := symbol t; o_side := SELL; o_type := MARKET;
                o_quantity := int_units t; o_positionSide := SHORT |} ;;
  ticker <- symbol_ticker client (symbol t) ;;
  assign (with_short_entry (float_of a ticker)) ;;
  assign (fun s =>
    with_long_entry
      (fadd a (short_entry s) (fmul a (long_entry_add s) (short_entry s)))
      s) ;;
  assign (fun s =>
    with_short_tp
      (fsub a (short_entry s) (fmul a (short_tp_deduct s) (short_entry s)))
      s) ;;
  assign (fun s =>
    with_short_sl
      (fadd a (short_entry s) (fmul a (short_sl_add s) (short_entry s)))
      s) ;;
  assign (fun s =>
    with_long_tp
      (fadd a (long_entry s) (fmul a (long_tp_add s) (long_entry s))) s) ;;
  assign (fun s =>
    with_long_sl
      (fsub a (long_entry s) (fmul a (long_sl_deduct s) (long_entry s)))
      s) ;;
  assign (fun s => with_last_units (fmul a (int_units s) (-1)) s) ;;
  assign (with_last_direction (Some SHORT)) ;;
  s <- get_self ;;
  report_trade order "ENTERING SHORT at" (short_entry s) ;;
  print "short tp, short sl" ;;
  print "next long entry".

(** [Trader.first_trade]. *)
Definition first_trade_in : M W unit :=
  try_except
    (t <- get_self ;;
     if (side t =? "LONG")%string then enter_long_in
     else if (side t =? "SHORT")%string then enter_short_in
     else ret tt)
    (fun e => print "Error in first_trade" ;; raise e).

(** The hedge of a LONG position in [hedging_loop] (lines 191-210). *)
Definition hedge_short_in : M W unit :=
  t <- get_self ;;
  order <- create_order client
             {| o_symbol := symbol t; o_side := SELL; o_type := MARKET;
                o_quantity := Qabs (fmul a (last_units t) 2);
                o_positionSide := SHORT |} ;;
  ticker <- symbol_ticker client (symbol t) ;;
  assign (with_short_entry (float_of a ticker)) ;;
  assign (fun s =>
    with_short_tp
      (fsub a (short_entry s) (fmul a (short_tp_deduct s) (short_entry s)))
      s) ;;
  assign (fun s =>
    with_short_sl
      (fadd a (short_entry s) (fmul a (short_sl_add s) (short_entry s)))
      s) ;;
  assign (fun s =>
    with_last_units (fmul a (fmul a (last_units s) 2) (-1)) s) ;;
  assign (with_last_direction (Some SHORT)) ;;
  s <- get_self ;;
  report_trade order "ENTERING SHORT at" (short_entry s) ;;
  print "next long entry".

(** The take-profit of a LONG position in [hedging_loop] (lines 215-223). *)
Definition take_profit_long_in : M W unit :=
  print "Close is equal to long tp" ;;
  close_all_positions client ;;
  assign (with_last_units 0) ;;
  assign (with_last_direction None) ;;
  assign (with_side "LONG") ;;
  print "All positions closed, Side set to Long, Running first trade" ;;
  first_trade_in.

(** The hedge of a SHORT position in [hedging_loop] (lines 232-254). *)
Definition hedge_long_in : M W unit :=
  print "Close is equal to short entry + 400" ;;
  t <- get_self ;;
  order <- create_order client
             {| o_symbol := symbol t; o_side := BUY; o_type := MARKET;
                o_quantity := Qabs (fmul a (last_units t) 2);
                o_positionSide := LONG |} ;;
  ticker <- symbol_ticker client (symbol t) ;;
  assign (with_long_entry (float_of a ticker)) ;;
  assign (fun s =>
    with_long_tp
      (fadd a (long_entry s) (fmul a (long_tp_add s) (long_entry s))) s) ;;
  assign (fun s =>
    with_long_sl
      (fsub a (long_entry s) (fmul a (long_sl_deduct s) (long_entry s)))
      s) ;;
  assign (fun s =>
    with_last_units (fmul a (fmul a (last_units s) 2) (-1)) s) ;;
  assign (with_last_direction (Some LONG)) ;;
  s <- get_self ;;
  report_trade order "ENTERING LONG at" (long_entry s) ;;
  print "next short entry".

(** The take-profit of a SHORT position in [hedging_loop] (lines 259-268). *)
Definition take_profit_short_in : M W unit :=
  print "Close is equal to short tp" ;;
  close_all_positions client ;;
  print "Closing long position" ;;
  assign (with_last_units 0) ;;
  assign (with_last_direction None) ;;
  assign (with_side "SHORT") ;;
  print "All positions closed, Side set to Short, Running first trade" ;;
  first_trade_in.

(** [Trader.hedging_loop]. *)
Definition hedging_loop_in : M W unit :=
  try_except
    (t <- get_self ;;
     match last_direction t with
     | Some LONG =>
         if Qlt_bool 0 (last_units t) then
           if Qle_bool (close t) (short_entry t) then hedge_short_in
           else if Qle_bool (long_tp t) (close t) then take_profit_long_in
           else ret tt
         else ret tt
     | Some SHORT =>
         if Qlt_bool (last_units t) 0 then
           if Qle_bool (long_entry t) (close t) then hedge_long_in
           else if Qle_bool (close t) (short_tp t) then take_profit_short_in
           else ret tt
         else ret tt
     | None => ret tt
     end)
    (fun e => print "Error in hedging_loop").

(** [Trader.stream_price]. *)
Definition stream_price_in (msg : kline_msg) : M W unit :=
  try_except
    (event_time <- field "E" (E msg) ;;
     close0 <- field "c" (k_c msg) ;;
     assign (with_close (float_of a close0)) ;;
     hedging_loop_in)
    (fun e => print "Error in stream_price").

(** [Trader.start_trading]. *)
Definition start_trading_in (feed : list kline_msg) : M W unit :=
  t <- get_self ;;
  change_leverage client (symbol t) (leverage t) ;;
  try_except
    (position_mode <- get_position_mode client ;;
     if negb position_mode then change_position_mode client true
     else ret tt)
    (fun e => print "Error checking/setting position mode") ;;
  first_trade_in ;;
  for_each feed stream_price_in.

End Rounded.

(** The assignments of the blocks in an arithmetic, after the ticker
    answered [p]. *)
Definition entered_long_in (a : arithmetic) (p : Q) (t : Trader) : Trader :=
  let s := with_long_entry (float_of a p) t in
  let s :=
    with_short_entry
      (fsub a (long_entry s) (fmul a (short_entry_deduct s) (long_entry s)))
      s in
  let s :=
    with_long_tp
      (fadd a (long_entry s) (fmul a (long_tp_add s) (long_entry s))) s in
  let s :=
    with_long_sl
      (fsub a (long_entry s) (fmul a (long_sl_deduct s) (long_entry s)))
      s in
  let s :=
    with_short_tp
      (fsub a (short_entry s) (fmul a (short_tp_deduct s) (short_entry s)))
      s in
  let s :=
    with_short_sl
      (fadd a (short_entry s) (fmul a (short_sl_add s) (short_entry s)))
      s in
  let s := with_last_units (int_units s) s in
  with_last_direction (Some LONG) s.

Definition entered_short_in (a : arithmetic) (p : Q) (t : Trader) : Trader :=
  let s := with_short_entry (float_of a p) t in
  let s :=
    with_long_entry
      (fadd a (short_entry s) (fmul a (long_entry_add s) (short_entry s)))
      s in
  let s :=
    with_short_tp
      (fsub a (short_entry s) (fmul a (short_tp_deduct s) (short_entry s)))
      s in
  let s :=
    with_short_sl
      (fadd a (short_entry s) (fmul a (short_sl_add s) (short_entry s)))
      s in
  let s :=
    with_long_tp
      (fadd a (long_entry s) (fmul a (long_tp_add s) (long_entry s))) s in
  let s :=
    with_long_sl
      (fsub a (long_entry s) (fmul a (long_sl_deduct s) (long_entry s)))
      s in
  let s := with_last_units (fmul a (int_units s) (-1)) s in
  with_last_direction (Some SHORT) s.

Definition hedged_short_in (a : arithmetic) (p : Q) (t : Trader) : Trader :=
  let s := with_short_entry (float_of a p) t in
  let s :=
    with_short_tp
      (fsub a (short_entry s) (fmul a (short_tp_deduct s) (short_entry s)))
      s in
  let s :=
    with_short_sl
      (fadd a (short_entry s) (fmul a (short_sl_add s) (short_entry s)))
      s in
  let s := with_last_units (fmul a (fmul a (last_units s) 2) (-1)) s in
  with_last_direction (Some SHORT) s.

Definition hedged_long_in (a : arithmetic) (p : Q) (t : Trader) : Trader :=
  let s := with_long_entry (float_of a p) t in
  let s :=
    with_long_tp
      (fadd a (long_entry s) (fmul a (long_tp_add s) (long_entry s))) s in
  let s :=
    with_long_sl
      (fsub a (long_entry s) (fmul a (long_sl_deduct s) (long_entry s)))
      s in
  let s := with_last_units (fmul a (fmul a (last_units s) 2) (-1)) s in
  with_last_direction (Some LONG) s.

(** The order [hedging_loop] sends to hedge into side [d]. *)
Definition hedge_order_in (a : arithmetic) (d : direction) (t : Trader)
    : order_request :=
  {| o_symbol := symbol t; o_side := opening_side d; o_type := MARKET;
     o_quantity := Qabs (fmul a (last_units t) 2); o_positionSide := d |}.

(** Stop-loss, entry and take-profit are in this order on both sides, two
    of them possibly equal. *)
Definition levels_weakly_ordered (t : Trader) : Prop :=
  (long_sl t <= long_entry t /\ long_entry t <= long_tp t)
  /\ (short_tp t <= short_entry t /\ short_entry t <= short_sl t).

(** An offset that binary64 resolves at every normal price: at least
    [2^(-52)], the last mantissa bit of the numbers between 1 and 2, and at
    most one half. *)
Definition resolved_offset (x : Q) : Prop := pow2 (-52) <= x /\ x <= 1 # 2.

Definition resolved_configuration (t : Trader) : Prop :=
  resolved_offset (long_entry_add t)
  /\ resolved_offset (short_entry_deduct t)
  /\ resolved_offset (long_tp_add t)
  /\ resolved_offset (long_sl_deduct t)
  /\ resolved_offset (short_tp_deduct t)
  /\ resolved_offset (short_sl_add t).

(** The least quote of the statements on strict orders: the levels derived
    from a quote of at least [2^(-1021)] are normal binary64 numbers. *)
Definition price_floor : Q := pow2 (-1021).

(** The six levels are binary64 numbers between 0 and [2^1023]. *)
Definition level_in_range (x : Q) : Prop :=
  is_binary64 x /\ 0 <= x /\ x <= pow2 1023.

Definition levels_in_range (t : Trader) : Prop :=
  level_in_range (long_entry t) /\ level_in_range (short_entry t)
  /\ level_in_range (long_tp t) /\ level_in_range (long_sl t)
  /\ level_in_range (short_tp t) /\ level_in_range (short_sl t).

(** Every price the ticker of the venue answers is positive and at most the
    bound; every price it answers is between the floor and the bound. *)
Definition bounded_quotes {W : Type} (client : Gateway W) : Prop :=
  forall symbol0 w f w',
    futures_symbol_ticker client symbol0 w = (inr f, w') ->
    0 < f /\ f <= price_bound.

Definition normal_quotes {W : Type} (client : Gateway W) : Prop :=
  forall symbol0 w f w',
    futures_symbol_ticker client symbol0 w = (inr f, w') ->
    price_floor <= f /\ f <= price_bound.

(** The scripted venue with a ticker that answers quotes between the floor
    and the bound only. *)
Definition venue_normal_ticker (symbol0 : string) (w : venue)
    : (exn + Q) * venue :=
  if ticker_up w && Qle_bool price_floor (quote w)
     && Qle_bool (quote w) price_bound
  then (inr (quote w), w)
  else (inl (Exception "ticker unavailable"), w).

Definition quoting_normal : Gateway venue :=
  {| futures_create_order := venue_create_order;
     futures_symbol_ticker := venue_normal_ticker;
     futures_position_information := venue_position_information;
     futures_change_leverage := fun _ _ w => (inr tt, w);
     futures_get_position_mode := fun w => (inr (dual_side w), w);
     futures_change_position_mode := venue_change_position_mode |}.

(** The float [x/100] of the [__main__] block: the literal [x] is rounded,
    and so is the quotient. *)
Definition percent (x : Q) : Q := round64 (round64 x / 100).

(** The trader of the [__main__] block, its literals as the floats they
    are. *)
Definition main_trader_binary64 : Trader :=
  init "BTCUSDT" "1m" (round64 0.3) 50 "LONG"
    (percent 0.4) (percent 0.4) (percent 0.8) (percent 1.2) (percent 0.8)
    (percent 1.2).

(** The binary64 number nearest to [1e-17]. *)
Definition tiny_offset : Q := round64 (1 # 100000000000000000).

(** The trader of the [__main__] block with every offset [1e-17], and the
    machine after its first trade at 50000. *)
Definition tiny_trader : Trader :=
  init "BTCUSDT" "1m" (round64 0.3) 50 "LONG"
    tiny_offset tiny_offset tiny_offset tiny_offset tiny_offset tiny_offset.

Definition scenario_tiny : machine venue :=
  snd (first_trade_in scripted binary64
         (boot tiny_trader (healthy 50000 []))).

(** Scenario A in binary64: the trader of the [__main__] block after its
    first trade at 50000. *)
Definition scenario_A_binary64 : machine venue :=
  snd (first_trade_in scripted binary64
         (boot main_trader_binary64 (healthy 50000 []))).

(** ** Reports of a venue in dual-side mode *)

(** An entry of the report of a venue in dual-side (hedge) mode: the amount
    of a LONG entry is not negative, the amount of a SHORT entry is not
    positive (line 288), and an entry of another side (the ["BOTH"] entry of
    the one-way mode) is empty. *)
Definition sign_consistent (pos : position) : Prop :=
  if (positionSide pos =? "LONG")%string then 0 <= positionAmt pos
  else if (positionSide pos =? "SHORT")%string then positionAmt pos <= 0
  else positionAmt pos == 0.

Definition dual_side_report (ps : list position) : Prop :=
  Forall sign_consistent ps.

(** The orders opposing the nonzero entries of a report, as calls. *)
Definition opposing_calls (symbol0 : string) (ps : list position)
    : list call :=
  map (fun pos => CreateOrder (opposing_order symbol0 pos))
    (nonzero_positions ps).

(** A venue that accepts every order. *)
Definition accepting {W : Type} (client : Gateway W) : Prop :=
  forall request w,
    exists o w', futures_create_order client request w = (inr o, w').

(** The scripted venue with no limit on the orders it accepts. *)
Definition venue_accept_order (request : order_request) (w : venue)
    : (exn + order_response) * venue :=
  (inr {| orderId := next_order_id w; origQty := o_quantity request |},
   {| quote := quote w; report := report w;
      orders_accepted := orders_accepted w;
      ticker_up := ticker_up w; report_up := report_up w;
      dual_side := dual_side w;
      next_order_id := (next_order_id w + 1)%Z |}).

Definition obliging : Gateway venue :=
  {| futures_create_order := venue_accept_order;
     futures_symbol_ticker := venue_symbol_ticker;
     futures_position_information := venue_position_information;
     futures_change_leverage := fun _ _ w => (inr tt, w);
     futures_get_position_mode := fun w => (inr (dual_side w), w);
     futures_change_position_mode := venue_change_position_mode |}.

(** * Properties *)

(** ** Numbers *)

Lemma Qlt_bool_iff (x y : Q) : Qlt_bool x y = true <-> x < y.
Proof. unfold Qlt_bool, Qlt. apply Z.ltb_lt. Qed.

Lemma Qlt_bool_false_iff (x y : Q) : Qlt_bool x y = false <-> y <= x.
Proof. unfold Qlt_bool, Qle. apply Z.ltb_ge. Qed.

Lemma Qle_bool_false_iff (x y : Q) : Qle_bool x y = false <-> y < x.
Proof. unfold Qle_bool, Qlt. apply Z.leb_gt. Qed.

(** ** Running the blocks of the engine *)

(** Case analysis on the answer of the first venue call of the goal. *)
Ltac order_answer :=
  match goal with
  | |- context [futures_create_order ?c ?r ?w] =>
      destruct (futures_create_order c r w) as [[?e | ?o] ?w1]
  end.

Ltac ticker_answer :=
  match goal with
  | |- context [futures_symbol_ticker ?c ?s ?w] =>
      destruct (futures_symbol_ticker c s w) as [[?e | ?p] ?w2]
  end.

(** Unfolding of the monad, leaving the assignments of [Trader] folded. *)
Ltac unfold_monad :=
  cbv [bind get_self create_order symbol_ticker position_information
       client_call moved with_self assign ret raise print report_trade
       try_except field];
  cbn [self world calls].

Section Runs.

Context {W : Type} (client : Gateway W).

Lemma reraise_run {A : Type} (c : M W A) (text : string) (m : machine W) :
  try_except c (fun e => print text ;; raise e) m = c m.
Proof. unfold_monad. now destruct (c m) as [[a | e] m1]. Qed.

Lemma swallow_run (c : M W unit) (text : string) (m : machine W) :
  try_except c (fun e => print text) m = (Return tt, snd (c m)).
Proof. unfold_monad. now destruct (c m) as [[[] | e] m1]. Qed.

Lemma enter_long_run (m : machine W) :
  enter_long client m =
  let t := self m in
  let order := entry_order LONG t in
  match futures_create_order client order (world m) with
  | (inl e, w1) => (Raise e, moved m t w1 [CreateOrder order])
  | (inr _, w1) =>
      match futures_symbol_ticker client (symbol t) w1 with
      | (inl e, w2) =>
          (Raise e, moved m t w2 [CreateOrder order; SymbolTicker (symbol t)])
      | (inr p, w2) =>
          (Return tt,
           moved m (entered_long p t) w2
             [CreateOrder order; SymbolTicker (symbol t)])
      end
  end.
Proof.
  cbv [enter_long entry_order entered_long opening_side]; unfold_monad.
  order_answer; cbn [self world calls]; [reflexivity|].
  ticker_answer; cbn [self world calls]; rewrite <- app_assoc; reflexivity.
Qed.

Lemma enter_short_run (m : machine W) :
  enter_short client m =
  let t := self m in
  let order := entry_order SHORT t in
  match futures_create_order client order (world m) with
  | (inl e, w1) => (Raise e, moved m t w1 [CreateOrder order])
  | (inr _, w1) =>
      match futures_symbol_ticker client (symbol t) w1 with
      | (inl e, w2) =>
          (Raise e, moved m t w2 [CreateOrder order; SymbolTicker (symbol t)])
      | (inr p, w2) =>
          (Return tt,
           moved m (entered_short p t) w2
             [CreateOrder order; SymbolTicker (symbol t)])
      end
  end.
Proof.
  cbv [enter_short entry_order entered_short opening_side]; unfold_monad.
  order_answer; cbn [self world calls]; [reflexivity|].
  ticker_answer; cbn [self world calls]; rewrite <- app_assoc; reflexivity.
Qed.

Lemma hedge_short_run (m : machine W) :
  hedge_short client m =
  let t := self m in
  let order := hedge_order SHORT t in
  match futures_create_order client order (world m) with
  | (inl e, w1) => (Raise e, moved m t w1 [CreateOrder order])
  | (inr _, w1) =>
      match futures_symbol_ticker client (symbol t) w1 with
      | (inl e, w2) =>
          (Raise e, moved m t w2 [CreateOrder order; SymbolTicker (symbol t)])
      | (inr p, w2) =>
          (Return tt,
           moved m (hedged_short p t) w2
             [CreateOrder order; SymbolTicker (symbol t)])
      end
  end.
Proof.
  cbv [hedge_short hedge_order hedged_short opening_side]; unfold_monad.
  order_answer; cbn [self world calls]; [reflexivity|].
  ticker_answer; cbn [self world calls]; rewrite <- app_assoc; reflexivity.
Qed.

Lemma hedge_long_run (m : machine W) :
  hedge_long client m =
  let t := self m in
  let order := hedge_order LONG t in
  match futures_create_order client order (world m) with
  | (inl e, w1) => (Raise e, moved m t w1 [CreateOrder order])
  | (inr _, w1) =>
      match futures_symbol_ticker client (symbol t) w1 with
      | (inl e, w2) =>
          (Raise e, moved m t w2 [CreateOrder order; SymbolTicker (symbol t)])
      | (inr p, w2) =>
          (Return tt,
           moved m (hedged_long p t) w2
             [CreateOrder order; SymbolTicker (symbol t)])
      end
  end.
Proof.
  cbv [hedge_long hedge_order hedged_long opening_side]; unfold_monad.
  order_answer; cbn [self world calls]; [reflexivity|].
  ticker_answer; cbn [self world calls]; rewrite <- app_assoc; reflexivity.
Qed.

Lemma first_trade_run (m : machine W) :
  first_trade client m =
  if (side (self m) =? "LONG")%string then enter_long client m
  else if (side (self m) =? "SHORT")%string then enter_short client m
  else (Return tt, m).
Proof.
  unfold first_trade. rewrite reraise_run.
  unfold bind at 1, get_self at 1.
  destruct (side (self m) =? "LONG")%string; [reflexivity|].
  now destruct (side (self m) =? "SHORT")%string.
Qed.

Lemma take_profit_long_run (m : machine W) :
  take_profit_long client m =
  match close_all_positions client m with
  | (Return _, m1) =>
      first_trade client (with_self (flattened "LONG" (self m1)) m1)
  | (Raise e, m1) => (Raise e, m1)
  end.
Proof.
  unfold take_profit_long, flattened.
  cbv [bind print ret assign with_self]; cbn [self world calls].
  now destruct (close_all_positions client m) as [[a | e] m1].
Qed.

Lemma take_profit_short_run (m : machine W) :
  take_profit_short client m =
  match close_all_positions client m with
  | (Return _, m1) =>
      first_trade client (with_self (flattened "SHORT" (self m1)) m1)
  | (Raise e, m1) => (Raise e, m1)
  end.
Proof.
  unfold take_profit_short, flattened.
  cbv [bind print ret assign with_self]; cbn [self world calls].
  now destruct (close_all_positions client m) as [[a | e] m1].
Qed.

(** The block [hedging_loop] selects, by the guards in the order the code
    evaluates them. *)
Lemma hedging_loop_run (m : machine W) :
  hedging_loop client m =
  let t := self m in
  (Return tt,
   snd (match last_direction t with
        | Some LONG =>
            if Qlt_bool 0 (last_units t) then
              if Qle_bool (close t) (short_entry t)
              then hedge_short client m
              else if Qle_bool (long_tp t) (close t)
                   then take_profit_long client m
                   else (Return tt, m)
            else (Return tt, m)
        | Some SHORT =>
            if Qlt_bool (last_units t) 0 then
              if Qle_bool (long_entry t) (close t)
              then hedge_long client m
              else if Qle_bool (close t) (short_tp t)
                   then take_profit_short client m
                   else (Return tt, m)
            else (Return tt, m)
        | None => (Return tt, m)
        end)).
Proof.
  unfold hedging_loop. rewrite swallow_run.
  unfold bind at 1, get_self at 1. cbv zeta.
  destruct (last_direction (self m)) as [[|]|];
    repeat match goal with
           | |- context [if ?b then _ else _] => destruct b
           end;
    reflexivity.
Qed.

Lemma stream_price_run (p : Q) (time : Z) (m : machine W) :
  stream_price client {| E := Some time; k_c := Some p |} m =
  hedging_loop client (with_self (with_close p (self m)) m).
Proof.
  unfold stream_price. rewrite swallow_run.
  cbv [bind field ret assign E k_c with_self]; cbn [self world calls].
  rewrite hedging_loop_run. reflexivity.
Qed.

Lemma stream_price_malformed (msg : kline_msg) (m : machine W) :
  E msg = None \/ k_c msg = None ->
  stream_price client msg m = (Return tt, m).
Proof.
  intros H. unfold stream_price. rewrite swallow_run.
  destruct msg as [[time|] [p|]]; cbn in H; destruct H as [H | H];
    try discriminate; reflexivity.
Qed.

Lemma close_position_run (pos : position) (m : machine W) :
  close_position client pos m =
  if closable pos then
    let order := closing_order (symbol (self m)) pos in
    match futures_create_order client order (world m) with
    | (inl e, w1) => (Raise e, moved m (self m) w1 [CreateOrder order])
    | (inr _, w1) => (Return tt, moved m (self m) w1 [CreateOrder order])
    end
  else (Return tt, m).
Proof.
  unfold close_position, closable, closing_order.
  destruct (Qeq_bool (positionAmt pos) 0); [reflexivity|].
  cbn [negb andb].
  destruct ((positionSide pos =? "LONG")%string
            && Qlt_bool 0 (positionAmt pos)).
  - cbn [orb]. unfold_monad. now order_answer.
  - cbn [orb].
    destruct ((positionSide pos =? "SHORT")%string
              && Qlt_bool (positionAmt pos) 0); [|reflexivity].
    unfold_monad. now order_answer.
Qed.

Lemma close_position_self (pos : position) (m : machine W) :
  self (snd (close_position client pos m)) = self m.
Proof.
  rewrite close_position_run.
  destruct (closable pos); [|reflexivity].
  cbv zeta. now order_answer.
Qed.

Lemma for_each_close_self (ps : list position) (m : machine W) :
  self (snd (for_each ps (close_position client) m)) = self m.
Proof.
  revert m. induction ps as [|pos ps IH]; intros m; [reflexivity|].
  cbn [for_each]. unfold bind.
  pose proof (close_position_self pos m) as Hpos.
  destruct (close_position client pos m) as [[a | e] m1]; cbn [snd] in *.
  - now rewrite IH.
  - exact Hpos.
Qed.

Lemma for_each_close_returns (ps : list position) (m m' : machine W) :
  for_each ps (close_position client) m = (Return tt, m') ->
  calls m' = calls m ++ closing_calls (symbol (self m)) ps.
Proof.
  revert m. induction ps as [|pos ps IH]; intros m.
  - cbn. intros [= <-]. now rewrite app_nil_r.
  - cbn [for_each]. unfold bind, closing_calls. cbn [filter].
    pose proof (close_position_self pos m) as Hself.
    rewrite close_position_run in *.
    destruct (closable pos); cbv zeta in *.
    + order_answer; [discriminate|]. cbn [snd self] in Hself.
      intros H. apply IH in H. rewrite H. unfold moved; cbn [self calls map].
      now rewrite <- app_assoc.
    + intros H. now apply IH in H.
Qed.

Lemma close_all_positions_run (m : machine W) :
  close_all_positions client m =
  let t := self m in
  match futures_position_information client (symbol t) (world m) with
  | (inl e, w0) => (Raise e, moved m t w0 [PositionInformation (symbol t)])
  | (inr ps, w0) =>
      for_each ps (close_position client)
        (moved m t w0 [PositionInformation (symbol t)])
  end.
Proof.
  unfold close_all_positions. rewrite reraise_run.
  cbv [bind get_self position_information client_call moved];
    cbn [self world calls].
  destruct (futures_position_information client _ _) as [[e | ps] w0];
    [reflexivity|].
  now destruct (for_each ps _ _) as [[[] | e] m1].
Qed.

Lemma close_all_positions_self (m : machine W) :
  self (snd (close_all_positions client m)) = self m.
Proof.
  rewrite close_all_positions_run. cbv zeta.
  destruct (futures_position_information client _ _) as [[e | ps] w0];
    [reflexivity|].
  now rewrite for_each_close_self.
Qed.

End Runs.

(** ** What a run does to the trader *)

Section Effects.

Context {W : Type} (client : Gateway W).

Lemma client_call_self {A : Type} (c : call) (f : W -> (exn + A) * W)
    (m : machine W) :
  self (snd (client_call c f m)) = self m.
Proof.
  unfold client_call. now destruct (f (world m)) as [[e | a] w].
Qed.

(** [first_trade] leaves the trader as it was or enters on [self.side]. *)
Lemma first_trade_self (m : machine W) :
  let t := self m in
  let t' := self (snd (first_trade client m)) in
  t' = t
  \/ (side t = "LONG"%string /\ exists p, t' = entered_long p t)
  \/ (side t = "SHORT"%string /\ exists p, t' = entered_short p t).
Proof.
  cbv zeta. rewrite first_trade_run.
  destruct (side (self m) =? "LONG")%string eqn:Hlong.
  - apply String.eqb_eq in Hlong. rewrite enter_long_run. cbv zeta.
    order_answer; [now left|].
    ticker_answer; [now left|].
    right; left. split; [assumption|]. now exists p.
  - destruct (side (self m) =? "SHORT")%string eqn:Hshort; [|now left].
    apply String.eqb_eq in Hshort. rewrite enter_short_run. cbv zeta.
    order_answer; [now left|].
    ticker_answer; [now left|].
    right; right. split; [assumption|]. now exists p.
Qed.

Lemma hedging_loop_transition (m : machine W) :
  transition (self m) (self (snd (hedging_loop client m))).
Proof.
  rewrite hedging_loop_run. cbv zeta. cbn [snd].
  destruct (last_direction (self m)) as [[|]|] eqn:Hdir; [| |constructor].
  - destruct (Qlt_bool 0 (last_units (self m))) eqn:Hpos; [|constructor].
    apply Qlt_bool_iff in Hpos.
    destruct (Qle_bool (close (self m)) (short_entry (self m))) eqn:Hhedge.
    + apply Qle_bool_iff in Hhedge. rewrite hedge_short_run. cbv zeta.
      order_answer; [constructor|].
      ticker_answer; [constructor|].
      now apply HedgeShort.
    + apply Qle_bool_false_iff in Hhedge.
      destruct (Qle_bool (long_tp (self m)) (close (self m))) eqn:Htp;
        [|constructor].
      apply Qle_bool_iff in Htp. rewrite take_profit_long_run.
      pose proof (close_all_positions_self client m) as Hclose.
      destruct (close_all_positions client m) as [[a | e] m1];
        cbn [snd] in *; rewrite Hclose; [|constructor].
      pose proof
        (first_trade_self (with_self (flattened "LONG" (self m)) m1)) as H.
      cbv zeta in H. cbn [with_self self] in H.
      destruct H as [-> | [[_ [p ->]] | [Hside _]]].
      * now apply StrandedLong.
      * now apply TakeProfitLong.
      * discriminate Hside.
  - destruct (Qlt_bool (last_units (self m)) 0) eqn:Hneg; [|constructor].
    apply Qlt_bool_iff in Hneg.
    destruct (Qle_bool (long_entry (self m)) (close (self m))) eqn:Hhedge.
    + apply Qle_bool_iff in Hhedge. rewrite hedge_long_run. cbv zeta.
      order_answer; [constructor|].
      ticker_answer; [constructor|].
      now apply HedgeLong.
    + apply Qle_bool_false_iff in Hhedge.
      destruct (Qle_bool (close (self m)) (short_tp (self m))) eqn:Htp;
        [|constructor].
      apply Qle_bool_iff in Htp. rewrite take_profit_short_run.
      pose proof (close_all_positions_self client m) as Hclose.
      destruct (close_all_positions client m) as [[a | e] m1];
        cbn [snd] in *; rewrite Hclose; [|constructor].
      pose proof
        (first_trade_self (with_self (flattened "SHORT" (self m)) m1)) as H.
      cbv zeta in H. cbn [with_self self] in H.
      destruct H as [-> | [[Hside _] | [_ [p ->]]]].
      * now apply StrandedShort.
      * discriminate Hside.
      * now apply TakeProfitShort.
Qed.

End Effects.

(** ** The sign of the exposure *)

Lemma transition_sign_matches (t t' : Trader) :
  transition t t' -> 0 < int_units t ->
  sign_matches t -> sign_matches t' /\ int_units t' = int_units t.
Proof.
  intros Hstep Hunits Hsign.
  destruct Hstep as [ | p Hdir Hpos _ | p _ _ _ _ | _ _ _ _
                    | p Hdir Hneg _ | p _ _ _ _ | _ _ _ _ ];
    (split; [|reflexivity]); unfold sign_matches.
  - exact Hsign.
  - change (last_direction (hedged_short p t)) with (Some SHORT).
    change (last_units (hedged_short p t)) with (last_units t * 2 * -1).
    cbv beta iota. lra.
  - change (last_direction (entered_long p (flattened "LONG" t)))
      with (Some LONG).
    change (last_units (entered_long p (flattened "LONG" t)))
      with (int_units t).
    exact Hunits.
  - change (last_direction (flattened "LONG" t)) with (@None direction).
    change (last_units (flattened "LONG" t)) with 0. cbv beta iota. reflexivity.
  - change (last_direction (hedged_long p t)) with (Some LONG).
    change (last_units (hedged_long p t)) with (last_units t * 2 * -1).
    cbv beta iota. lra.
  - change (last_direction (entered_short p (flattened "SHORT" t)))
      with (Some SHORT).
    change (last_units (entered_short p (flattened "SHORT" t)))
      with (int_units t * -1).
    cbv beta iota. lra.
  - change (last_direction (flattened "SHORT" t)) with (@None direction).
    change (last_units (flattened "SHORT" t)) with 0. cbv beta iota.
    reflexivity.
Qed.

Section Sign.

Context {W : Type} (client : Gateway W).

Lemma stream_price_invariant (msg : kline_msg) (m : machine W) :
  run_invariant (self m) ->
  run_invariant (self (snd (stream_price client msg m))).
Proof.
  intros [Hsign Hunits].
  destruct msg as [[time|] [p|]];
    try (rewrite stream_price_malformed; [now split | cbn; tauto]).
  rewrite stream_price_run.
  pose proof (hedging_loop_transition client
                (with_self (with_close p (self m)) m)) as Hstep.
  cbn [with_self self] in Hstep.
  apply transition_sign_matches in Hstep; [|exact Hunits|exact Hsign].
  destruct Hstep as [Hsign' Hunits']. split; [exact Hsign'|].
  rewrite Hunits'. exact Hunits.
Qed.

Lemma feed_invariant (feed : list kline_msg) (m : machine W) :
  run_invariant (self m) ->
  run_invariant (self (snd (for_each feed (stream_price client) m))).
Proof.
  revert m. induction feed as [|msg feed IH]; intros m Hinv; [exact Hinv|].
  cbn [for_each]. unfold bind.
  pose proof (stream_price_invariant msg m Hinv) as Hmsg.
  destruct (stream_price client msg m) as [[a | e] m1]; cbn [snd] in *.
  - now apply IH.
  - exact Hmsg.
Qed.

Lemma first_trade_invariant (m : machine W) :
  last_direction (self m) = None -> run_invariant (self m) ->
  run_invariant (self (snd (first_trade client m))).
Proof.
  intros Hdir [Hsign Hunits].
  pose proof (first_trade_self client m) as H. cbv zeta in H.
  destruct H as [-> | [[_ [p ->]] | [_ [p ->]]]].
  - now split.
  - split; [|exact Hunits]. unfold sign_matches.
    change (last_direction (entered_long p (self m))) with (Some LONG).
    change (last_units (entered_long p (self m))) with (int_units (self m)).
    exact Hunits.
  - split; [|exact Hunits]. unfold sign_matches.
    change (last_direction (entered_short p (self m))) with (Some SHORT).
    change (last_units (entered_short p (self m)))
      with (int_units (self m) * -1).
    cbv beta iota. lra.
Qed.

Lemma start_trading_invariant (feed : list kline_msg) (m : machine W) :
  last_direction (self m) = None -> run_invariant (self m) ->
  run_invariant (self (snd (start_trading client feed m))).
Proof.
  intros Hdir Hinv. unfold start_trading.
  unfold bind at 1, get_self at 1. unfold bind at 1.
  pose proof (client_call_self
                (ChangeLeverage (symbol (self m)) (leverage (self m)))
                (futures_change_leverage client (symbol (self m))
                   (leverage (self m))) m) as Hlev.
  unfold change_leverage.
  destruct (client_call _ _ m) as [[[] | e] m1]; cbn [snd] in Hlev;
    [|cbn [snd]; now rewrite Hlev].
  unfold bind at 1. rewrite swallow_run.
  assert (Hmode : self (snd ((position_mode <- get_position_mode client ;;
                              if negb position_mode
                              then change_position_mode client true
                              else ret tt) m1)) = self m1).
  { unfold bind, get_position_mode, change_position_mode.
    pose proof (client_call_self GetPositionMode
                  (futures_get_position_mode client) m1) as Hget.
    destruct (client_call GetPositionMode _ m1) as [[mode | e] m2];
      cbn [snd] in *; [|exact Hget].
    destruct mode; cbn [negb]; [exact Hget|].
    rewrite client_call_self. exact Hget. }
  destruct ((position_mode <- get_position_mode client ;; _) m1)
    as [r m2]; cbn [snd] in *.
  unfold bind.
  assert (Hm2 : self m2 = self m) by congruence.
  pose proof (first_trade_invariant m2) as Hfirst.
  rewrite Hm2 in Hfirst. specialize (Hfirst Hdir Hinv).
  destruct (first_trade client m2) as [[a | e] m3]; cbn [snd] in *.
  - now apply feed_invariant.
  - exact Hfirst.
Qed.

(** C1.  Start from the trader [__init__] builds, with a positive entry
    size, on any venue.  Feed it any sequence of price messages, either
    directly or through [start_trading] (which makes the first trade before
    the feed starts).  After every message the callback has processed, that
    is, for every prefix of the feed, the sign of [last_units] matches
    [last_direction]: positive when LONG, negative when SHORT, zero when
    there is none. *)
Theorem exposure_sign_matches_direction
    (w : W) (symbol0 bar_length0 : string) (units : Q) (leverage0 : Z)
    (side0 : string)
    (long_entry_add0 short_entry_deduct0 long_tp_add0 long_sl_deduct0
       short_tp_deduct0 short_sl_add0 : Q)
    (feed : list kline_msg) (k : nat) :
  0 < units ->
  let m0 :=
    boot (init symbol0 bar_length0 units leverage0 side0
            long_entry_add0 short_entry_deduct0 long_tp_add0 long_sl_deduct0
            short_tp_deduct0 short_sl_add0) w in
  sign_matches
    (self (snd (for_each (firstn k feed) (stream_price client) m0)))
  /\ sign_matches (self (snd (start_trading client (firstn k feed) m0))).
Proof.
  intros Hunits m0.
  assert (Hinv : run_invariant (self m0)).
  { split; [reflexivity | exact Hunits]. }
  split.
  - now apply feed_invariant.
  - now apply start_trading_invariant.
Qed.

End Sign.

(** The bot of the [__main__] block on a healthy venue quoting 50000: after
    the first trade the price falls to 49800 (a hedge), then to 49000. *)
Lemma exposure_sign_matches_direction_witness :
  0 < 0.3
  /\ let m0 := boot main_trader (healthy 50000 []) in
     let feed := [tick 49800; tick 49000; tick 50400] in
     sign_matches
       (self (snd (for_each (firstn 2 feed) (stream_price scripted) m0)))
     /\ sign_matches
          (self (snd (start_trading scripted (firstn 2 feed) m0))).
Proof.
  split; [reflexivity|].
  apply (exposure_sign_matches_direction scripted (healthy 50000 [])
           "BTCUSDT" "1m" 0.3 50 "LONG"
           (0.4 / 100) (0.4 / 100) (0.8 / 100) (1.2 / 100) (0.8 / 100)
           (1.2 / 100) [tick 49800; tick 49000; tick 50400] 2).
  reflexivity.
Defined.

(** ** The block a price update runs *)

Section Ticks.

Context {W : Type} (client : Gateway W).

Variables (m : machine W) (p : Q) (time : Z).

Let t : Trader := self m.
Let msg : kline_msg := {| E := Some time; k_c := Some p |}.
Let priced : machine W := with_self (with_close p t) m.

Lemma tick_hedge_short :
  last_direction t = Some LONG -> 0 < last_units t -> p <= short_entry t ->
  stream_price client msg m = (Return tt, snd (hedge_short client priced)).
Proof.
  intros Hdir Hpos Hhedge. unfold msg. rewrite stream_price_run.
  rewrite hedging_loop_run. cbv zeta. cbn [with_self self].
  change (last_direction (with_close p (self m))) with (last_direction t).
  change (last_units (with_close p (self m))) with (last_units t).
  change (close (with_close p (self m))) with p.
  change (short_entry (with_close p (self m))) with (short_entry t).
  rewrite Hdir. apply Qlt_bool_iff in Hpos. rewrite Hpos.
  apply Qle_bool_iff in Hhedge. rewrite Hhedge. reflexivity.
Qed.

Lemma tick_take_profit_long :
  last_direction t = Some LONG -> 0 < last_units t ->
  short_entry t < p -> long_tp t <= p ->
  stream_price client msg m =
  (Return tt, snd (take_profit_long client priced)).
Proof.
  intros Hdir Hpos Hhedge Htp. unfold msg. rewrite stream_price_run.
  rewrite hedging_loop_run. cbv zeta. cbn [with_self self].
  change (last_direction (with_close p (self m))) with (last_direction t).
  change (last_units (with_close p (self m))) with (last_units t).
  change (close (with_close p (self m))) with p.
  change (short_entry (with_close p (self m))) with (short_entry t).
  change (long_tp (with_close p (self m))) with (long_tp t).
  rewrite Hdir. apply Qlt_bool_iff in Hpos. rewrite Hpos.
  apply Qle_bool_false_iff in Hhedge. rewrite Hhedge.
  apply Qle_bool_iff in Htp. rewrite Htp. reflexivity.
Qed.

Lemma tick_hedge_long :
  last_direction t = Some SHORT -> last_units t < 0 -> long_entry t <= p ->
  stream_price client msg m = (Return tt, snd (hedge_long client priced)).
Proof.
  intros Hdir Hneg Hhedge. unfold msg. rewrite stream_price_run.
  rewrite hedging_loop_run. cbv zeta. cbn [with_self self].
  change (last_direction (with_close p (self m))) with (last_direction t).
  change (last_units (with_close p (self m))) with (last_units t).
  change (close (with_close p (self m))) with p.
  change (long_entry (with_close p (self m))) with (long_entry t).
  rewrite Hdir. apply Qlt_bool_iff in Hneg. rewrite Hneg.
  apply Qle_bool_iff in Hhedge. rewrite Hhedge. reflexivity.
Qed.

Lemma tick_take_profit_short :
  last_direction t = Some SHORT -> last_units t < 0 ->
  p < long_entry t -> p <= short_tp t ->
  stream_price client msg m =
  (Return tt, snd (take_profit_short client priced)).
Proof.
  intros Hdir Hneg Hhedge Htp. unfold msg. rewrite stream_price_run.
  rewrite hedging_loop_run. cbv zeta. cbn [with_self self].
  change (last_direction (with_close p (self m))) with (last_direction t).
  change (last_units (with_close p (self m))) with (last_units t).
  change (close (with_close p (self m))) with p.
  change (long_entry (with_close p (self m))) with (long_entry t).
  change (short_tp (with_close p (self m))) with (short_tp t).
  rewrite Hdir. apply Qlt_bool_iff in Hneg. rewrite Hneg.
  apply Qle_bool_false_iff in Hhedge. rewrite Hhedge.
  apply Qle_bool_iff in Htp. rewrite Htp. reflexivity.
Qed.

(** A price update runs one block, or none. *)
Lemma tick_one_block :
  stream_price client msg m = (Return tt, priced)
  \/ stream_price client msg m = (Return tt, snd (hedge_short client priced))
  \/ stream_price client msg m =
     (Return tt, snd (take_profit_long client priced))
  \/ stream_price client msg m = (Return tt, snd (hedge_long client priced))
  \/ stream_price client msg m =
     (Return tt, snd (take_profit_short client priced)).
Proof.
  unfold msg. rewrite stream_price_run, hedging_loop_run. cbv zeta.
  fold t. fold priced.
  destruct (last_direction (self priced)) as [[|]|]; [| |now left].
  - destruct (Qlt_bool 0 (last_units (self priced))); [|now left].
    destruct (Qle_bool (close (self priced)) (short_entry (self priced)));
      [now right; left|].
    destruct (Qle_bool (long_tp (self priced)) (close (self priced)));
      [now right; right; left | now left].
  - destruct (Qlt_bool (last_units (self priced)) 0); [|now left].
    destruct (Qle_bool (long_entry (self priced)) (close (self priced)));
      [now right; right; right; left|].
    destruct (Qle_bool (close (self priced)) (short_tp (self priced)));
      [now right; right; right; right | now left].
Qed.

(** The guards on the sign of [last_units] (lines 184 and 227). *)
Lemma tick_sign_guard :
  (last_direction t = Some LONG /\ last_units t <= 0)
  \/ (last_direction t = Some SHORT /\ 0 <= last_units t) ->
  stream_price client msg m = (Return tt, priced).
Proof.
  intros H. unfold msg. rewrite stream_price_run, hedging_loop_run.
  cbv zeta. cbn [with_self self].
  change (last_direction (with_close p (self m))) with (last_direction t).
  change (last_units (with_close p (self m))) with (last_units t).
  destruct H as [[-> Hsign] | [-> Hsign]];
    apply Qlt_bool_false_iff in Hsign; rewrite Hsign; reflexivity.
Qed.

End Ticks.

(** ** Properties of one price update *)

Section Updates.

Context {W : Type} (client : Gateway W).

Lemma hedge_short_calls (m : machine W) :
  let order := CreateOrder (hedge_order SHORT (self m)) in
  calls (snd (hedge_short client m)) = calls m ++ [order]
  \/ calls (snd (hedge_short client m))
     = calls m ++ [order; SymbolTicker (symbol (self m))].
Proof.
  rewrite hedge_short_run. cbv zeta.
  order_answer; [now left|]. ticker_answer; now right.
Qed.

Lemma hedge_long_calls (m : machine W) :
  let order := CreateOrder (hedge_order LONG (self m)) in
  calls (snd (hedge_long client m)) = calls m ++ [order]
  \/ calls (snd (hedge_long client m))
     = calls m ++ [order; SymbolTicker (symbol (self m))].
Proof.
  rewrite hedge_long_run. cbv zeta.
  order_answer; [now left|]. ticker_answer; now right.
Qed.

(** C10.  When the tracked direction and the sign of the tracked exposure
    disagree (LONG with [last_units <= 0], or SHORT with [last_units >= 0]),
    a price update returns normally, makes no call on the venue (the venue
    state and the call log are those before the update) and assigns no
    attribute of the trader but [close]. *)
Theorem sign_guard_blocks_transition
    (m : machine W) (p : Q) (time : Z) :
  (last_direction (self m) = Some LONG /\ last_units (self m) <= 0)
  \/ (last_direction (self m) = Some SHORT /\ 0 <= last_units (self m)) ->
  let result := stream_price client {| E := Some time; k_c := Some p |} m in
  fst result = Return tt
  /\ calls (snd result) = calls m
  /\ world (snd result) = world m
  /\ self (snd result) = with_close p (self m).
Proof.
  intros H result. unfold result. rewrite tick_sign_guard by exact H.
  repeat split.
Qed.

(** C5.  For a price update at price [p] on a LONG position:
    - [p] equal to [short_entry] runs the hedge, and [p] equal to [long_tp]
      (above [short_entry]) runs the take-profit: the comparisons are
      inclusive;
    - when both [p <= short_entry] and [long_tp <= p] hold, the update runs
      the hedge and nothing else: the only calls it makes are the hedge order
      and, if the order is accepted, its ticker query.
    The same holds on a SHORT position with [long_entry] and [short_tp].
    In every state, the update runs one of the four blocks, or none. *)
Theorem thresholds_inclusive_hedge_first
    (m : machine W) (p : Q) (time : Z) :
  let t := self m in
  let priced := with_self (with_close p t) m in
  let m' := snd (stream_price client {| E := Some time; k_c := Some p |} m) in
  (last_direction t = Some LONG -> 0 < last_units t ->
     (p == short_entry t -> m' = snd (hedge_short client priced))
     /\ (p == long_tp t -> short_entry t < p ->
         m' = snd (take_profit_long client priced))
     /\ (p <= short_entry t -> long_tp t <= p ->
         m' = snd (hedge_short client priced)
         /\ (calls m' = calls m ++ [CreateOrder (hedge_order SHORT t)]
             \/ calls m' = calls m ++ [CreateOrder (hedge_order SHORT t);
                                       SymbolTicker (symbol t)])))
  /\ (last_direction t = Some SHORT -> last_units t < 0 ->
     (p == long_entry t -> m' = snd (hedge_long client priced))
     /\ (p == short_tp t -> p < long_entry t ->
         m' = snd (take_profit_short client priced))
     /\ (long_entry t <= p -> p <= short_tp t ->
         m' = snd (hedge_long client priced)
         /\ (calls m' = calls m ++ [CreateOrder (hedge_order LONG t)]
             \/ calls m' = calls m ++ [CreateOrder (hedge_order LONG t);
                                       SymbolTicker (symbol t)])))
  /\ (m' = priced
      \/ m' = snd (hedge_short client priced)
      \/ m' = snd (take_profit_long client priced)
      \/ m' = snd (hedge_long client priced)
      \/ m' = snd (take_profit_short client priced)).
Proof.
  intros t priced m'. unfold m'. repeat split.
  - intros Heq. rewrite tick_hedge_short; trivial.
    rewrite Heq. apply Qle_refl.
  - intros Heq Hhedge. rewrite tick_take_profit_long; trivial.
    rewrite Heq. apply Qle_refl.
  - rewrite tick_hedge_short; trivial.
  - rewrite tick_hedge_short by trivial. cbn [snd].
    apply (hedge_short_calls priced).
  - intros Heq. rewrite tick_hedge_long; trivial.
    rewrite Heq. apply Qle_refl.
  - intros Heq Hhedge. rewrite tick_take_profit_short; trivial.
    rewrite Heq. apply Qle_refl.
  - rewrite tick_hedge_long; trivial.
  - rewrite tick_hedge_long by trivial. cbn [snd].
    apply (hedge_long_calls priced).
  - destruct (tick_one_block client m p time) as [H | [H | [H | [H | H]]]];
      rewrite H; cbn [snd]; tauto.
Qed.

End Updates.

(** Deciding a closed comparison of rationals by evaluation. *)
Ltac evaluate :=
  vm_compute; first [reflexivity | discriminate | intro; discriminate].

(** Splitting the conjunctions of the goal, and nothing else. *)
Ltac split_all := repeat match goal with |- _ /\ _ => split end.

(** A trader marked LONG whose exposure is zero: the update only records
    the price. *)
Lemma sign_guard_blocks_transition_witness :
  let m := boot (with_last_direction (Some LONG) main_trader)
             (healthy 50000 []) in
  (last_direction (self m) = Some LONG /\ last_units (self m) <= 0)
  /\ let result := stream_price scripted (tick 49800) m in
     fst result = Return tt
     /\ calls (snd result) = calls m
     /\ world (snd result) = world m
     /\ self (snd result) = with_close 49800 (self m).
Proof.
  unfold tick. cbv zeta.
  assert (H : last_direction
                (self (boot (with_last_direction (Some LONG) main_trader)
                         (healthy 50000 []))) = Some LONG
              /\ last_units
                   (self (boot (with_last_direction (Some LONG) main_trader)
                            (healthy 50000 []))) <= 0).
  { split; evaluate. }
  split; [exact H|].
  exact (sign_guard_blocks_transition scripted _ 49800 0 (or_introl H)).
Defined.

(** After scenario A, with [long_tp] lowered to 49000, the price 49500
    satisfies both the hedge and the take-profit condition of the LONG
    position; the update runs the hedge. *)
Lemma thresholds_inclusive_hedge_first_witness :
  let m := with_self (with_long_tp 49000 (self scenario_A)) scenario_A in
  let t := self m in
  last_direction t = Some LONG /\ 0 < last_units t
  /\ 49500 <= short_entry t /\ long_tp t <= 49500
  /\ snd (stream_price scripted (tick 49500) m)
     = snd (hedge_short scripted (with_self (with_close 49500 t) m)).
Proof.
  unfold tick. cbv zeta.
  pose proof (thresholds_inclusive_hedge_first scripted
                (with_self (with_long_tp 49000 (self scenario_A)) scenario_A)
                49500 0) as H.
  cbv zeta in H. destruct H as [Hlong _].
  assert (Hdir : last_direction
                   (self (with_self (with_long_tp 49000 (self scenario_A))
                            scenario_A)) = Some LONG) by evaluate.
  assert (Hpos : 0 < last_units
                       (self (with_self (with_long_tp 49000 (self scenario_A))
                                scenario_A))) by evaluate.
  assert (Hhedge : 49500 <= short_entry
                       (self (with_self (with_long_tp 49000 (self scenario_A))
                                scenario_A))) by evaluate.
  assert (Htp : long_tp
                  (self (with_self (with_long_tp 49000 (self scenario_A))
                           scenario_A)) <= 49500) by evaluate.
  split; [exact Hdir|]. split; [exact Hpos|]. split; [exact Hhedge|].
  split; [exact Htp|].
  exact (proj1 (proj2 (proj2 (Hlong Hdir Hpos)) Hhedge Htp)).
Defined.

(** ** Entries, hedges and restarts *)

Section Entries.

Context {W : Type} (client : Gateway W).

Lemma first_trade_filled_long (m : machine W) o w1 f w2 :
  let t := self m in
  side t = "LONG"%string ->
  futures_create_order client (entry_order LONG t) (world m) = (inr o, w1) ->
  futures_symbol_ticker client (symbol t) w1 = (inr f, w2) ->
  first_trade client m =
  (Return tt,
   moved m (entered_long f t) w2
     [CreateOrder (entry_order LONG t); SymbolTicker (symbol t)]).
Proof.
  intros t Hside Horder Hticker. rewrite first_trade_run.
  fold t. rewrite Hside. cbn [String.eqb Ascii.eqb Bool.eqb].
  rewrite enter_long_run. cbv zeta. fold t. now rewrite Horder, Hticker.
Qed.

Lemma first_trade_filled_short (m : machine W) o w1 f w2 :
  let t := self m in
  side t = "SHORT"%string ->
  futures_create_order client (entry_order SHORT t) (world m) = (inr o, w1) ->
  futures_symbol_ticker client (symbol t) w1 = (inr f, w2) ->
  first_trade client m =
  (Return tt,
   moved m (entered_short f t) w2
     [CreateOrder (entry_order SHORT t); SymbolTicker (symbol t)]).
Proof.
  intros t Hside Horder Hticker. rewrite first_trade_run.
  fold t. rewrite Hside. cbn [String.eqb Ascii.eqb Bool.eqb].
  rewrite enter_short_run. cbv zeta. fold t. now rewrite Horder, Hticker.
Qed.

Lemma first_trade_rejected (m : machine W) (d : direction) e w1 :
  let t := self m in
  side t = side_name d ->
  futures_create_order client (entry_order d t) (world m) = (inl e, w1) ->
  first_trade client m =
  (Raise e, moved m t w1 [CreateOrder (entry_order d t)]).
Proof.
  intros t Hside Horder. rewrite first_trade_run. fold t. rewrite Hside.
  destruct d; cbn [side_name String.eqb Ascii.eqb Bool.eqb].
  - rewrite enter_long_run. cbv zeta. fold t. now rewrite Horder.
  - rewrite enter_short_run. cbv zeta. fold t. now rewrite Horder.
Qed.

(** A first trade that returns on side LONG has entered LONG. *)
Lemma first_trade_returns_long (m m' : machine W) :
  side (self m) = "LONG"%string ->
  first_trade client m = (Return tt, m') ->
  exists f, self m' = entered_long f (self m).
Proof.
  intros Hside. rewrite first_trade_run, Hside.
  cbn [String.eqb Ascii.eqb Bool.eqb]. rewrite enter_long_run. cbv zeta.
  order_answer; [discriminate|]. ticker_answer; [discriminate|].
  intros [= <-]. now exists p.
Qed.

Lemma first_trade_returns_short (m m' : machine W) :
  side (self m) = "SHORT"%string ->
  first_trade client m = (Return tt, m') ->
  exists f, self m' = entered_short f (self m).
Proof.
  intros Hside. rewrite first_trade_run, Hside.
  cbn [String.eqb Ascii.eqb Bool.eqb]. rewrite enter_short_run. cbv zeta.
  order_answer; [discriminate|]. ticker_answer; [discriminate|].
  intros [= <-]. now exists p.
Qed.

Lemma hedge_short_raises (m m1 : machine W) e :
  hedge_short client m = (Raise e, m1) -> self m1 = self m.
Proof.
  rewrite hedge_short_run. cbv zeta.
  order_answer; [now intros [= _ <-]|].
  ticker_answer; [now intros [= _ <-]|discriminate].
Qed.

Lemma hedge_long_raises (m m1 : machine W) e :
  hedge_long client m = (Raise e, m1) -> self m1 = self m.
Proof.
  rewrite hedge_long_run. cbv zeta.
  order_answer; [now intros [= _ <-]|].
  ticker_answer; [now intros [= _ <-]|discriminate].
Qed.

Lemma hedge_short_keeps_long (m : machine W) :
  let t' := self (snd (hedge_short client m)) in
  long_entry t' = long_entry (self m) /\ long_tp t' = long_tp (self m)
  /\ long_sl t' = long_sl (self m).
Proof.
  rewrite hedge_short_run. cbv zeta.
  order_answer; [now repeat split|]. ticker_answer; now repeat split.
Qed.

Lemma hedge_long_keeps_short (m : machine W) :
  let t' := self (snd (hedge_long client m)) in
  short_entry t' = short_entry (self m) /\ short_tp t' = short_tp (self m)
  /\ short_sl t' = short_sl (self m).
Proof.
  rewrite hedge_long_run. cbv zeta.
  order_answer; [now repeat split|]. ticker_answer; now repeat split.
Qed.

Lemma hedge_short_filled (m : machine W) o w1 f w2 :
  let t := self m in
  futures_create_order client (hedge_order SHORT t) (world m) = (inr o, w1) ->
  futures_symbol_ticker client (symbol t) w1 = (inr f, w2) ->
  hedge_short client m =
  (Return tt,
   moved m (hedged_short f t) w2
     [CreateOrder (hedge_order SHORT t); SymbolTicker (symbol t)]).
Proof.
  intros t Horder Hticker. rewrite hedge_short_run. cbv zeta. fold t.
  now rewrite Horder, Hticker.
Qed.

Lemma hedge_long_filled (m : machine W) o w1 f w2 :
  let t := self m in
  futures_create_order client (hedge_order LONG t) (world m) = (inr o, w1) ->
  futures_symbol_ticker client (symbol t) w1 = (inr f, w2) ->
  hedge_long client m =
  (Return tt,
   moved m (hedged_long f t) w2
     [CreateOrder (hedge_order LONG t); SymbolTicker (symbol t)]).
Proof.
  intros t Horder Hticker. rewrite hedge_long_run. cbv zeta. fold t.
  now rewrite Horder, Hticker.
Qed.

End Entries.

Section Claims.

Context {W : Type} (client : Gateway W).

(** C7.  If the venue rejects the market order of [first_trade], the call
    raises that very exception to its caller and no attribute of the trader
    is assigned: the trader is the one before the call, so a trader with no
    direction and no exposure still has none, and the six price levels are
    those before the call.  The only trace is the rejected order in the
    log. *)
Theorem first_trade_order_failure_keeps_state
    (m : machine W) (d : direction) (e : exn) (w1 : W) :
  side (self m) = side_name d ->
  futures_create_order client (entry_order d (self m)) (world m)
  = (inl e, w1) ->
  let result := first_trade client m in
  fst result = Raise e
  /\ self (snd result) = self m
  /\ (last_direction (self m) = None -> last_units (self m) = 0 ->
      last_direction (self (snd result)) = None
      /\ last_units (self (snd result)) = 0)
  /\ same_levels (self m) (self (snd result))
  /\ calls (snd result) = calls m ++ [CreateOrder (entry_order d (self m))].
Proof.
  intros Hside Horder result. unfold result.
  rewrite (first_trade_rejected client m d e w1 Hside Horder).
  cbn [fst snd moved self calls]. unfold same_levels. tauto.
Qed.

(** C4.  A price update that hedges a LONG position into SHORT leaves
    [long_entry], [long_tp] and [long_sl] as they were, whatever the venue
    answers; when the order is accepted and the ticker answers [f], the
    trader is SHORT with [short_entry = f] and [short_tp], [short_sl]
    computed from [f] alone.  Symmetrically, the hedge of a SHORT position
    into LONG leaves [short_entry], [short_tp] and [short_sl] as they were
    and computes [long_entry], [long_tp], [long_sl] from the ticker
    answer. *)
Theorem hedge_recomputes_entered_side_only
    (m : machine W) (p : Q) (time : Z) :
  let t := self m in
  let t' :=
    self (snd (stream_price client {| E := Some time; k_c := Some p |} m)) in
  (last_direction t = Some LONG -> 0 < last_units t -> p <= short_entry t ->
   (long_entry t' = long_entry t /\ long_tp t' = long_tp t
    /\ long_sl t' = long_sl t)
   /\ forall o w1 f w2,
        futures_create_order client (hedge_order SHORT t) (world m)
        = (inr o, w1) ->
        futures_symbol_ticker client (symbol t) w1 = (inr f, w2) ->
        last_direction t' = Some SHORT
        /\ short_entry t' = f
        /\ short_tp t' = f - short_tp_deduct t * f
        /\ short_sl t' = f + short_sl_add t * f)
  /\ (last_direction t = Some SHORT -> last_units t < 0 ->
      long_entry t <= p ->
      (short_entry t' = short_entry t /\ short_tp t' = short_tp t
       /\ short_sl t' = short_sl t)
      /\ forall o w1 f w2,
           futures_create_order client (hedge_order LONG t) (world m)
           = (inr o, w1) ->
           futures_symbol_ticker client (symbol t) w1 = (inr f, w2) ->
           last_direction t' = Some LONG
           /\ long_entry t' = f
           /\ long_tp t' = f + long_tp_add t * f
           /\ long_sl t' = f - long_sl_deduct t * f).
Proof.
  intros t t'. unfold t'. split.
  - intros Hdir Hpos Hhedge. rewrite tick_hedge_short by assumption.
    cbn [snd]. split.
    + apply (hedge_short_keeps_long client
               (with_self (with_close p (self m)) m)).
    + intros o w1 f w2 Horder Hticker.
      rewrite (hedge_short_filled client
                 (with_self (with_close p (self m)) m) o w1 f w2
                 Horder Hticker).
      cbn [snd moved self]. now repeat split.
  - intros Hdir Hneg Hhedge. rewrite tick_hedge_long by assumption.
    cbn [snd]. split.
    + apply (hedge_long_keeps_short client
               (with_self (with_close p (self m)) m)).
    + intros o w1 f w2 Horder Hticker.
      rewrite (hedge_long_filled client
                 (with_self (with_close p (self m)) m) o w1 f w2
                 Horder Hticker).
      cbn [snd moved self]. now repeat split.
Qed.

(** C8.  The price callback never raises: for every message and every
    state it returns normally.  If the hedge block raises (the order is
    rejected, or the ticker query after it fails), or if
    [close_all_positions] raises in a take-profit block, the trader after
    the update is the trader before the transition began: the one before
    the update with [close] set to the price, hence the same direction, the
    same exposure and the same six price levels. *)
Theorem gateway_error_contained_in_callback
    (m : machine W) (p : Q) (time : Z) :
  let t := self m in
  let priced := with_self (with_close p t) m in
  let result := stream_price client {| E := Some time; k_c := Some p |} m in
  (forall msg0 m0, fst (stream_price client msg0 m0) = Return tt)
  /\ (forall e m1,
        last_direction t = Some LONG -> 0 < last_units t ->
        p <= short_entry t ->
        hedge_short client priced = (Raise e, m1) ->
        fst result = Return tt
        /\ self (snd result) = with_close p t
        /\ engine_unchanged t (self (snd result)))
  /\ (forall e m1,
        last_direction t = Some SHORT -> last_units t < 0 ->
        long_entry t <= p ->
        hedge_long client priced = (Raise e, m1) ->
        fst result = Return tt
        /\ self (snd result) = with_close p t
        /\ engine_unchanged t (self (snd result)))
  /\ (forall e m1,
        last_direction t = Some LONG -> 0 < last_units t ->
        short_entry t < p -> long_tp t <= p ->
        close_all_positions client priced = (Raise e, m1) ->
        fst result = Return tt
        /\ self (snd result) = with_close p t
        /\ engine_unchanged t (self (snd result)))
  /\ (forall e m1,
        last_direction t = Some SHORT -> last_units t < 0 ->
        p < long_entry t -> p <= short_tp t ->
        close_all_positions client priced = (Raise e, m1) ->
        fst result = Return tt
        /\ self (snd result) = with_close p t
        /\ engine_unchanged t (self (snd result))).
Proof.
  intros t priced result. subst result priced t.
  assert (Hkept : forall t',
             t' = with_close p (self m) -> engine_unchanged (self m) t').
  { intros t' ->. unfold engine_unchanged, same_levels. now repeat split. }
  split; [|split; [|split; [|split]]].
  - intros msg0 m0. unfold stream_price. now rewrite swallow_run.
  - intros e m1 Hdir Hpos Hhedge Hraise.
    rewrite tick_hedge_short by assumption. cbn [fst snd].
    rewrite Hraise. cbn [snd]. apply hedge_short_raises in Hraise.
    cbn [with_self self] in Hraise. auto.
  - intros e m1 Hdir Hneg Hhedge Hraise.
    rewrite tick_hedge_long by assumption. cbn [fst snd].
    rewrite Hraise. cbn [snd]. apply hedge_long_raises in Hraise.
    cbn [with_self self] in Hraise. auto.
  - intros e m1 Hdir Hpos Hhedge Htp Hraise.
    rewrite tick_take_profit_long by assumption. cbn [fst snd].
    rewrite take_profit_long_run, Hraise. cbn [snd].
    pose proof (close_all_positions_self client
                  (with_self (with_close p (self m)) m)) as Hself.
    rewrite Hraise in Hself. cbn [snd with_self self] in Hself. auto.
  - intros e m1 Hdir Hneg Hhedge Htp Hraise.
    rewrite tick_take_profit_short by assumption. cbn [fst snd].
    rewrite take_profit_short_run, Hraise. cbn [snd].
    pose proof (close_all_positions_self client
                  (with_self (with_close p (self m)) m)) as Hself.
    rewrite Hraise in Hself. cbn [snd with_self self] in Hself. auto.
Qed.

Lemma orders_of_app (cs1 cs2 : list call) :
  orders_of (cs1 ++ cs2) = orders_of cs1 ++ orders_of cs2.
Proof.
  induction cs1 as [|c cs1 IH]; [reflexivity|].
  destruct c; cbn [app orders_of]; now rewrite IH.
Qed.

Lemma Qabs_double_flip (x : Q) : Qabs (x * 2 * -1) == 2 * Qabs x.
Proof.
  rewrite !Qabs_Qmult.
  change (Qabs 2) with 2. change (Qabs (-1)) with 1. ring.
Qed.

Lemma Qabs_double (x : Q) : Qabs (x * 2) == 2 * Qabs x.
Proof. rewrite Qabs_Qmult. change (Qabs 2) with 2. ring. Qed.

(** C2.  Doubling law.  When a price update hedges (the order is accepted
    and the ticker answers), the magnitude of [last_units] after the update
    is twice the magnitude before it, the direction is the opposite one, and
    the one order the update sends has quantity twice the magnitude before.
    When a price update takes profit and restarts ([close_all_positions] and
    [first_trade] return), the magnitude of [last_units] after the update is
    [base_units], whatever [last_units] was before; this needs the entry
    size [int_units] to be the [base_units] that [__init__] made it, and
    positive. *)
Theorem doubling_law (m : machine W) (p : Q) (time : Z) :
  let t := self m in
  let priced := with_self (with_close p t) m in
  let m' := snd (stream_price client {| E := Some time; k_c := Some p |} m) in
  (forall o w1 f w2,
     last_direction t = Some LONG -> 0 < last_units t ->
     p <= short_entry t ->
     futures_create_order client (hedge_order SHORT t) (world m)
     = (inr o, w1) ->
     futures_symbol_ticker client (symbol t) w1 = (inr f, w2) ->
     Qabs (last_units (self m')) == 2 * Qabs (last_units t)
     /\ last_direction (self m') = Some SHORT
     /\ orders_of (calls m') = orders_of (calls m) ++ [hedge_order SHORT t]
     /\ o_quantity (hedge_order SHORT t) == 2 * Qabs (last_units t))
  /\ (forall o w1 f w2,
        last_direction t = Some SHORT -> last_units t < 0 ->
        long_entry t <= p ->
        futures_create_order client (hedge_order LONG t) (world m)
        = (inr o, w1) ->
        futures_symbol_ticker client (symbol t) w1 = (inr f, w2) ->
        Qabs (last_units (self m')) == 2 * Qabs (last_units t)
        /\ last_direction (self m') = Some LONG
        /\ orders_of (calls m') = orders_of (calls m) ++ [hedge_order LONG t]
        /\ o_quantity (hedge_order LONG t) == 2 * Qabs (last_units t))
  /\ (forall m1 m2,
        last_direction t = Some LONG -> 0 < last_units t ->
        short_entry t < p -> long_tp t <= p ->
        close_all_positions client priced = (Return tt, m1) ->
        first_trade client (with_self (flattened "LONG" (self m1)) m1)
        = (Return tt, m2) ->
        int_units t = base_units t -> 0 < base_units t ->
        m' = m2
        /\ last_direction (self m') = Some LONG
        /\ last_units (self m') = base_units t
        /\ Qabs (last_units (self m')) == base_units t)
  /\ (forall m1 m2,
        last_direction t = Some SHORT -> last_units t < 0 ->
        p < long_entry t -> p <= short_tp t ->
        close_all_positions client priced = (Return tt, m1) ->
        first_trade client (with_self (flattened "SHORT" (self m1)) m1)
        = (Return tt, m2) ->
        int_units t = base_units t -> 0 < base_units t ->
        m' = m2
        /\ last_direction (self m') = Some SHORT
        /\ last_units (self m') = base_units t * -1
        /\ Qabs (last_units (self m')) == base_units t).
Proof.
  intros t priced m'. subst m' priced t.
  split; [|split; [|split]].
  - intros o w1 f w2 Hdir Hpos Hhedge Horder Hticker.
    rewrite tick_hedge_short by assumption. cbn [snd].
    rewrite (hedge_short_filled client
               (with_self (with_close p (self m)) m) o w1 f w2
               Horder Hticker).
    cbn [snd moved self calls with_self].
    change (last_units (hedged_short f (with_close p (self m))))
      with (last_units (self m) * 2 * -1).
    change (last_direction (hedged_short f (with_close p (self m))))
      with (Some SHORT).
    change (hedge_order SHORT (with_close p (self m)))
      with (hedge_order SHORT (self m)).
    rewrite orders_of_app. cbn [orders_of o_quantity hedge_order].
    repeat split; [apply Qabs_double_flip | apply Qabs_double].
  - intros o w1 f w2 Hdir Hneg Hhedge Horder Hticker.
    rewrite tick_hedge_long by assumption. cbn [snd].
    rewrite (hedge_long_filled client
               (with_self (with_close p (self m)) m) o w1 f w2
               Horder Hticker).
    cbn [snd moved self calls with_self].
    change (last_units (hedged_long f (with_close p (self m))))
      with (last_units (self m) * 2 * -1).
    change (last_direction (hedged_long f (with_close p (self m))))
      with (Some LONG).
    change (hedge_order LONG (with_close p (self m)))
      with (hedge_order LONG (self m)).
    rewrite orders_of_app. cbn [orders_of o_quantity hedge_order].
    repeat split; [apply Qabs_double_flip | apply Qabs_double].
  - intros m1 m2 Hdir Hpos Hhedge Htp Hclose Hfirst Hsize Hbase.
    rewrite tick_take_profit_long by assumption. cbn [snd].
    rewrite take_profit_long_run, Hclose, Hfirst. cbn [snd].
    pose proof (close_all_positions_self client
                  (with_self (with_close p (self m)) m)) as Hself.
    rewrite Hclose in Hself. cbn [snd with_self self] in Hself.
    apply first_trade_returns_long in Hfirst; [|reflexivity].
    destruct Hfirst as [f ->]. cbn [with_self self]. rewrite Hself.
    change (last_direction
              (entered_long f (flattened "LONG" (with_close p (self m)))))
      with (Some LONG).
    change (last_units
              (entered_long f (flattened "LONG" (with_close p (self m)))))
      with (int_units (self m)).
    rewrite Hsize. repeat split. apply Qabs_pos. now apply Qlt_le_weak.
  - intros m1 m2 Hdir Hneg Hhedge Htp Hclose Hfirst Hsize Hbase.
    rewrite tick_take_profit_short by assumption. cbn [snd].
    rewrite take_profit_short_run, Hclose, Hfirst. cbn [snd].
    pose proof (close_all_positions_self client
                  (with_self (with_close p (self m)) m)) as Hself.
    rewrite Hclose in Hself. cbn [snd with_self self] in Hself.
    apply first_trade_returns_short in Hfirst; [|reflexivity].
    destruct Hfirst as [f ->]. cbn [with_self self]. rewrite Hself.
    change (last_direction
              (entered_short f (flattened "SHORT" (with_close p (self m)))))
      with (Some SHORT).
    change (last_units
              (entered_short f (flattened "SHORT" (with_close p (self m)))))
      with (int_units (self m) * -1).
    rewrite Hsize. repeat split.
    rewrite Qabs_Qmult. change (Qabs (-1)) with 1.
    rewrite Qabs_pos by now apply Qlt_le_weak. ring.
Qed.

End Claims.

Section Levels.

Context {W : Type} (client : Gateway W).

(** C3, amended.  With offsets 0.4%, 0.8%, 1.2%, 0.8%, 1.2% (next short
    entry, long take-profit, long stop-loss, short take-profit, short
    stop-loss), entry size 0.3 and side LONG, a first trade whose order is
    accepted and whose ticker answers 50000 returns with
    [long_entry = 50000], [short_entry = 49800], [long_tp = 50400],
    [long_sl = 49400], [short_tp = 49401.6], [short_sl = 50397.6] and
    [last_units = 0.3]. *)
Theorem scenario_A_levels
    (m : machine W) (o : order_response) (w1 : W) (f : Q) (w2 : W) :
  let t := self m in
  side t = "LONG"%string ->
  short_entry_deduct t == 0.4 / 100 -> long_tp_add t == 0.8 / 100 ->
  long_sl_deduct t == 1.2 / 100 -> short_tp_deduct t == 0.8 / 100 ->
  short_sl_add t == 1.2 / 100 -> int_units t == 0.3 -> f == 50000 ->
  futures_create_order client (entry_order LONG t) (world m) = (inr o, w1) ->
  futures_symbol_ticker client (symbol t) w1 = (inr f, w2) ->
  let result := first_trade client m in
  let t' := self (snd result) in
  fst result = Return tt
  /\ long_entry t' == 50000 /\ short_entry t' == 49800
  /\ long_tp t' == 50400 /\ long_sl t' == 49400
  /\ short_tp t' == 49401.6 /\ approx (short_tp t') 49401.6
  /\ short_sl t' == 50397.6 /\ approx (short_sl t') 50397.6
  /\ last_units t' == 0.3.
Proof.
  intros t Hside Hsed Hlta Hlsd Hstd Hssa Hsize Hf Horder Hticker result t'.
  subst t' result.
  rewrite (first_trade_filled_long client m o w1 f w2 Hside Horder Hticker).
  cbn [fst snd moved self]. fold t. unfold approx.
  change (long_entry (entered_long f t)) with f.
  change (long_tp (entered_long f t)) with (f + long_tp_add t * f).
  change (long_sl (entered_long f t)) with (f - long_sl_deduct t * f).
  change (short_entry (entered_long f t))
    with (f - short_entry_deduct t * f).
  change (short_tp (entered_long f t))
    with (f - short_entry_deduct t * f
          - short_tp_deduct t * (f - short_entry_deduct t * f)).
  change (short_sl (entered_long f t))
    with (f - short_entry_deduct t * f
          + short_sl_add t * (f - short_entry_deduct t * f)).
  change (last_units (entered_long f t)) with (int_units t).
  rewrite Hsed, Hlta, Hlsd, Hstd, Hssa, Hsize, Hf.
  repeat split; evaluate.
Qed.

End Levels.

Section Closing.

Context {W : Type} (client : Gateway W).

Lemma closable_iff (pos : position) :
  closable pos = true <->
  (positionSide pos = "LONG"%string /\ 0 < positionAmt pos)
  \/ (positionSide pos = "SHORT"%string /\ positionAmt pos < 0).
Proof.
  unfold closable.
  rewrite andb_true_iff, orb_true_iff, !andb_true_iff, negb_true_iff,
    !String.eqb_eq, !Qlt_bool_iff.
  split; [tauto|].
  intros H. split; [|exact H].
  destruct (Qeq_bool (positionAmt pos) 0) eqn:Hzero; [|reflexivity].
  apply Qeq_bool_iff in Hzero. rewrite Hzero in H.
  destruct H as [[_ H] | [_ H]]; now apply Qlt_irrefl in H.
Qed.

Lemma closing_calls_zero (symbol0 : string) (ps : list position) :
  (forall pos, In pos ps -> positionAmt pos == 0) ->
  closing_calls symbol0 ps = [].
Proof.
  intros Hzero. unfold closing_calls.
  induction ps as [|pos ps IH]; [reflexivity|]. cbn [filter].
  assert (Hpos : closable pos = false).
  { unfold closable. rewrite (Qeq_eq_bool _ _ (Hzero pos (or_introl eq_refl))).
    reflexivity. }
  rewrite Hpos. apply IH. intros pos' Hin. apply Hzero. now right.
Qed.

Lemma for_each_close_nothing (ps : list position) (m : machine W) :
  closing_calls (symbol (self m)) ps = [] ->
  for_each ps (close_position client) m = (Return tt, m).
Proof.
  unfold closing_calls.
  induction ps as [|pos ps IH]; [reflexivity|]. cbn [filter for_each].
  unfold bind. rewrite close_position_run.
  destruct (closable pos); [discriminate|]. exact IH.
Qed.

Lemma for_each_close_prefix (ps : list position) (m : machine W) :
  exists n,
    calls (snd (for_each ps (close_position client) m))
    = calls m ++ firstn n (closing_calls (symbol (self m)) ps).
Proof.
  revert m. unfold closing_calls.
  induction ps as [|pos ps IH]; intros m.
  - exists 0%nat. cbn. now rewrite app_nil_r.
  - cbn [for_each filter]. unfold bind. rewrite close_position_run.
    destruct (closable pos); [|apply IH]. cbv zeta.
    order_answer.
    + exists 1%nat. reflexivity.
    + destruct (IH (moved m (self m) w1
                      [CreateOrder (closing_order (symbol (self m)) pos)]))
        as [n Hn].
      exists (S n). rewrite Hn. cbn [moved calls self map firstn].
      now rewrite <- app_assoc.
Qed.

(** On any report.  [close_all_positions] first queries the positions of the
    venue.  Whatever happens next, it assigns no attribute of the trader.
    When it returns, the calls it made after the query are exactly one order
    for each reported position that is LONG with a positive amount or SHORT
    with a negative amount, in the order of the report: a SELL on the LONG
    side, or a BUY on the SHORT side, for the absolute amount.  Positions
    with a zero amount, and positions whose amount does not have the sign of
    their side, get no order; when every reported amount is zero it returns
    having sent no order.  When an order is rejected it raises, having sent
    an initial part of those orders. *)
Theorem close_all_positions_orders (m : machine W) :
  let t := self m in
  let query := PositionInformation (symbol t) in
  self (snd (close_all_positions client m)) = t
  /\ (forall e w0,
        futures_position_information client (symbol t) (world m)
        = (inl e, w0) ->
        close_all_positions client m = (Raise e, moved m t w0 [query]))
  /\ (forall ps w0,
        futures_position_information client (symbol t) (world m)
        = (inr ps, w0) ->
        exists n,
          calls (snd (close_all_positions client m))
          = calls m ++ query :: firstn n (closing_calls (symbol t) ps))
  /\ (forall ps w0 m',
        futures_position_information client (symbol t) (world m)
        = (inr ps, w0) ->
        close_all_positions client m = (Return tt, m') ->
        calls m' = calls m ++ query :: closing_calls (symbol t) ps)
  /\ (forall ps w0,
        futures_position_information client (symbol t) (world m)
        = (inr ps, w0) ->
        (forall pos, In pos ps -> positionAmt pos == 0) ->
        close_all_positions client m = (Return tt, moved m t w0 [query]))
  /\ (forall pos,
        (closable pos = true <->
         (positionSide pos = "LONG"%string /\ 0 < positionAmt pos)
         \/ (positionSide pos = "SHORT"%string /\ positionAmt pos < 0))
        /\ (positionSide pos = "LONG"%string -> 0 < positionAmt pos ->
            closing_order (symbol t) pos
            = {| o_symbol := symbol t; o_side := SELL; o_type := MARKET;
                 o_quantity := Qabs (positionAmt pos);
                 o_positionSide := LONG |})
        /\ (positionSide pos = "SHORT"%string -> positionAmt pos < 0 ->
            closing_order (symbol t) pos
            = {| o_symbol := symbol t; o_side := BUY; o_type := MARKET;
                 o_quantity := Qabs (positionAmt pos);
                 o_positionSide := SHORT |})).
Proof.
  intros t query. subst query t.
  split; [apply close_all_positions_self|].
  split; [|split; [|split; [|split]]].
  - intros e w0 Hquery. rewrite close_all_positions_run. cbv zeta.
    now rewrite Hquery.
  - intros ps w0 Hquery. rewrite close_all_positions_run. cbv zeta.
    rewrite Hquery.
    destruct (for_each_close_prefix ps
                (moved m (self m) w0 [PositionInformation (symbol (self m))]))
      as [n Hn].
    exists n. rewrite Hn. cbn [moved calls self]. now rewrite <- app_assoc.
  - intros ps w0 m' Hquery. rewrite close_all_positions_run. cbv zeta.
    rewrite Hquery. intros Hloop. apply for_each_close_returns in Hloop.
    rewrite Hloop. cbn [moved calls self]. now rewrite <- app_assoc.
  - intros ps w0 Hquery Hzero. rewrite close_all_positions_run. cbv zeta.
    rewrite Hquery. apply for_each_close_nothing.
    now apply closing_calls_zero.
  - intros pos. split; [apply closable_iff|]. unfold closing_order. split.
    + intros -> Hamt. apply Qlt_bool_iff in Hamt. now rewrite Hamt.
    + intros -> Hamt. reflexivity.
Qed.

End Closing.

(** ** The properties on concrete runs *)

(** The answer of a call on a concrete machine, by evaluation. *)
Ltac answered H run :=
  let r := eval vm_compute in run in
  assert (H : run = r) by (vm_compute; reflexivity).

(** The bot of the [__main__] block on a venue that rejects its order. *)
Lemma first_trade_order_failure_keeps_state_witness :
  let m := boot main_trader (rejecting 50000 []) in
  side (self m) = side_name LONG
  /\ futures_create_order scripted (entry_order LONG (self m)) (world m)
     = (inl (Exception "order rejected"), world m)
  /\ fst (first_trade scripted m) = Raise (Exception "order rejected")
  /\ self (snd (first_trade scripted m)) = self m.
Proof.
  cbv zeta.
  assert (Hside : side (self (boot main_trader (rejecting 50000 [])))
                  = side_name LONG) by evaluate.
  assert (Horder : futures_create_order scripted
                     (entry_order LONG
                        (self (boot main_trader (rejecting 50000 []))))
                     (world (boot main_trader (rejecting 50000 [])))
                   = (inl (Exception "order rejected"),
                      world (boot main_trader (rejecting 50000 []))))
    by evaluate.
  pose proof (first_trade_order_failure_keeps_state scripted _ LONG _ _
                Hside Horder) as H.
  cbv zeta in H.
  split; [exact Hside|]. split; [exact Horder|].
  split; [exact (proj1 H) | exact (proj1 (proj2 H))].
Defined.

(** Scenario B: the LONG position of scenario A is hedged at 49800. *)
Lemma hedge_recomputes_entered_side_only_witness :
  let m := with_world (healthy 49800 []) scenario_A in
  let t := self m in
  let t' :=
    self (snd (stream_price scripted {| E := Some 0%Z; k_c := Some 49800 |}
                 m)) in
  (last_direction t = Some LONG /\ 0 < last_units t /\ 49800 <= short_entry t)
  /\ (long_entry t' = long_entry t /\ long_tp t' = long_tp t
      /\ long_sl t' = long_sl t)
  /\ last_direction t' = Some SHORT
  /\ short_entry t' = 49800.
Proof.
  cbv zeta.
  pose proof (hedge_recomputes_entered_side_only scripted
                (with_world (healthy 49800 []) scenario_A) 49800 0) as H.
  cbv zeta in H. destruct H as [Hlong _].
  assert (Hdir : last_direction
                   (self (with_world (healthy 49800 []) scenario_A))
                 = Some LONG) by evaluate.
  assert (Hpos : 0 < last_units
                       (self (with_world (healthy 49800 []) scenario_A)))
    by evaluate.
  assert (Hhedge : 49800 <= short_entry
                       (self (with_world (healthy 49800 []) scenario_A)))
    by evaluate.
  destruct (Hlong Hdir Hpos Hhedge) as [Hkeep Hfill].
  answered Horder
    (futures_create_order scripted
       (hedge_order SHORT (self (with_world (healthy 49800 []) scenario_A)))
       (world (with_world (healthy 49800 []) scenario_A))).
  match type of Horder with
  | _ = (_, ?w1) =>
      answered Hticker
        (futures_symbol_ticker scripted
           (symbol (self (with_world (healthy 49800 []) scenario_A))) w1)
  end.
  destruct (Hfill _ _ _ _ Horder Hticker) as (Hside & Hentry & _).
  split; [split; [exact Hdir | split; [exact Hpos | exact Hhedge]]|].
  split; [exact Hkeep|]. split; [exact Hside | exact Hentry].
Defined.

(** After scenario A the price falls to 49800 and the venue rejects the
    hedge order, or accepts it and fails to answer the ticker query; or the
    price rises to 50400 and the position query of the venue is down. *)
Lemma gateway_error_contained_in_callback_witness :
  let rejected := with_world (rejecting 49800 []) scenario_A in
  let unquoted := with_world (silent []) scenario_A in
  let unreported := with_world (blind 50400) scenario_A in
  let falls := {| E := Some 0%Z; k_c := Some 49800 |} in
  let rises := {| E := Some 0%Z; k_c := Some 50400 |} in
  (fst (stream_price scripted falls rejected) = Return tt
   /\ self (snd (stream_price scripted falls rejected))
      = with_close 49800 (self rejected))
  /\ (fst (stream_price scripted falls unquoted) = Return tt
      /\ self (snd (stream_price scripted falls unquoted))
         = with_close 49800 (self unquoted))
  /\ (fst (stream_price scripted rises unreported) = Return tt
      /\ self (snd (stream_price scripted rises unreported))
         = with_close 50400 (self unreported)).
Proof.
  cbv zeta. split; [|split].
  - pose proof (gateway_error_contained_in_callback scripted
                  (with_world (rejecting 49800 []) scenario_A) 49800 0) as H.
    cbv zeta in H. destruct H as (_ & Hhedge & _).
    answered Hraise
      (hedge_short scripted
         (with_self
            (with_close 49800
               (self (with_world (rejecting 49800 []) scenario_A)))
            (with_world (rejecting 49800 []) scenario_A))).
    assert (Hdir : last_direction
                     (self (with_world (rejecting 49800 []) scenario_A))
                   = Some LONG) by evaluate.
    assert (Hpos : 0 < last_units
                         (self (with_world (rejecting 49800 []) scenario_A)))
      by evaluate.
    assert (Hle : 49800 <= short_entry
                      (self (with_world (rejecting 49800 []) scenario_A)))
      by evaluate.
    destruct (Hhedge _ _ Hdir Hpos Hle Hraise) as (Hret & Hself & _).
    split; [exact Hret | exact Hself].
  - pose proof (gateway_error_contained_in_callback scripted
                  (with_world (silent []) scenario_A) 49800 0) as H.
    cbv zeta in H. destruct H as (_ & Hhedge & _).
    answered Hraise
      (hedge_short scripted
         (with_self
            (with_close 49800 (self (with_world (silent []) scenario_A)))
            (with_world (silent []) scenario_A))).
    assert (Hdir : last_direction
                     (self (with_world (silent []) scenario_A))
                   = Some LONG) by evaluate.
    assert (Hpos : 0 < last_units
                         (self (with_world (silent []) scenario_A)))
      by evaluate.
    assert (Hle : 49800 <= short_entry
                      (self (with_world (silent []) scenario_A)))
      by evaluate.
    destruct (Hhedge _ _ Hdir Hpos Hle Hraise) as (Hret & Hself & _).
    split; [exact Hret | exact Hself].
  - pose proof (gateway_error_contained_in_callback scripted
                  (with_world (blind 50400) scenario_A) 50400 0) as H.
    cbv zeta in H. destruct H as (_ & _ & _ & Hprofit & _).
    answered Hraise
      (close_all_positions scripted
         (with_self
            (with_close 50400 (self (with_world (blind 50400) scenario_A)))
            (with_world (blind 50400) scenario_A))).
    assert (Hdir : last_direction
                     (self (with_world (blind 50400) scenario_A))
                   = Some LONG) by evaluate.
    assert (Hpos : 0 < last_units
                         (self (with_world (blind 50400) scenario_A)))
      by evaluate.
    assert (Hlt : short_entry (self (with_world (blind 50400) scenario_A))
                  < 50400) by evaluate.
    assert (Hle : long_tp (self (with_world (blind 50400) scenario_A))
                  <= 50400) by evaluate.
    destruct (Hprofit _ _ Hdir Hpos Hlt Hle Hraise) as (Hret & Hself & _).
    split; [exact Hret | exact Hself].
Defined.

(** Scenario B doubles 0.3 into 0.6; then the price falls to 49400, below
    the short take-profit, and the bot restarts SHORT with 0.3. *)
Lemma doubling_law_witness :
  let hedge := with_world (healthy 49800 []) scenario_A in
  let profit := with_world (healthy 49400 []) scenario_B in
  Qabs (last_units
          (self (snd (stream_price scripted
                        {| E := Some 0%Z; k_c := Some 49800 |} hedge))))
  == 2 * Qabs (last_units (self hedge))
  /\ (last_units (self profit) == -0.6
      /\ int_units (self profit) = base_units (self profit)
      /\ 0 < base_units (self profit)
      /\ Qabs (last_units
                 (self (snd (stream_price scripted
                               {| E := Some 0%Z; k_c := Some 49400 |}
                               profit))))
         == base_units (self profit)).
Proof.
  cbv zeta. split.
  - pose proof (doubling_law scripted
                  (with_world (healthy 49800 []) scenario_A) 49800 0) as H.
    cbv zeta in H. destruct H as (Hhedge & _).
    assert (Hdir : last_direction
                     (self (with_world (healthy 49800 []) scenario_A))
                   = Some LONG) by evaluate.
    assert (Hpos : 0 < last_units
                         (self (with_world (healthy 49800 []) scenario_A)))
      by evaluate.
    assert (Hle : 49800 <= short_entry
                      (self (with_world (healthy 49800 []) scenario_A)))
      by evaluate.
    answered Horder
      (futures_create_order scripted
         (hedge_order SHORT (self (with_world (healthy 49800 []) scenario_A)))
         (world (with_world (healthy 49800 []) scenario_A))).
    match type of Horder with
    | _ = (_, ?w1) =>
        answered Hticker
          (futures_symbol_ticker scripted
             (symbol (self (with_world (healthy 49800 []) scenario_A))) w1)
    end.
    exact (proj1 (Hhedge _ _ _ _ Hdir Hpos Hle Horder Hticker)).
  - pose proof (doubling_law scripted
                  (with_world (healthy 49400 []) scenario_B) 49400 0) as H.
    cbv zeta in H. destruct H as (_ & _ & _ & Hprofit).
    assert (Hdir : last_direction
                     (self (with_world (healthy 49400 []) scenario_B))
                   = Some SHORT) by evaluate.
    assert (Hneg : last_units
                     (self (with_world (healthy 49400 []) scenario_B)) < 0)
      by evaluate.
    assert (Hlt : 49400 < long_entry
                      (self (with_world (healthy 49400 []) scenario_B)))
      by evaluate.
    assert (Hle : 49400 <= short_tp
                      (self (with_world (healthy 49400 []) scenario_B)))
      by evaluate.
    assert (Hsize : int_units
                      (self (with_world (healthy 49400 []) scenario_B))
                    = base_units
                        (self (with_world (healthy 49400 []) scenario_B)))
      by evaluate.
    assert (Hbase : 0 < base_units
                          (self (with_world (healthy 49400 []) scenario_B)))
      by evaluate.
    assert (Hunits : last_units
                       (self (with_world (healthy 49400 []) scenario_B))
                     == -0.6) by evaluate.
    answered Hclose
      (close_all_positions scripted
         (with_self
            (with_close 49400
               (self (with_world (healthy 49400 []) scenario_B)))
            (with_world (healthy 49400 []) scenario_B))).
    match type of Hclose with
    | _ = (_, ?m1) =>
        answered Hfirst
          (first_trade scripted (with_self (flattened "SHORT" (self m1)) m1))
    end.
    destruct (Hprofit _ _ Hdir Hneg Hlt Hle Hclose Hfirst Hsize Hbase)
      as (_ & _ & _ & Habs).
    split; [exact Hunits|]. split; [exact Hsize|].
    split; [exact Hbase | exact Habs].
Defined.

(** Scenario A on the scripted venue. *)
Lemma scenario_A_levels_witness :
  let m := boot main_trader (healthy 50000 []) in
  let t' := self (snd (first_trade scripted m)) in
  fst (first_trade scripted m) = Return tt
  /\ long_entry t' == 50000 /\ short_entry t' == 49800
  /\ long_tp t' == 50400 /\ long_sl t' == 49400
  /\ short_tp t' == 49401.6 /\ approx (short_tp t') 49401.6
  /\ short_sl t' == 50397.6 /\ approx (short_sl t') 50397.6
  /\ last_units t' == 0.3.
Proof.
  cbv zeta.
  assert (Hside : side (self (boot main_trader (healthy 50000 [])))
                  = "LONG"%string) by evaluate.
  answered Horder
    (futures_create_order scripted
       (entry_order LONG (self (boot main_trader (healthy 50000 []))))
       (world (boot main_trader (healthy 50000 [])))).
  match type of Horder with
  | _ = (_, ?w1) =>
      assert (Hticker :
                futures_symbol_ticker scripted
                  (symbol (self (boot main_trader (healthy 50000 [])))) w1
                = (inr 50000, w1)) by evaluate
  end.
  refine (scenario_A_levels scripted _ _ _ _ _
            Hside _ _ _ _ _ _ _ Horder Hticker); evaluate.
Defined.

(** C3, as stated.  In scenario A the first trade returns and the short
    take-profit is 49401.6: it is 2.8 below the 49404.4 the specification
    expects, so the expected levels do not hold. *)
Lemma scenario_A_short_tp_counterexample :
  fst (first_trade scripted (boot main_trader (healthy 50000 [])))
  = Return tt
  /\ short_tp (self scenario_A) == 49401.6
  /\ ~ scenario_A_expected (self scenario_A).
Proof.
  split; [evaluate|]. split; [evaluate|].
  unfold scenario_A_expected, approx. intros (_ & _ & _ & _ & H & _).
  apply Qle_not_lt in H. apply H. evaluate.
Qed.

(** A report with a LONG position of 0.3, a SHORT position of -0.6 and an
    empty entry: one SELL of 0.3 on the LONG side, then one BUY of 0.6 on
    the SHORT side. *)
Lemma close_all_positions_orders_witness :
  let ps := [ {| positionSide := "LONG"; positionAmt := 0.3 |};
              {| positionSide := "SHORT"; positionAmt := -0.6 |};
              {| positionSide := "BOTH"; positionAmt := 0 |} ] in
  let m := boot main_trader (healthy 50400 ps) in
  fst (close_all_positions scripted m) = Return tt
  /\ self (snd (close_all_positions scripted m)) = self m
  /\ calls (snd (close_all_positions scripted m))
     = calls m ++ PositionInformation (symbol (self m))
                  :: closing_calls (symbol (self m)) ps
  /\ orders_of (calls (snd (close_all_positions scripted m)))
     = [ {| o_symbol := "BTCUSDT"; o_side := SELL; o_type := MARKET;
            o_quantity := 0.3; o_positionSide := LONG |};
         {| o_symbol := "BTCUSDT"; o_side := BUY; o_type := MARKET;
            o_quantity := 0.6; o_positionSide := SHORT |} ].
Proof.
  cbv zeta.
  pose proof (close_all_positions_orders scripted
                (boot main_trader
                   (healthy 50400
                      [ {| positionSide := "LONG"; positionAmt := 0.3 |};
                        {| positionSide := "SHORT"; positionAmt := -0.6 |};
                        {| positionSide := "BOTH"; positionAmt := 0 |} ])))
    as H.
  cbv zeta in H. destruct H as (Hself & _ & _ & Hcalls & _).
  answered Hreturn
    (close_all_positions scripted
       (boot main_trader
          (healthy 50400
             [ {| positionSide := "LONG"; positionAmt := 0.3 |};
               {| positionSide := "SHORT"; positionAmt := -0.6 |};
               {| positionSide := "BOTH"; positionAmt := 0 |} ]))).
  split; [evaluate|]. split; [exact Hself|].
  split; [|evaluate].
  rewrite Hreturn. cbn [snd].
  apply (Hcalls _ (healthy 50400
                     [ {| positionSide := "LONG"; positionAmt := 0.3 |};
                       {| positionSide := "SHORT"; positionAmt := -0.6 |};
                       {| positionSide := "BOTH"; positionAmt := 0 |} ]));
    [evaluate | exact Hreturn].
Defined.

(** Outside the reports of a venue in dual-side mode: an entry on the LONG
    side with the amount -0.3, the sign of the other side.  The guards of
    lines 295 and 306 send no order for it. *)
Lemma close_all_positions_skips_inconsistent_entry :
  let ps := [ {| positionSide := "LONG"; positionAmt := -0.3 |} ] in
  let m' := snd (close_all_positions scripted
                   (boot main_trader (healthy 50000 ps))) in
  fst (close_all_positions scripted (boot main_trader (healthy 50000 ps)))
  = Return tt
  /\ orders_of (calls m') = []
  /\ map (opposing_order "BTCUSDT") (nonzero_positions ps)
     = [ {| o_symbol := "BTCUSDT"; o_side := SELL; o_type := MARKET;
            o_quantity := 0.3; o_positionSide := LONG |} ]
  /\ orders_of (calls m')
     <> map (opposing_order "BTCUSDT") (nonzero_positions ps).
Proof.
  cbv zeta. split; [evaluate|]. split; [evaluate|]. split; [evaluate|].
  evaluate.
Qed.

(** ** Further facts about a run *)

(** No block assigns [base_units] or [int_units]: [__init__] makes them
    equal and they stay so. *)
Lemma transition_keeps_sizes (t t' : Trader) :
  transition t t' ->
  base_units t' = base_units t /\ int_units t' = int_units t.
Proof. intros Hstep. destruct Hstep; split; reflexivity. Qed.

Section Further.

Context {W : Type} (client : Gateway W).

Lemma stream_price_keeps_sizes (msg : kline_msg) (m : machine W) :
  let t' := self (snd (stream_price client msg m)) in
  base_units t' = base_units (self m) /\ int_units t' = int_units (self m).
Proof.
  cbv zeta.
  destruct msg as [[time|] [p|]];
    try (rewrite stream_price_malformed; [now split | cbn; tauto]).
  rewrite stream_price_run.
  apply (transition_keeps_sizes (with_close p (self m))).
  apply (hedging_loop_transition client
           (with_self (with_close p (self m)) m)).
Qed.

(** A take-profit whose positions were closed and whose re-entry fails
    leaves the trader flat: no direction, no exposure, the side of the
    position that took profit, and the six price levels as they were. *)
Lemma take_profit_long_stranded (m m1 m2 : machine W) (e : exn) :
  close_all_positions client m = (Return tt, m1) ->
  first_trade client (with_self (flattened "LONG" (self m1)) m1)
  = (Raise e, m2) ->
  take_profit_long client m = (Raise e, m2)
  /\ self m2 = flattened "LONG" (self m)
  /\ last_direction (self m2) = None
  /\ last_units (self m2) = 0
  /\ same_levels (self m) (self m2).
Proof.
  intros Hclose Hfirst. rewrite take_profit_long_run, Hclose.
  split; [exact Hfirst|].
  pose proof (close_all_positions_self client m) as Hself.
  rewrite Hclose in Hself. cbn [snd] in Hself.
  assert (Hflat : self m2 = flattened "LONG" (self m)).
  { rewrite first_trade_run in Hfirst. cbn [with_self self] in Hfirst.
    change (side (flattened "LONG" (self m1))) with "LONG"%string in Hfirst.
    cbn [String.eqb Ascii.eqb Bool.eqb] in Hfirst.
    rewrite enter_long_run in Hfirst. cbv zeta in Hfirst.
    cbn [with_self self world] in Hfirst. rewrite Hself in Hfirst.
    revert Hfirst. order_answer; [now intros [= _ <-]|].
    ticker_answer; [now intros [= _ <-]|discriminate]. }
  rewrite Hflat. unfold same_levels. now repeat split.
Qed.

End Further.

(** ** The scenarios of the specification on the scripted venue *)

(** Scenario B: the hedge sends a SELL of 0.6 on the SHORT side and leaves
    the trader SHORT with an exposure of -0.6. *)
Example scenario_B_hedge :
  last_direction (self scenario_B) = Some SHORT
  /\ last_units (self scenario_B) == -0.6
  /\ short_entry (self scenario_B) == 49800
  /\ same_levels (self scenario_A)
       (with_short_sl (short_sl (self scenario_A))
          (with_short_tp (short_tp (self scenario_A))
             (with_short_entry (short_entry (self scenario_A))
                (self scenario_B))))
  /\ orders_of (calls scenario_B)
     = [ entry_order LONG main_trader;
         {| o_symbol := "BTCUSDT"; o_side := SELL; o_type := MARKET;
            o_quantity := 0.6; o_positionSide := SHORT |} ].
Proof.
  unfold same_levels.
  split_all; evaluate.
Qed.

(** Scenario C: after A the price rises to 50400; the positions are
    queried, and the bot enters LONG again with 0.3. *)
Example scenario_C_restart :
  let m := snd (stream_price scripted (tick 50400)
                  (with_world (healthy 50400 []) scenario_A)) in
  last_direction (self m) = Some LONG
  /\ last_units (self m) == 0.3
  /\ long_entry (self m) == 50400
  /\ calls m
     = calls scenario_A
       ++ [ PositionInformation "BTCUSDT";
            CreateOrder (entry_order LONG main_trader);
            SymbolTicker "BTCUSDT" ].
Proof.
  cbv zeta. split_all; evaluate.
Qed.

(** Scenario D: the venue rejects the first order; [first_trade] raises and
    the trader is the one [__init__] built. *)
Example scenario_D_rejected :
  first_trade scripted (boot main_trader (rejecting 50000 []))
  = (Raise (Exception "order rejected"),
     moved (boot main_trader (rejecting 50000 [])) main_trader
       (rejecting 50000 []) [CreateOrder (entry_order LONG main_trader)]).
Proof. evaluate. Qed.

(** * Further properties of the code *)

Section MoreEntries.

Context {W : Type} (client : Gateway W).

(** X1.  [first_trade] on a side that is neither ["LONG"] nor ["SHORT"] returns
    normally without calling the venue and without assigning anything: the
    constructor accepts any string for [side] and no branch of [first_trade]
    rejects the others. *)
Theorem first_trade_unknown_side_does_nothing (m : machine W) :
  side (self m) <> "LONG"%string -> side (self m) <> "SHORT"%string ->
  first_trade client m = (Return tt, m).
Proof.
  intros Hlong Hshort. rewrite first_trade_run.
  apply String.eqb_neq in Hlong. apply String.eqb_neq in Hshort.
  now rewrite Hlong, Hshort.
Qed.

(** X2.  When the order of [first_trade] is accepted and the ticker query after
    it fails, [first_trade] raises the ticker's exception with no attribute
    assigned: the venue holds the new position, the trader still has no
    direction, no exposure and its old levels. *)
Theorem first_trade_ticker_failure_after_order
    (m : machine W) (d : direction) (o : order_response) (w1 : W)
    (e : exn) (w2 : W) :
  let t := self m in
  side t = side_name d ->
  futures_create_order client (entry_order d t) (world m) = (inr o, w1) ->
  futures_symbol_ticker client (symbol t) w1 = (inl e, w2) ->
  first_trade client m =
  (Raise e,
   moved m t w2 [CreateOrder (entry_order d t); SymbolTicker (symbol t)]).
Proof.
  intros t Hside Horder Hticker. rewrite first_trade_run. fold t.
  rewrite Hside.
  destruct d; cbn [side_name String.eqb Ascii.eqb Bool.eqb].
  - rewrite enter_long_run. cbv zeta. fold t. now rewrite Horder, Hticker.
  - rewrite enter_short_run. cbv zeta. fold t. now rewrite Horder, Hticker.
Qed.

(** X3.  A price strictly between the hedge threshold and the take-profit
    threshold of the open position triggers nothing: the update records the
    price and makes no call on the venue. *)
Theorem price_inside_band_does_nothing
    (m : machine W) (p : Q) (time : Z) :
  let t := self m in
  (last_direction t = Some LONG /\ short_entry t < p /\ p < long_tp t)
  \/ (last_direction t = Some SHORT /\ p < long_entry t /\ short_tp t < p) ->
  stream_price client {| E := Some time; k_c := Some p |} m
  = (Return tt, with_self (with_close p t) m).
Proof.
  intros t H. rewrite stream_price_run, hedging_loop_run.
  cbv zeta. cbn [with_self self]. fold t.
  change (last_direction (with_close p t)) with (last_direction t).
  change (last_units (with_close p t)) with (last_units t).
  change (close (with_close p t)) with p.
  change (short_entry (with_close p t)) with (short_entry t).
  change (long_entry (with_close p t)) with (long_entry t).
  change (long_tp (with_close p t)) with (long_tp t).
  change (short_tp (with_close p t)) with (short_tp t).
  destruct H as [(-> & Hlow & Hhigh) | (-> & Hhigh & Hlow)].
  - apply Qle_bool_false_iff in Hlow, Hhigh. rewrite Hlow, Hhigh.
    now destruct (Qlt_bool 0 (last_units t)).
  - apply Qle_bool_false_iff in Hlow, Hhigh. rewrite Hlow, Hhigh.
    now destruct (Qlt_bool (last_units t) 0).
Qed.

(** X4.  A message without an event time or without a close price is dropped:
    the callback returns normally, makes no call and assigns nothing.  In
    particular a message that has a close price but no event time does not
    update [close], because the event time is read first. *)
Theorem malformed_message_is_dropped (msg : kline_msg) (m : machine W) :
  E msg = None \/ k_c msg = None ->
  stream_price client msg m = (Return tt, m)
  /\ forall feed,
       for_each (msg :: feed) (stream_price client) m
       = for_each feed (stream_price client) m.
Proof.
  intros H. pose proof (stream_price_malformed client msg m H) as Hdrop.
  split; [exact Hdrop|].
  intros feed. cbn [for_each]. unfold bind. now rewrite Hdrop.
Qed.

(** X5.  A trader with no direction never trades: whatever the feed, the venue
    is never called, and the direction, the exposure and the six levels stay
    as they are.  This is the state [__init__] builds and the state a failed
    re-entry leaves. *)
Theorem flat_trader_is_inert (feed : list kline_msg) (m : machine W) :
  last_direction (self m) = None ->
  let result := for_each feed (stream_price client) m in
  fst result = Return tt
  /\ calls (snd result) = calls m
  /\ world (snd result) = world m
  /\ engine_unchanged (self m) (self (snd result))
  /\ same_configuration (self m) (self (snd result)).
Proof.
  intros Hdir. cbv zeta. revert m Hdir.
  induction feed as [|msg feed IH]; intros m Hdir.
  - cbn [for_each ret fst snd].
    unfold engine_unchanged, same_levels, same_configuration.
    split_all; reflexivity.
  - cbn [for_each]. unfold bind.
    assert (Hmsg : exists t1,
               stream_price client msg m = (Return tt, with_self t1 m)
               /\ last_direction t1 = None
               /\ engine_unchanged (self m) t1
               /\ same_configuration (self m) t1).
    { destruct msg as [[time|] [p|]].
      - exists (with_close p (self m)). rewrite stream_price_run.
        rewrite hedging_loop_run. cbv zeta. cbn [with_self self].
        change (last_direction (with_close p (self m)))
          with (last_direction (self m)).
        rewrite Hdir. cbn [snd].
        unfold engine_unchanged, same_levels, same_configuration.
        split_all; reflexivity.
      - exists (self m). rewrite stream_price_malformed by (cbn; tauto).
        destruct m as [t w cs]. cbn [with_self self world calls].
        unfold engine_unchanged, same_levels, same_configuration.
        split_all; (reflexivity || exact Hdir).
      - exists (self m). rewrite stream_price_malformed by (cbn; tauto).
        destruct m as [t w cs]. cbn [with_self self world calls].
        unfold engine_unchanged, same_levels, same_configuration.
        split_all; (reflexivity || exact Hdir).
      - exists (self m). rewrite stream_price_malformed by (cbn; tauto).
        destruct m as [t w cs]. cbn [with_self self world calls].
        unfold engine_unchanged, same_levels, same_configuration.
        split_all; (reflexivity || exact Hdir). }
    destruct Hmsg as (t1 & -> & Hdir1 & Hengine & Hconfig).
    destruct (IH (with_self t1 m) Hdir1) as (Hret & Hcalls & Hworld & He & Hc).
    cbn [with_self self world calls] in *.
    split; [exact Hret|]. split; [exact Hcalls|]. split; [exact Hworld|].
    unfold engine_unchanged, same_levels, same_configuration in *.
    destruct Hengine as (? & ? & ? & ? & ? & ? & ? & ?).
    destruct He as (? & ? & ? & ? & ? & ? & ? & ?).
    destruct Hconfig as (? & ? & ? & ? & ? & ? & ? & ? & ? & ? & ? & ?).
    destruct Hc as (? & ? & ? & ? & ? & ? & ? & ? & ? & ? & ? & ?).
    split_all; congruence.
Qed.

End MoreEntries.

Section MoreUpdates.

Context {W : Type} (client : Gateway W).

Lemma take_profit_short_stranded (m m1 m2 : machine W) (e : exn) :
  close_all_positions client m = (Return tt, m1) ->
  first_trade client (with_self (flattened "SHORT" (self m1)) m1)
  = (Raise e, m2) ->
  take_profit_short client m = (Raise e, m2)
  /\ self m2 = flattened "SHORT" (self m).
Proof.
  intros Hclose Hfirst. rewrite take_profit_short_run, Hclose.
  split; [exact Hfirst|].
  pose proof (close_all_positions_self client m) as Hself.
  rewrite Hclose in Hself. cbn [snd] in Hself.
  rewrite first_trade_run in Hfirst. cbn [with_self self] in Hfirst.
  change (side (flattened "SHORT" (self m1))) with "SHORT"%string in Hfirst.
  cbn [String.eqb Ascii.eqb Bool.eqb] in Hfirst.
  rewrite enter_short_run in Hfirst. cbv zeta in Hfirst.
  cbn [with_self self world] in Hfirst. rewrite Hself in Hfirst.
  revert Hfirst. order_answer; [now intros [= _ <-]|].
  ticker_answer; [now intros [= _ <-]|discriminate].
Qed.

(** X6.  A take-profit whose positions were closed and whose re-entry fails (the
    order is rejected or the ticker query fails) is not rolled back: the
    callback returns normally and leaves the trader with no direction and no
    exposure, the six levels of the closed position, and [side] set to the
    side that took profit.  A trader without direction makes no further
    call, so the bot then stays idle for the rest of the feed. *)
Theorem failed_reentry_leaves_trader_flat
    (m m1 m2 : machine W) (p : Q) (time : Z) (e : exn) :
  let t := self m in
  let priced := with_self (with_close p t) m in
  let result := stream_price client {| E := Some time; k_c := Some p |} m in
  (last_direction t = Some LONG -> 0 < last_units t ->
   short_entry t < p -> long_tp t <= p ->
   close_all_positions client priced = (Return tt, m1) ->
   first_trade client (with_self (flattened "LONG" (self m1)) m1)
   = (Raise e, m2) ->
   result = (Return tt, m2)
   /\ self m2 = flattened "LONG" (with_close p t)
   /\ last_direction (self m2) = None /\ last_units (self m2) = 0
   /\ side (self m2) = "LONG"%string /\ same_levels t (self m2))
  /\ (last_direction t = Some SHORT -> last_units t < 0 ->
      p < long_entry t -> p <= short_tp t ->
      close_all_positions client priced = (Return tt, m1) ->
      first_trade client (with_self (flattened "SHORT" (self m1)) m1)
      = (Raise e, m2) ->
      result = (Return tt, m2)
      /\ self m2 = flattened "SHORT" (with_close p t)
      /\ last_direction (self m2) = None /\ last_units (self m2) = 0
      /\ side (self m2) = "SHORT"%string /\ same_levels t (self m2)).
Proof.
  intros t priced result. subst result priced t. split.
  - intros Hdir Hpos Hhedge Htp Hclose Hfirst.
    rewrite tick_take_profit_long by assumption.
    destruct (take_profit_long_stranded client _ m1 m2 e Hclose Hfirst)
      as (Hrun & Hself & _).
    rewrite Hrun. cbn [snd]. cbn [with_self self] in Hself.
    rewrite Hself. unfold same_levels. split_all; reflexivity.
  - intros Hdir Hneg Hhedge Htp Hclose Hfirst.
    rewrite tick_take_profit_short by assumption.
    destruct (take_profit_short_stranded _ m1 m2 e Hclose Hfirst)
      as (Hrun & Hself).
    rewrite Hrun. cbn [snd]. cbn [with_self self] in Hself.
    rewrite Hself. unfold same_levels. split_all; reflexivity.
Qed.

(** X7.  A hedge whose order is accepted but whose ticker query fails is
    abandoned with the trader unchanged, so the next price at or beyond the
    threshold sends the same hedge order again: the venue has received the
    hedge twice while the trader still tracks the position before it. *)
Theorem abandoned_hedge_is_sent_again
    (m : machine W) (p p' : Q) (time time' : Z)
    (o : order_response) (w1 : W) (e : exn) (w2 : W) :
  let t := self m in
  let m1 := snd (stream_price client {| E := Some time; k_c := Some p |} m) in
  let m2 :=
    snd (stream_price client {| E := Some time'; k_c := Some p' |} m1) in
  last_direction t = Some LONG -> 0 < last_units t ->
  p <= short_entry t -> p' <= short_entry t ->
  futures_create_order client (hedge_order SHORT t) (world m) = (inr o, w1) ->
  futures_symbol_ticker client (symbol t) w1 = (inl e, w2) ->
  self m1 = with_close p t
  /\ orders_of (calls m1) = orders_of (calls m) ++ [hedge_order SHORT t]
  /\ orders_of (calls m2)
     = orders_of (calls m) ++ [hedge_order SHORT t; hedge_order SHORT t].
Proof.
  intros t m1 m2 Hdir Hpos Hp Hp' Horder Hticker.
  assert (Hm1 : m1 = moved m (with_close p t) w2
                       [CreateOrder (hedge_order SHORT t);
                        SymbolTicker (symbol t)]).
  { subst m1. rewrite tick_hedge_short by assumption.
    rewrite hedge_short_run. cbv zeta. cbn [with_self self world].
    change (hedge_order SHORT (with_close p (self m)))
      with (hedge_order SHORT t).
    change (symbol (with_close p (self m))) with (symbol t).
    now rewrite Horder, Hticker. }
  assert (Hlog1 : orders_of (calls m1)
                  = orders_of (calls m) ++ [hedge_order SHORT t]).
  { rewrite Hm1. cbn [moved calls]. now rewrite orders_of_app. }
  split; [now rewrite Hm1|]. split; [exact Hlog1|].
  subst m2. rewrite tick_hedge_short;
    [|rewrite Hm1; assumption..].
  cbn [snd].
  destruct (hedge_short_calls client
              (with_self (with_close p' (self m1)) m1)) as [Hlog | Hlog];
    rewrite Hlog; cbn [with_self calls self]; rewrite orders_of_app, Hlog1;
    rewrite Hm1; cbn [moved self];
    change (hedge_order SHORT (with_close p' (with_close p t)))
      with (hedge_order SHORT t);
    cbn [orders_of]; now rewrite <- app_assoc.
Qed.

End MoreUpdates.

(** ** Invariants of a whole run *)

Section Runs2.

Context {W : Type} (client : Gateway W).

(** A property of the trader that [first_trade] and the callback keep is
    kept by a feed and by [start_trading]. *)
Lemma feed_preserves (I : Trader -> Prop) :
  (forall msg m, I (self m) -> I (self (snd (stream_price client msg m)))) ->
  forall feed m,
    I (self m) -> I (self (snd (for_each feed (stream_price client) m))).
Proof.
  intros Hmsg feed. induction feed as [|msg feed IH]; intros m Hm;
    [exact Hm|].
  cbn [for_each]. unfold bind.
  pose proof (Hmsg msg m Hm) as H1.
  destruct (stream_price client msg m) as [[a | e] m1]; cbn [snd] in *.
  - now apply IH.
  - exact H1.
Qed.

Lemma ensure_dual_side_self (m : machine W) :
  fst (ensure_dual_side client m) = Return tt
  /\ self (snd (ensure_dual_side client m)) = self m.
Proof.
  unfold ensure_dual_side. rewrite swallow_run. cbn [fst snd].
  split; [reflexivity|].
  unfold bind, get_position_mode, change_position_mode.
  pose proof (client_call_self GetPositionMode
                (futures_get_position_mode client) m) as Hget.
  destruct (client_call GetPositionMode _ m) as [[mode | e] m2];
    cbn [snd] in *; [|exact Hget].
  destruct mode; cbn [negb]; [exact Hget|].
  rewrite client_call_self. exact Hget.
Qed.

(** [start_trading], step by step. *)
Lemma start_trading_run (feed : list kline_msg) (m : machine W) :
  start_trading client feed m =
  let t := self m in
  let request := ChangeLeverage (symbol t) (leverage t) in
  match futures_change_leverage client (symbol t) (leverage t) (world m) with
  | (inl e, w1) => (Raise e, moved m t w1 [request])
  | (inr _, w1) =>
      match first_trade client
              (snd (ensure_dual_side client (moved m t w1 [request]))) with
      | (Return _, m3) => for_each feed (stream_price client) m3
      | (Raise e, m3) => (Raise e, m3)
      end
  end.
Proof.
  unfold start_trading. unfold bind at 1, get_self at 1.
  unfold bind at 1. unfold change_leverage, client_call at 1. cbv zeta.
  destruct (futures_change_leverage client _ _ _) as [[e | []] w1];
    [reflexivity|].
  unfold bind at 1. fold (ensure_dual_side client).
  pose proof (ensure_dual_side_self
                (moved m (self m) w1
                   [ChangeLeverage (symbol (self m)) (leverage (self m))]))
    as [Hret _].
  unfold moved in *.
  destruct (ensure_dual_side client _) as [[[] | e] m2]; cbn [fst snd] in *;
    [|discriminate].
  unfold bind. now destruct (first_trade client m2) as [[[] | e] m3].
Qed.

Lemma start_trading_preserves (I : Trader -> Prop) :
  (forall m, I (self m) -> I (self (snd (first_trade client m)))) ->
  (forall msg m, I (self m) -> I (self (snd (stream_price client msg m)))) ->
  forall feed m,
    I (self m) -> I (self (snd (start_trading client feed m))).
Proof.
  intros Hfirst Hmsg feed m Hm. rewrite start_trading_run. cbv zeta.
  destruct (futures_change_leverage client _ _ _) as [[e | u] w1];
    [exact Hm|].
  pose proof (ensure_dual_side_self
                (moved m (self m) w1
                   [ChangeLeverage (symbol (self m)) (leverage (self m))]))
    as [_ Hself].
  cbn [moved self] in Hself.
  pose proof (Hfirst (snd (ensure_dual_side client
                             (moved m (self m) w1
                                [ChangeLeverage (symbol (self m))
                                   (leverage (self m))])))) as H1.
  rewrite Hself in H1. specialize (H1 Hm).
  destruct (first_trade client _) as [[a | e] m3]; cbn [snd] in *.
  - now apply feed_preserves.
  - exact H1.
Qed.

Lemma transition_same_configuration (t t' : Trader) :
  transition t t' -> same_configuration t t'.
Proof.
  intros Hstep. unfold same_configuration.
  destruct Hstep; split_all; reflexivity.
Qed.

Lemma same_configuration_trans (t1 t2 t3 : Trader) :
  same_configuration t1 t2 -> same_configuration t2 t3 ->
  same_configuration t1 t3.
Proof.
  unfold same_configuration.
  intros (? & ? & ? & ? & ? & ? & ? & ? & ? & ? & ? & ?)
         (? & ? & ? & ? & ? & ? & ? & ? & ? & ? & ? & ?).
  split_all; congruence.
Qed.

Lemma first_trade_same_configuration (m : machine W) :
  same_configuration (self m) (self (snd (first_trade client m))).
Proof.
  pose proof (first_trade_self client m) as H. cbv zeta in H.
  unfold same_configuration.
  destruct H as [-> | [[_ [p ->]] | [_ [p ->]]]]; split_all; reflexivity.
Qed.

Lemma stream_price_same_configuration (msg : kline_msg) (m : machine W) :
  same_configuration (self m) (self (snd (stream_price client msg m))).
Proof.
  destruct msg as [[time|] [p|]];
    try (rewrite stream_price_malformed by (cbn; tauto);
         unfold same_configuration; split_all; reflexivity).
  rewrite stream_price_run.
  apply (same_configuration_trans _ (with_close p (self m))).
  - unfold same_configuration. split_all; reflexivity.
  - apply transition_same_configuration.
    apply (hedging_loop_transition client
             (with_self (with_close p (self m)) m)).
Qed.

Lemma run_same_configuration (feed : list kline_msg) (m : machine W) :
  same_configuration (self m)
    (self (snd (for_each feed (stream_price client) m)))
  /\ same_configuration (self m) (self (snd (start_trading client feed m))).
Proof.
  assert (Hrefl : same_configuration (self m) (self m)).
  { unfold same_configuration. split_all; reflexivity. }
  split.
  - apply (feed_preserves (same_configuration (self m))); [|exact Hrefl].
    intros msg m1 H1.
    exact (same_configuration_trans _ _ _ H1
             (stream_price_same_configuration msg m1)).
  - apply (start_trading_preserves (same_configuration (self m)));
      [| |exact Hrefl].
    + intros m1 H1.
      exact (same_configuration_trans _ _ _ H1
               (first_trade_same_configuration m1)).
    + intros msg m1 H1.
      exact (same_configuration_trans _ _ _ H1
               (stream_price_same_configuration msg m1)).
Qed.

(** X8.  The configuration is immutable over a run: whatever the venue answers
    and whatever the feed, [start_trading] and the callback leave the
    symbol, the bar length, [base_units], [int_units], the leverage,
    [cum_profits] and the six offsets as [__init__] set them.  ([side] is
    not part of it: a take-profit assigns it.) *)
Theorem configuration_is_never_assigned
    (feed : list kline_msg) (m : machine W) :
  same_configuration (self m)
    (self (snd (for_each feed (stream_price client) m)))
  /\ same_configuration (self m) (self (snd (start_trading client feed m))).
Proof. exact (run_same_configuration feed m). Qed.

End Runs2.

Lemma Qpower_two_succ (k : nat) :
  2 ^ Z.of_nat (S k) == 2 * 2 ^ Z.of_nat k.
Proof.
  rewrite Nat2Z.inj_succ. unfold Z.succ.
  rewrite Qpower_plus by discriminate.
  change (2 ^ 1) with 2. ring.
Qed.

Lemma transition_grid_sized (t t' : Trader) :
  transition t t' -> grid_sized t -> grid_sized t'.
Proof.
  intros Hstep Hgrid. unfold grid_sized in *.
  destruct Hstep as [ | p Hdir Hpos _ | p _ _ _ _ | _ _ _ _
                    | p Hdir Hneg _ | p _ _ _ _ | _ _ _ _ ].
  - exact Hgrid.
  - right. destruct Hgrid as [Hzero | [k Hk]]; [lra|].
    exists (S k).
    change (last_units (hedged_short p t)) with (last_units t * 2 * -1).
    change (int_units (hedged_short p t)) with (int_units t).
    rewrite Qabs_double_flip, Hk, Qpower_two_succ. ring.
  - right. exists 0%nat.
    change (last_units (entered_long p (flattened "LONG" t)))
      with (int_units t).
    change (int_units (entered_long p (flattened "LONG" t)))
      with (int_units t).
    change (2 ^ Z.of_nat 0) with 1. ring.
  - left. reflexivity.
  - right. destruct Hgrid as [Hzero | [k Hk]]; [lra|].
    exists (S k).
    change (last_units (hedged_long p t)) with (last_units t * 2 * -1).
    change (int_units (hedged_long p t)) with (int_units t).
    rewrite Qabs_double_flip, Hk, Qpower_two_succ. ring.
  - right. exists 0%nat.
    change (last_units (entered_short p (flattened "SHORT" t)))
      with (int_units t * -1).
    change (int_units (entered_short p (flattened "SHORT" t)))
      with (int_units t).
    rewrite Qabs_Qmult. change (Qabs (-1)) with 1.
    change (2 ^ Z.of_nat 0) with 1. ring.
  - left. reflexivity.
Qed.

Section Grid.

Context {W : Type} (client : Gateway W).

Lemma first_trade_grid_sized (m : machine W) :
  grid_sized (self m) -> grid_sized (self (snd (first_trade client m))).
Proof.
  intros Hgrid. pose proof (first_trade_self client m) as H. cbv zeta in H.
  destruct H as [-> | [[_ [p ->]] | [_ [p ->]]]]; [exact Hgrid| |];
    right; exists 0%nat.
  - change (last_units (entered_long p (self m))) with (int_units (self m)).
    change (int_units (entered_long p (self m))) with (int_units (self m)).
    change (2 ^ Z.of_nat 0) with 1. ring.
  - change (last_units (entered_short p (self m)))
      with (int_units (self m) * -1).
    change (int_units (entered_short p (self m))) with (int_units (self m)).
    rewrite Qabs_Qmult. change (Qabs (-1)) with 1.
    change (2 ^ Z.of_nat 0) with 1. ring.
Qed.

Lemma stream_price_grid_sized (msg : kline_msg) (m : machine W) :
  grid_sized (self m) ->
  grid_sized (self (snd (stream_price client msg m))).
Proof.
  intros Hgrid.
  destruct msg as [[time|] [p|]];
    try (rewrite stream_price_malformed by (cbn; tauto); exact Hgrid).
  rewrite stream_price_run.
  apply (transition_grid_sized (with_close p (self m))).
  - apply (hedging_loop_transition client
             (with_self (with_close p (self m)) m)).
  - exact Hgrid.
Qed.

(** X9.  The tracked exposure only takes the values of the doubling grid: from
    the trader [__init__] builds, on any venue and after any feed, with or
    without the first trade of [start_trading], [last_units] is zero or its
    magnitude is the entry size times a power of two. *)
Theorem exposure_stays_on_doubling_grid
    (w : W) (symbol0 bar_length0 : string) (units : Q) (leverage0 : Z)
    (side0 : string)
    (long_entry_add0 short_entry_deduct0 long_tp_add0 long_sl_deduct0
       short_tp_deduct0 short_sl_add0 : Q)
    (feed : list kline_msg) :
  let m0 :=
    boot (init symbol0 bar_length0 units leverage0 side0
            long_entry_add0 short_entry_deduct0 long_tp_add0 long_sl_deduct0
            short_tp_deduct0 short_sl_add0) w in
  let sized (m : machine W) :=
    last_units (self m) == 0
    \/ exists k : nat,
         Qabs (last_units (self m)) == Qabs units * 2 ^ Z.of_nat k in
  sized (snd (for_each feed (stream_price client) m0))
  /\ sized (snd (start_trading client feed m0)).
Proof.
  intros m0 sized.
  assert (Hinit : grid_sized (self m0)) by (left; reflexivity).
  assert (Hunits : forall m,
             same_configuration (self m0) (self m) ->
             grid_sized (self m) -> sized m).
  { intros m (_ & _ & _ & Hsize & _) Hgrid. unfold sized.
    unfold grid_sized in Hgrid. rewrite Hsize in Hgrid. exact Hgrid. }
  destruct (run_same_configuration client feed m0)
    as [Hfeed Hstart].
  split; apply Hunits; try assumption.
  - apply (feed_preserves client grid_sized); [|exact Hinit].
    apply stream_price_grid_sized.
  - apply (start_trading_preserves client grid_sized); [| |exact Hinit].
    + apply first_trade_grid_sized.
    + apply stream_price_grid_sized.
Qed.

End Grid.

(** ** The calls of a run *)

Lemma Forall_firstn {A : Type} (P : A -> Prop) (n : nat) (l : list A) :
  Forall P l -> Forall P (firstn n l).
Proof.
  intros H. revert n. induction H as [|x l Hx _ IH]; intros [|n];
    cbn [firstn]; constructor; auto.
Qed.

Lemma closing_calls_trading (s : string) (ps : list position) :
  Forall (trading_call s) (closing_calls s ps).
Proof.
  unfold closing_calls. induction ps as [|pos ps IH]; [constructor|].
  cbn [filter]. destruct (closable pos) eqn:Hpos; [|exact IH].
  cbn [map]. constructor; [|exact IH].
  apply closable_iff in Hpos. unfold trading_call, closing_order.
  destruct ((positionSide pos =? "LONG")%string
            && Qlt_bool 0 (positionAmt pos));
    cbn [o_symbol o_quantity]; (split; [reflexivity|]);
    destruct Hpos as [[_ H] | [_ H]];
    apply Qabs_case; intros; lra.
Qed.

Section Log.

Context {W : Type} (client : Gateway W).

Lemma logged_refl (P : call -> Prop) (m : machine W) : logged P m m.
Proof. exists []. split; [now rewrite app_nil_r | constructor]. Qed.

Lemma logged_trans (P : call -> Prop) (m1 m2 m3 : machine W) :
  logged P m1 m2 -> logged P m2 m3 -> logged P m1 m3.
Proof.
  intros (cs1 & H1 & F1) (cs2 & H2 & F2). exists (cs1 ++ cs2). split.
  - now rewrite H2, H1, app_assoc.
  - apply Forall_app. now split.
Qed.

Lemma logged_moved (P : call -> Prop) (m : machine W) t w cs :
  Forall P cs -> logged P m (moved m t w cs).
Proof. intros H. exists cs. now split. Qed.

Lemma close_all_positions_logged (m : machine W) :
  logged (trading_call (symbol (self m))) m
    (snd (close_all_positions client m)).
Proof.
  rewrite close_all_positions_run. cbv zeta.
  destruct (futures_position_information client _ _) as [[e | ps] w0].
  - apply logged_moved. repeat constructor.
  - destruct (for_each_close_prefix client ps
                (moved m (self m) w0 [PositionInformation (symbol (self m))]))
      as [n Hn].
    exists (PositionInformation (symbol (self m))
              :: firstn n (closing_calls (symbol (self m)) ps)).
    split.
    + rewrite Hn. cbn [moved calls self]. now rewrite <- app_assoc.
    + constructor; [reflexivity|].
      apply Forall_firstn, closing_calls_trading.
Qed.

Lemma first_trade_logged (m : machine W) :
  0 < int_units (self m) ->
  logged (trading_call (symbol (self m))) m (snd (first_trade client m)).
Proof.
  intros Hunits. rewrite first_trade_run.
  destruct (side (self m) =? "LONG")%string.
  - rewrite enter_long_run. cbv zeta.
    order_answer; [|ticker_answer]; apply logged_moved;
      repeat constructor; assumption.
  - destruct (side (self m) =? "SHORT")%string; [|apply logged_refl].
    rewrite enter_short_run. cbv zeta.
    order_answer; [|ticker_answer]; apply logged_moved;
      repeat constructor; assumption.
Qed.

Lemma hedge_logged (d : direction) (m : machine W) :
  ~ last_units (self m) == 0 ->
  logged (trading_call (symbol (self m))) m
    (snd (match d with
          | LONG => hedge_long client m
          | SHORT => hedge_short client m
          end)).
Proof.
  intros Hunits.
  assert (Hqty : 0 < Qabs (last_units (self m) * 2)).
  { rewrite Qabs_double. apply Qabs_case; intros; lra. }
  destruct d; [rewrite hedge_long_run | rewrite hedge_short_run]; cbv zeta;
    (order_answer; [|ticker_answer]); apply logged_moved;
    repeat constructor; assumption.
Qed.

Lemma take_profit_logged (s : string) (m : machine W) :
  0 < int_units (self m) ->
  logged (trading_call (symbol (self m))) m
    (snd (match close_all_positions client m with
          | (Return _, m1) =>
              first_trade client (with_self (flattened s (self m1)) m1)
          | (Raise e, m1) => (Raise e, m1)
          end)).
Proof.
  intros Hunits.
  pose proof (close_all_positions_logged m) as Hlog.
  pose proof (close_all_positions_self client m) as Hself.
  destruct (close_all_positions client m) as [[a | e] m1]; cbn [snd] in *;
    [|exact Hlog].
  apply (logged_trans _ _ _ _ Hlog).
  pose proof (first_trade_logged (with_self (flattened s (self m1)) m1))
    as Hfirst.
  cbn [with_self self] in Hfirst. rewrite Hself in Hfirst |- *.
  exact (Hfirst Hunits).
Qed.

Lemma stream_price_logged (msg : kline_msg) (m : machine W) :
  0 < int_units (self m) ->
  logged (trading_call (symbol (self m))) m
    (snd (stream_price client msg m)).
Proof.
  intros Hunits.
  destruct msg as [[time|] [p|]];
    try (rewrite stream_price_malformed by (cbn; tauto);
         apply logged_refl).
  rewrite stream_price_run, hedging_loop_run. cbv zeta. cbn [snd].
  set (priced := with_self (with_close p (self m)) m).
  assert (Hstep : forall m',
             logged (trading_call (symbol (self priced))) priced m' ->
             logged (trading_call (symbol (self m))) m m') by (intros; auto).
  apply Hstep.
  destruct (last_direction (self priced)) as [[|]|]; [| |apply logged_refl].
  - destruct (Qlt_bool 0 (last_units (self priced))) eqn:Hpos;
      [|apply logged_refl].
    apply Qlt_bool_iff in Hpos.
    destruct (Qle_bool (close (self priced)) (short_entry (self priced))).
    + apply (hedge_logged SHORT). intros Hzero. rewrite Hzero in Hpos.
      now apply Qlt_irrefl in Hpos.
    + destruct (Qle_bool (long_tp (self priced)) (close (self priced)));
        [|apply logged_refl].
      rewrite take_profit_long_run. now apply take_profit_logged.
  - destruct (Qlt_bool (last_units (self priced)) 0) eqn:Hneg;
      [|apply logged_refl].
    apply Qlt_bool_iff in Hneg.
    destruct (Qle_bool (long_entry (self priced)) (close (self priced))).
    + apply (hedge_logged LONG). intros Hzero. rewrite Hzero in Hneg.
      now apply Qlt_irrefl in Hneg.
    + destruct (Qle_bool (close (self priced)) (short_tp (self priced)));
        [|apply logged_refl].
      rewrite take_profit_short_run. now apply take_profit_logged.
Qed.

Lemma feed_logged (feed : list kline_msg) (m : machine W) :
  0 < int_units (self m) ->
  logged (trading_call (symbol (self m))) m
    (snd (for_each feed (stream_price client) m)).
Proof.
  revert m. induction feed as [|msg feed IH]; intros m Hunits;
    [apply logged_refl|].
  cbn [for_each]. unfold bind.
  pose proof (stream_price_logged msg m Hunits) as Hmsg.
  pose proof (stream_price_same_configuration client msg m)
    as (Hsymbol & _ & _ & Hsize & _).
  destruct (stream_price client msg m) as [[a | e] m1]; cbn [snd] in *;
    [|exact Hmsg].
  apply (logged_trans _ _ _ _ Hmsg).
  rewrite <- Hsymbol. apply IH. now rewrite Hsize.
Qed.

(** X10.  With a positive entry size, the only calls the price callback ever
    makes are orders, ticker queries and position queries on the trader's
    symbol, and every order it sends has a strictly positive quantity: over
    any feed it never changes the leverage or the position mode and never
    sends an empty or negative order. *)
Theorem callback_sends_only_positive_orders
    (feed : list kline_msg) (m : machine W) :
  0 < int_units (self m) ->
  exists cs,
    calls (snd (for_each feed (stream_price client) m)) = calls m ++ cs
    /\ Forall (trading_call (symbol (self m))) cs
    /\ Forall (fun request =>
                 o_symbol request = symbol (self m)
                 /\ 0 < o_quantity request)
         (orders_of cs).
Proof.
  intros Hunits. destruct (feed_logged feed m Hunits) as (cs & Hcalls & Hcs).
  exists cs. split; [exact Hcalls|]. split; [exact Hcs|].
  clear Hcalls. induction Hcs as [|c cs Hc _ IH]; [constructor|].
  destruct c; cbn [orders_of]; try exact IH.
  constructor; [exact Hc | exact IH].
Qed.

End Log.

(** ** Closing and starting *)

Section CloseStart.

Context {W : Type} (client : Gateway W).

Lemma close_position_ignores_tracking
    (pos : position) (t2 : Trader) (m : machine W) :
  symbol t2 = symbol (self m) ->
  close_position client pos (with_self t2 m)
  = (fst (close_position client pos m),
     with_self t2 (snd (close_position client pos m))).
Proof.
  intros Hsymbol. rewrite !close_position_run.
  destruct (closable pos); [|reflexivity]. cbv zeta.
  cbn [with_self self world]. rewrite Hsymbol.
  now order_answer.
Qed.

Lemma for_each_close_ignores_tracking
    (ps : list position) (t2 : Trader) (m : machine W) :
  symbol t2 = symbol (self m) ->
  for_each ps (close_position client) (with_self t2 m)
  = (fst (for_each ps (close_position client) m),
     with_self t2 (snd (for_each ps (close_position client) m))).
Proof.
  revert m. induction ps as [|pos ps IH]; intros m Hsymbol; [reflexivity|].
  cbn [for_each]. unfold bind.
  rewrite (close_position_ignores_tracking pos t2 m Hsymbol).
  pose proof (close_position_self client pos m) as Hself.
  destruct (close_position client pos m) as [[a | e] m1]; cbn [fst snd] in *;
    [|reflexivity].
  apply IH. now rewrite Hself.
Qed.

(** X12.  [close_all_positions] reads nothing of the trader but its symbol: the
    outcome, the orders and the venue are the same whatever exposure,
    direction and levels the trader tracks, so it closes what the venue
    reports even when the tracked exposure has drifted from it. *)
Theorem close_all_positions_ignores_tracking (t2 : Trader) (m : machine W) :
  symbol t2 = symbol (self m) ->
  close_all_positions client (with_self t2 m)
  = (fst (close_all_positions client m),
     with_self t2 (snd (close_all_positions client m))).
Proof.
  intros Hsymbol. rewrite !close_all_positions_run. cbv zeta.
  cbn [with_self self world]. rewrite Hsymbol.
  destruct (futures_position_information client _ _) as [[e | ps] w0];
    [reflexivity|].
  apply (for_each_close_ignores_tracking ps t2
           (moved m (self m) w0 [PositionInformation (symbol (self m))])).
  exact Hsymbol.
Qed.

(** X13.  A failure to set the leverage is fatal: [start_trading] raises it at
    once, with no position-mode call, no order and no message of the feed
    processed, and the trader as [__init__] built it. *)
Theorem leverage_failure_stops_start_trading
    (feed : list kline_msg) (m : machine W) (e : exn) (w1 : W) :
  let t := self m in
  futures_change_leverage client (symbol t) (leverage t) (world m)
  = (inl e, w1) ->
  start_trading client feed m
  = (Raise e, moved m t w1 [ChangeLeverage (symbol t) (leverage t)]).
Proof.
  intros t Hleverage. rewrite start_trading_run. cbv zeta. fold t.
  now rewrite Hleverage.
Qed.

(** X14.  The position-mode block of [start_trading] never raises and never
    assigns an attribute.  It asks for the mode once; it switches to
    dual-side mode only when the venue answers that the mode is off; when
    the mode is already on, or when the query fails, it makes no switch; a
    refused switch is swallowed as well. *)
Theorem position_mode_is_switched_only_when_off (m : machine W) :
  let t := self m in
  let result := ensure_dual_side client m in
  fst result = Return tt
  /\ self (snd result) = t
  /\ (forall w1,
        futures_get_position_mode client (world m) = (inr true, w1) ->
        result = (Return tt, moved m t w1 [GetPositionMode]))
  /\ (forall e w1,
        futures_get_position_mode client (world m) = (inl e, w1) ->
        result = (Return tt, moved m t w1 [GetPositionMode]))
  /\ (forall w1 answer w2,
        futures_get_position_mode client (world m) = (inr false, w1) ->
        futures_change_position_mode client true w1 = (answer, w2) ->
        result
        = (Return tt,
           moved m t w2 [GetPositionMode; ChangePositionMode true])).
Proof.
  intros t result. subst result t.
  destruct (ensure_dual_side_self client m) as [Hret Hself].
  split; [exact Hret|]. split; [exact Hself|].
  unfold ensure_dual_side. rewrite swallow_run.
  unfold bind, get_position_mode, change_position_mode, client_call, moved.
  split_all.
  - intros w1 ->. reflexivity.
  - intros e w1 ->. reflexivity.
  - intros w1 answer w2 ->. cbn [negb world self calls]. intros ->.
    cbn [snd]. rewrite <- app_assoc. now destruct answer.
Qed.

(** X15.  When the first trade of [start_trading] fails, [start_trading] raises
    its exception and the price socket is never started: the result is the
    one of the first trade, whatever the feed would have been. *)
Theorem failed_first_trade_stops_start_trading
    (feed : list kline_msg) (m : machine W) (u : unit) (w1 : W)
    (e : exn) (m3 : machine W) :
  let t := self m in
  let ready :=
    snd (ensure_dual_side client
           (moved m t w1 [ChangeLeverage (symbol t) (leverage t)])) in
  futures_change_leverage client (symbol t) (leverage t) (world m)
  = (inr u, w1) ->
  first_trade client ready = (Raise e, m3) ->
  start_trading client feed m = (Raise e, m3)
  /\ start_trading client [] m = (Raise e, m3).
Proof.
  intros t ready Hleverage Hfirst. rewrite !start_trading_run. cbv zeta.
  fold t. rewrite Hleverage. fold ready. now rewrite Hfirst.
Qed.

(** X16.  When the leverage is set and the first trade returns, [start_trading]
    is the setup followed by the feed: the callback runs on each message in
    order, from the machine the first trade left. *)
Theorem start_trading_runs_feed_after_first_trade
    (feed : list kline_msg) (m : machine W) (u : unit) (w1 : W)
    (m3 : machine W) :
  let t := self m in
  let ready :=
    snd (ensure_dual_side client
           (moved m t w1 [ChangeLeverage (symbol t) (leverage t)])) in
  futures_change_leverage client (symbol t) (leverage t) (world m)
  = (inr u, w1) ->
  first_trade client ready = (Return tt, m3) ->
  start_trading client feed m = for_each feed (stream_price client) m3
  /\ fst (start_trading client feed m) = Return tt.
Proof.
  intros t ready Hleverage Hfirst. rewrite !start_trading_run. cbv zeta.
  fold t. rewrite Hleverage. fold ready. rewrite Hfirst.
  split; [reflexivity|].
  clear Hfirst. revert m3. induction feed as [|msg feed IH]; intros m3;
    [reflexivity|].
  cbn [for_each]. unfold bind.
  pose proof (swallow_run
                (event_time <- field "E" (E msg) ;;
                 close0 <- field "c" (k_c msg) ;;
                 assign (with_close close0) ;;
                 hedging_loop client) "Error in stream_price" m3) as Hmsg.
  fold (stream_price client msg) in Hmsg. rewrite Hmsg. apply IH.
Qed.

End CloseStart.

(** ** The further properties on concrete runs *)

(** Proving the premises of [H] by evaluation, one after the other. *)
Ltac discharge H :=
  repeat match type of H with
         | ?A -> _ =>
             let Ha := fresh "Ha" in
             assert (Ha : A) by evaluate; specialize (H Ha)
         end.

(** The bot of the [__main__] block with the side ["BOTH"]. *)
Lemma first_trade_unknown_side_does_nothing_witness :
  let m := boot (with_side "BOTH" main_trader) (healthy 50000 []) in
  side (self m) <> "LONG"%string /\ side (self m) <> "SHORT"%string
  /\ first_trade scripted m = (Return tt, m).
Proof.
  cbv zeta.
  assert (Hlong : side (self (boot (with_side "BOTH" main_trader)
                                (healthy 50000 []))) <> "LONG"%string)
    by evaluate.
  assert (Hshort : side (self (boot (with_side "BOTH" main_trader)
                                 (healthy 50000 []))) <> "SHORT"%string)
    by evaluate.
  split; [exact Hlong|]. split; [exact Hshort|].
  exact (first_trade_unknown_side_does_nothing scripted _ Hlong Hshort).
Defined.

(** The bot of the [__main__] block on a venue whose ticker is down: the
    order is in the log and the trader is the one [__init__] built. *)
Lemma first_trade_ticker_failure_after_order_witness :
  let m := boot main_trader (silent []) in
  fst (first_trade scripted m) = Raise (Exception "ticker unavailable")
  /\ self (snd (first_trade scripted m)) = main_trader
  /\ orders_of (calls (snd (first_trade scripted m)))
     = [entry_order LONG main_trader].
Proof.
  cbv zeta.
  answered Horder
    (futures_create_order scripted
       (entry_order LONG (self (boot main_trader (silent []))))
       (world (boot main_trader (silent [])))).
  match type of Horder with
  | _ = (inr ?o, ?w1) =>
      pose proof (first_trade_ticker_failure_after_order scripted
                    (boot main_trader (silent [])) LONG o w1
                    (Exception "ticker unavailable") w1) as H
  end.
  cbv zeta in H. discharge H. rewrite H.
  split_all; reflexivity.
Defined.

(** After scenario A the price 50000 lies between 49800 and 50400. *)
Lemma price_inside_band_does_nothing_witness :
  let m := with_world (healthy 50000 []) scenario_A in
  (last_direction (self m) = Some LONG /\ short_entry (self m) < 50000
   /\ 50000 < long_tp (self m))
  /\ stream_price scripted {| E := Some 0%Z; k_c := Some 50000 |} m
     = (Return tt, with_self (with_close 50000 (self m)) m).
Proof.
  cbv zeta.
  assert (H : last_direction
                (self (with_world (healthy 50000 []) scenario_A))
              = Some LONG
              /\ short_entry (self (with_world (healthy 50000 []) scenario_A))
                 < 50000
              /\ 50000
                 < long_tp (self (with_world (healthy 50000 []) scenario_A))).
  { split_all; evaluate. }
  split; [exact H|].
  exact (price_inside_band_does_nothing scripted _ 50000 0 (or_introl H)).
Defined.

(** After scenario A a message with the close price 49800 and no event
    time: the hedge threshold is reached but nothing happens, and [close]
    keeps its value. *)
Lemma malformed_message_is_dropped_witness :
  let msg := {| E := None; k_c := Some 49800 |} in
  (E msg = None \/ k_c msg = None)
  /\ stream_price scripted msg scenario_A = (Return tt, scenario_A).
Proof.
  cbv zeta.
  assert (H : E {| E := None; k_c := Some 49800 |} = None
              \/ k_c {| E := None; k_c := Some 49800 |} = None)
    by (left; reflexivity).
  split; [exact H|].
  exact (proj1 (malformed_message_is_dropped scripted _ scenario_A H)).
Defined.

(** The trader [__init__] built, before any first trade, on a feed that
    crosses every threshold. *)
Lemma flat_trader_is_inert_witness :
  let m := boot main_trader (healthy 50000 []) in
  let feed := [ {| E := Some 0%Z; k_c := Some 49800 |};
                {| E := Some 1%Z; k_c := Some 50400 |};
                {| E := Some 2%Z; k_c := Some 0 |} ] in
  last_direction (self m) = None
  /\ fst (for_each feed (stream_price scripted) m) = Return tt
  /\ calls (snd (for_each feed (stream_price scripted) m)) = calls m
  /\ world (snd (for_each feed (stream_price scripted) m)) = world m.
Proof.
  cbv zeta.
  pose proof (flat_trader_is_inert scripted
                [ {| E := Some 0%Z; k_c := Some 49800 |};
                  {| E := Some 1%Z; k_c := Some 50400 |};
                  {| E := Some 2%Z; k_c := Some 0 |} ]
                (boot main_trader (healthy 50000 [])) eq_refl) as H.
  cbv zeta in H. destruct H as (Hret & Hcalls & Hworld & _).
  split; [reflexivity|]. split; [exact Hret|].
  split; [exact Hcalls | exact Hworld].
Defined.

(** After scenario A the price reaches 50400 on a venue that answers the
    position query and rejects the re-entry order. *)
Lemma failed_reentry_leaves_trader_flat_witness :
  let m := with_world (rejecting 50400 []) scenario_A in
  let result :=
    stream_price scripted {| E := Some 0%Z; k_c := Some 50400 |} m in
  fst result = Return tt
  /\ last_direction (self (snd result)) = None
  /\ last_units (self (snd result)) = 0
  /\ same_levels (self m) (self (snd result)).
Proof.
  cbv zeta.
  answered Hclose
    (close_all_positions scripted
       (with_self
          (with_close 50400
             (self (with_world (rejecting 50400 []) scenario_A)))
          (with_world (rejecting 50400 []) scenario_A))).
  match type of Hclose with
  | _ = (_, ?m1) =>
      answered Hfirst
        (first_trade scripted (with_self (flattened "LONG" (self m1)) m1));
      match type of Hfirst with
      | _ = (Raise ?e, ?m2) =>
          pose proof (failed_reentry_leaves_trader_flat scripted
                        (with_world (rejecting 50400 []) scenario_A)
                        m1 m2 50400 0 e) as H
      end
  end.
  cbv zeta in H. destruct H as [H _]. discharge H.
  destruct H as (Hrun & _ & Hdir & Hunits & _ & Hlevels).
  rewrite Hrun. cbn [fst snd].
  split; [reflexivity|]. split; [exact Hdir|].
  split; [exact Hunits | exact Hlevels].
Defined.

(** After scenario A the prices 49800 and 49700 arrive while the ticker of
    the venue is down: two hedge orders of 0.6 are sent. *)
Lemma abandoned_hedge_is_sent_again_witness :
  let m := with_world (silent []) scenario_A in
  let m1 :=
    snd (stream_price scripted {| E := Some 0%Z; k_c := Some 49800 |} m) in
  let m2 :=
    snd (stream_price scripted {| E := Some 1%Z; k_c := Some 49700 |} m1) in
  self m1 = with_close 49800 (self m)
  /\ orders_of (calls m2)
     = orders_of (calls m)
       ++ [hedge_order SHORT (self m); hedge_order SHORT (self m)].
Proof.
  cbv zeta.
  answered Horder
    (futures_create_order scripted
       (hedge_order SHORT (self (with_world (silent []) scenario_A)))
       (world (with_world (silent []) scenario_A))).
  match type of Horder with
  | _ = (inr ?o, ?w1) =>
      pose proof (abandoned_hedge_is_sent_again scripted
                    (with_world (silent []) scenario_A) 49800 49700 0 1
                    o w1 (Exception "ticker unavailable") w1) as H
  end.
  cbv zeta in H. discharge H. destruct H as (Hself & _ & Hlog).
  split; [exact Hself | exact Hlog].
Defined.

(** After scenario A, a hedge at 49800 and a take-profit at 49000. *)
Lemma callback_sends_only_positive_orders_witness :
  let m := with_world (healthy 49800 []) scenario_A in
  let feed := [ {| E := Some 0%Z; k_c := Some 49800 |};
                {| E := Some 1%Z; k_c := Some 49000 |} ] in
  0 < int_units (self m)
  /\ exists cs,
       calls (snd (for_each feed (stream_price scripted) m)) = calls m ++ cs
       /\ Forall (trading_call (symbol (self m))) cs
       /\ Forall (fun request =>
                    o_symbol request = symbol (self m)
                    /\ 0 < o_quantity request)
            (orders_of cs).
Proof.
  cbv zeta.
  assert (Hunits : 0 < int_units
                         (self (with_world (healthy 49800 []) scenario_A)))
    by evaluate.
  split; [exact Hunits|].
  exact (callback_sends_only_positive_orders scripted
           [ {| E := Some 0%Z; k_c := Some 49800 |};
             {| E := Some 1%Z; k_c := Some 49000 |} ]
           (with_world (healthy 49800 []) scenario_A) Hunits).
Defined.


(** The venue reports a LONG position of 0.3 and a SHORT position of -0.6;
    the trader of scenario B, which tracks -0.6, closes them as the trader
    of scenario A, which tracks 0.3. *)
Lemma close_all_positions_ignores_tracking_witness :
  let ps := [ {| positionSide := "LONG"; positionAmt := 0.3 |};
              {| positionSide := "SHORT"; positionAmt := -0.6 |} ] in
  let m := with_world (healthy 50400 ps) scenario_A in
  symbol (self scenario_B) = symbol (self m)
  /\ last_units (self scenario_B) <> last_units (self m)
  /\ close_all_positions scripted (with_self (self scenario_B) m)
     = (fst (close_all_positions scripted m),
        with_self (self scenario_B) (snd (close_all_positions scripted m))).
Proof.
  cbv zeta.
  assert (Hsymbol : symbol (self scenario_B)
                    = symbol
                        (self (with_world
                                 (healthy 50400
                                    [ {| positionSide := "LONG";
                                         positionAmt := 0.3 |};
                                      {| positionSide := "SHORT";
                                         positionAmt := -0.6 |} ])
                                 scenario_A))) by evaluate.
  split; [exact Hsymbol|]. split; [evaluate|].
  exact (close_all_positions_ignores_tracking scripted
           (self scenario_B)
           (with_world
              (healthy 50400
                 [ {| positionSide := "LONG"; positionAmt := 0.3 |};
                   {| positionSide := "SHORT"; positionAmt := -0.6 |} ])
              scenario_A) Hsymbol).
Defined.

(** The bot of the [__main__] block on a venue that refuses the leverage. *)
Lemma leverage_failure_stops_start_trading_witness :
  let m := boot main_trader (healthy 50000 []) in
  let feed := [ {| E := Some 0%Z; k_c := Some 49800 |} ] in
  start_trading capped feed m
  = (Raise (Exception "leverage refused"),
     moved m main_trader (healthy 50000 [])
       [ChangeLeverage "BTCUSDT" 50]).
Proof.
  cbv zeta.
  pose proof (leverage_failure_stops_start_trading capped
                [ {| E := Some 0%Z; k_c := Some 49800 |} ]
                (boot main_trader (healthy 50000 []))
                (Exception "leverage refused") (healthy 50000 [])) as H.
  cbv zeta in H. discharge H. exact H.
Defined.


(** An account in one-way mode is switched; an account already in dual-side
    mode is only asked. *)
Lemma position_mode_is_switched_only_when_off_witness :
  calls (snd (ensure_dual_side scripted
                (boot main_trader (one_way 50000))))
  = [GetPositionMode; ChangePositionMode true]
  /\ calls (snd (ensure_dual_side scripted
                   (boot main_trader (healthy 50000 []))))
     = [GetPositionMode].
Proof.
  split.
  - pose proof (position_mode_is_switched_only_when_off scripted
                  (boot main_trader (one_way 50000))) as H.
    cbv zeta in H. destruct H as (_ & _ & _ & _ & H).
    answered Hchange
      (futures_change_position_mode scripted true (one_way 50000)).
    match type of Hchange with
    | _ = (?answer, ?w2) =>
        specialize (H (one_way 50000) answer w2)
    end.
    discharge H. rewrite H. reflexivity.
  - pose proof (position_mode_is_switched_only_when_off scripted
                  (boot main_trader (healthy 50000 []))) as H.
    cbv zeta in H. destruct H as (_ & _ & H & _).
    specialize (H (healthy 50000 [])). discharge H. rewrite H. reflexivity.
Defined.


(** The bot of the [__main__] block on a venue that rejects its first
    order: the feed is not read. *)
Lemma failed_first_trade_stops_start_trading_witness :
  let m := boot main_trader (rejecting 50000 []) in
  let feed := [ {| E := Some 0%Z; k_c := Some 49800 |} ] in
  fst (start_trading scripted feed m) = Raise (Exception "order rejected")
  /\ start_trading scripted feed m = start_trading scripted [] m.
Proof.
  cbv zeta.
  answered Hfirst
    (first_trade scripted
       (snd (ensure_dual_side scripted
               (moved (boot main_trader (rejecting 50000 []))
                  (self (boot main_trader (rejecting 50000 [])))
                  (rejecting 50000 [])
                  [ChangeLeverage
                     (symbol (self (boot main_trader (rejecting 50000 []))))
                     (leverage
                        (self (boot main_trader (rejecting 50000 []))))])))).
  match type of Hfirst with
  | _ = (Raise ?e, ?m3) =>
      pose proof (failed_first_trade_stops_start_trading scripted
                    [ {| E := Some 0%Z; k_c := Some 49800 |} ]
                    (boot main_trader (rejecting 50000 []))
                    tt (rejecting 50000 []) e m3) as H
  end.
  cbv zeta in H. discharge H. destruct H as [Hfeed Hempty].
  rewrite Hfeed, Hempty. split; reflexivity.
Defined.


(** The bot of the [__main__] block on a healthy venue: the feed runs from
    the machine of scenario A's first trade. *)
Lemma start_trading_runs_feed_after_first_trade_witness :
  let m := boot main_trader (healthy 50000 []) in
  let feed := [ {| E := Some 0%Z; k_c := Some 49800 |} ] in
  fst (start_trading scripted feed m) = Return tt
  /\ last_direction (self (snd (start_trading scripted feed m)))
     = Some SHORT.
Proof.
  cbv zeta.
  answered Hfirst
    (first_trade scripted
       (snd (ensure_dual_side scripted
               (moved (boot main_trader (healthy 50000 []))
                  (self (boot main_trader (healthy 50000 [])))
                  (healthy 50000 [])
                  [ChangeLeverage
                     (symbol (self (boot main_trader (healthy 50000 []))))
                     (leverage
                        (self (boot main_trader (healthy 50000 []))))])))).
  match type of Hfirst with
  | _ = (Return tt, ?m3) =>
      pose proof (start_trading_runs_feed_after_first_trade scripted
                    [ {| E := Some 0%Z; k_c := Some 49800 |} ]
                    (boot main_trader (healthy 50000 []))
                    tt (healthy 50000 []) m3) as H
  end.
  cbv zeta in H. discharge H. destruct H as [_ Hret].
  split; [exact Hret | evaluate].
Defined.



(** * Binary64 arithmetic of the price levels *)

(** ** Powers of two *)

Lemma pow2_pos (k : Z) : 0 < pow2 k.
Proof. apply Qpower_0_lt. reflexivity. Qed.

Lemma pow2_add (a b : Z) : pow2 (a + b) == pow2 a * pow2 b.
Proof. apply Qpower_plus. discriminate. Qed.

Lemma pow2_le (a b : Z) : (a <= b)%Z -> pow2 a <= pow2 b.
Proof. intros H. apply Qpower_le_compat_l; [exact H | discriminate]. Qed.

Lemma pow2_lt (a b : Z) : (a < b)%Z -> pow2 a < pow2 b.
Proof. intros H. apply Qpower_lt_compat_l; [exact H | reflexivity]. Qed.

Lemma pow2_lt_inv (a b : Z) : pow2 a < pow2 b -> (a < b)%Z.
Proof.
  intros H. apply (Qpower_lt_compat_l_inv 2); [exact H | reflexivity].
Qed.

Lemma pow2_int (k : Z) : (0 <= k)%Z -> pow2 k == inject_Z (2 ^ k).
Proof. intros H. unfold pow2. now rewrite Zpower_Qpower. Qed.

Lemma pow2_cancel (e : Z) : pow2 (- e) * pow2 e == 1.
Proof. rewrite <- pow2_add. now replace (- e + e)%Z with 0%Z by lia. Qed.

(** ** Rounding to the nearest integer *)

Lemma rne_bounds (x : Q) :
  (Qfloor x <= rne x <= Qfloor x + 1)%Z.
Proof.
  unfold rne.
  destruct (Qcompare (x - inject_Z (Qfloor x)) (1 # 2)); [|lia|lia].
  destruct (Z.even (Qfloor x)); lia.
Qed.

(** [rne] fixes the integers and is monotone. *)
Lemma rne_int (x : Q) (n : Z) : x == inject_Z n -> rne x = n.
Proof.
  intros H.
  assert (Hf : Qfloor x = n) by (rewrite H; apply Qfloor_Z).
  unfold rne. rewrite Hf.
  assert (Hc : Qcompare (x - inject_Z n) (1 # 2) = Lt).
  { rewrite <- Qlt_alt. lra. }
  now rewrite Hc.
Qed.

Lemma rne_le (x y : Q) : x <= y -> (rne x <= rne y)%Z.
Proof.
  intros H. pose proof (Qfloor_resp_le _ _ H) as Hf.
  pose proof (rne_bounds x) as Hx. pose proof (rne_bounds y) as Hy.
  destruct (Z.eq_dec (Qfloor x) (Qfloor y)) as [Heq | Hne]; [|lia].
  clear Hx Hy Hf. unfold rne. rewrite Heq.
  set (f := Qfloor y).
  destruct (Qcompare_spec (x - inject_Z f) (1 # 2)) as [Hcx | Hcx | Hcx];
    destruct (Qcompare_spec (y - inject_Z f) (1 # 2)) as [Hcy | Hcy | Hcy];
    try (destruct (Z.even f)); try lia; exfalso; lra.
Qed.

Lemma rne_ge_int (x : Q) (n : Z) : inject_Z n <= x -> (n <= rne x)%Z.
Proof.
  intros H. apply rne_le in H. now rewrite (rne_int (inject_Z n) n) in H.
Qed.

Lemma rne_le_int (x : Q) (n : Z) : x <= inject_Z n -> (rne x <= n)%Z.
Proof.
  intros H. apply rne_le in H. now rewrite (rne_int (inject_Z n) n) in H.
Qed.

(** ** The magnitude of a rational *)

Lemma Qdiv_le_cross (a b c d : Q) :
  0 < b -> 0 < d -> a * d <= c * b -> a / b <= c / d.
Proof.
  intros Hb Hd H. apply Qle_shift_div_l; [exact Hd|].
  setoid_replace (a / b * d) with (a * d / b) by (field; lra).
  apply Qle_shift_div_r; [exact Hb | exact H].
Qed.

Lemma Qdiv_lt_cross (a b c d : Q) :
  0 < b -> 0 < d -> a * d < c * b -> a / b < c / d.
Proof.
  intros Hb Hd H. apply Qlt_shift_div_l; [exact Hd|].
  setoid_replace (a / b * d) with (a * d / b) by (field; lra).
  apply Qlt_shift_div_r; [exact Hb | exact H].
Qed.

Lemma log2_bounds (n : Z) :
  (0 < n)%Z ->
  pow2 (Z.log2 n) <= inject_Z n /\ inject_Z n < pow2 (Z.log2 n + 1).
Proof.
  intros Hn. destruct (Z.log2_spec n Hn) as [Hlow Hhigh].
  pose proof (Z.log2_nonneg n) as H0.
  rewrite !pow2_int by lia. split.
  - now rewrite <- Zle_Qle.
  - rewrite <- Zlt_Qlt. now rewrite <- Z.add_1_r in Hhigh.
Qed.

(** The magnitude [k] of a positive rational [x] is the integer with
    [2^(k-1) <= x < 2^k]. *)
Lemma mag_spec (x : Q) :
  0 < x -> pow2 (mag x - 1) <= x /\ x < pow2 (mag x).
Proof.
  intros Hx. unfold mag.
  set (a := Z.log2 (Qnum x)). set (b := Z.log2 (Z.pos (Qden x))).
  assert (Hn : (0 < Qnum x)%Z).
  { destruct x as [n d]. unfold Qlt in Hx. cbn in *. lia. }
  destruct (log2_bounds (Qnum x) Hn) as [Hn1 Hn2]. fold a in Hn1, Hn2.
  destruct (log2_bounds (Z.pos (Qden x)) eq_refl) as [Hd1 Hd2].
  fold b in Hd1, Hd2.
  assert (Hfrac : x == inject_Z (Qnum x) / inject_Z (Z.pos (Qden x))).
  { destruct x as [n d]. cbn [Qnum Qden]. apply Qmake_Qdiv. }
  set (N := inject_Z (Qnum x)) in *.
  set (D := inject_Z (Z.pos (Qden x))) in *.
  assert (HD : 0 < D) by (unfold D, Qlt; cbn; lia).
  assert (HN : 0 < N) by (unfold N, Qlt; cbn; lia).
  pose proof (pow2_pos a) as Ha. pose proof (pow2_pos b) as Hb.
  assert (Ha1 : pow2 (a + 1) == 2 * pow2 a).
  { rewrite pow2_add. change (pow2 1) with 2. ring. }
  assert (Hb1 : pow2 (b + 1) == 2 * pow2 b).
  { rewrite pow2_add. change (pow2 1) with 2. ring. }
  assert (Hc : forall k, pow2 (a - b + k) == pow2 a * pow2 k / pow2 b).
  { intros k. replace (a - b + k)%Z with (a + k + - b)%Z by lia.
    rewrite !pow2_add.
    assert (Hinv : pow2 (- b) == / pow2 b).
    { unfold pow2. apply Qpower_opp. }
    rewrite Hinv. field. lra. }
  destruct (Qlt_bool x (pow2 (a - b))) eqn:Hcmp.
  - apply Qlt_bool_iff in Hcmp. split; [|exact Hcmp].
    replace (a - b - 1)%Z with (a - b + -1)%Z by lia.
    rewrite Hc, Hfrac. change (pow2 (-1)) with (1 # 2).
    apply Qdiv_le_cross; try assumption.
    rewrite Hb1 in Hd2. nra.
  - apply Qlt_bool_false_iff in Hcmp. split.
    + now replace (a - b + 1 - 1)%Z with (a - b)%Z by lia.
    + rewrite Hc, Hfrac. change (pow2 1) with 2.
      apply Qdiv_lt_cross; try assumption.
      rewrite Ha1 in Hn2. nra.
Qed.

Lemma mag_le_bound (x : Q) (a : Z) : 0 < x -> x < pow2 a -> (mag x <= a)%Z.
Proof.
  intros Hx Ha. destruct (mag_spec x Hx) as [Hlow _].
  assert (H : pow2 (mag x - 1) < pow2 a) by lra.
  apply pow2_lt_inv in H. lia.
Qed.

Lemma mag_ge_bound (x : Q) (a : Z) : pow2 a <= x -> (a < mag x)%Z.
Proof.
  intros Ha. pose proof (pow2_pos a) as Hpos.
  destruct (mag_spec x ltac:(lra)) as [_ Hhigh].
  assert (H : pow2 a < pow2 (mag x)) by lra.
  now apply pow2_lt_inv in H.
Qed.

Lemma mag_mono (x y : Q) : 0 < x -> x <= y -> (mag x <= mag y)%Z.
Proof.
  intros Hx Hxy. destruct (mag_spec x Hx) as [Hlow _].
  assert (H : (mag x - 1 < mag y)%Z) by (apply mag_ge_bound; lra).
  lia.
Qed.

Lemma fexp_ge (k : Z) : (-1074 <= fexp k)%Z /\ (k - 53 <= fexp k)%Z.
Proof. unfold fexp. lia. Qed.

Lemma fexp_mono (a b : Z) : (a <= b)%Z -> (fexp a <= fexp b)%Z.
Proof. unfold fexp. lia. Qed.

(** ** Rounding to binary64 *)

Lemma round64_zero (x : Q) : x == 0 -> round64 x == 0.
Proof.
  intros H. unfold round64. now rewrite (Qeq_eq_bool _ _ H).
Qed.

(** The rounding of a positive rational: the nearest multiple of its last
    mantissa bit. *)
Lemma round64_pos_eq (x : Q) :
  0 < x ->
  round64 x
  == inject_Z (rne (x * pow2 (- fexp (mag x)))) * pow2 (fexp (mag x)).
Proof.
  intros Hx. unfold round64.
  destruct (Qeq_bool x 0) eqn:Hzero.
  - apply Qeq_bool_iff in Hzero. lra.
  - assert (Habs : Qabs x = x).
    { destruct x as [n d]. unfold Qlt in Hx. cbn in *.
      f_equal. apply Z.abs_eq. lia. }
    now rewrite Habs.
Qed.

Lemma scaled_le (x : Q) (a e : Z) :
  x <= pow2 a -> x * pow2 (- e) <= pow2 (a - e).
Proof.
  intros H. replace (a - e)%Z with (a + - e)%Z by lia. rewrite pow2_add.
  pose proof (pow2_pos (- e)). nra.
Qed.

Lemma scaled_ge (x : Q) (a e : Z) :
  pow2 a <= x -> pow2 (a - e) <= x * pow2 (- e).
Proof.
  intros H. replace (a - e)%Z with (a + - e)%Z by lia. rewrite pow2_add.
  pose proof (pow2_pos (- e)). nra.
Qed.

Lemma round64_nonneg (x : Q) : 0 <= x -> 0 <= round64 x.
Proof.
  intros Hx. destruct (Qeq_dec x 0) as [Hzero | Hpos].
  - rewrite (round64_zero x Hzero). lra.
  - rewrite round64_pos_eq by lra.
    pose proof (pow2_pos (fexp (mag x))) as He.
    pose proof (pow2_pos (- fexp (mag x))) as He'.
    assert (Hn : (0 <= rne (x * pow2 (- fexp (mag x))))%Z).
    { apply rne_ge_int. change (inject_Z 0) with 0. nra. }
    rewrite Zle_Qle in Hn. change (inject_Z 0) with 0 in Hn. nra.
Qed.

(** Rounding is monotone on the non-negative rationals. *)
Lemma round64_le (x y : Q) : 0 <= x -> x <= y -> round64 x <= round64 y.
Proof.
  intros Hx Hxy. destruct (Qeq_dec x 0) as [Hzero | Hnz].
  { rewrite (round64_zero x Hzero). apply round64_nonneg. lra. }
  assert (Hx0 : 0 < x) by lra. assert (Hy0 : 0 < y) by lra.
  rewrite (round64_pos_eq x Hx0), (round64_pos_eq y Hy0).
  pose proof (mag_mono x y Hx0 Hxy) as Hmag.
  pose proof (fexp_mono _ _ Hmag) as Hexp.
  set (ex := fexp (mag x)) in *. set (ey := fexp (mag y)) in *.
  destruct (Z.eq_dec ex ey) as [Heq | Hne].
  - rewrite Heq. pose proof (pow2_pos ey) as He.
    pose proof (pow2_pos (- ey)) as He'.
    assert (Hn : (rne (x * pow2 (- ey)) <= rne (y * pow2 (- ey)))%Z).
    { apply rne_le. nra. }
    rewrite Zle_Qle in Hn. nra.
  - assert (Hlt : (ex < ey)%Z) by lia.
    assert (Hey : ey = (mag y - 53)%Z).
    { unfold ey, ex, fexp in *. lia. }
    assert (Hk : (mag x < mag y)%Z).
    { destruct (Z.eq_dec (mag x) (mag y)) as [E | E]; [|lia].
      unfold ex, ey in Hlt. rewrite E in Hlt. lia. }
    set (k := (mag y - 1)%Z).
    destruct (mag_spec x Hx0) as [_ Hxk]. destruct (mag_spec y Hy0) as [Hyk _].
    fold k in Hyk.
    assert (Hxk' : x <= pow2 k).
    { pose proof (pow2_le (mag x) k ltac:(lia)). lra. }
    apply Qle_trans with (pow2 k).
    + apply (scaled_le x k ex) in Hxk'.
      rewrite (pow2_int (k - ex)) in Hxk' by lia.
      apply rne_le_int in Hxk'. rewrite Zle_Qle in Hxk'.
      rewrite <- (pow2_int (k - ex)) in Hxk' by lia.
      pose proof (pow2_pos ex) as He.
      assert (Hsplit : pow2 k == pow2 (k - ex) * pow2 ex).
      { rewrite <- pow2_add. now replace (k - ex + ex)%Z with k by lia. }
      rewrite Hsplit. nra.
    + apply (scaled_ge y k ey) in Hyk.
      rewrite (pow2_int (k - ey)) in Hyk by lia.
      apply rne_ge_int in Hyk. rewrite Zle_Qle in Hyk.
      rewrite <- (pow2_int (k - ey)) in Hyk by lia.
      pose proof (pow2_pos ey) as He.
      assert (Hsplit : pow2 k == pow2 (k - ey) * pow2 ey).
      { rewrite <- pow2_add. now replace (k - ey + ey)%Z with k by lia. }
      rewrite Hsplit. nra.
Qed.

(** A non-negative multiple of [2^e] below [2^(e+53)], with [e] at least
    the least exponent, is its own rounding. *)
Lemma round64_fix (y : Q) (n e : Z) :
  (-1074 <= e)%Z -> y == inject_Z n * pow2 e -> 0 <= y -> y < pow2 (e + 53) ->
  round64 y == y.
Proof.
  intros He Hy H0 Hhigh. destruct (Qeq_dec y 0) as [Hzero | Hnz].
  { rewrite (round64_zero y Hzero). now symmetry. }
  assert (Hpos : 0 < y) by lra.
  rewrite (round64_pos_eq y Hpos).
  pose proof (mag_le_bound y (e + 53) Hpos Hhigh) as Hmag.
  set (e' := fexp (mag y)).
  assert (Hle : (e' <= e)%Z) by (unfold e', fexp; lia).
  assert (Hscaled : y * pow2 (- e') == inject_Z (n * 2 ^ (e - e'))).
  { rewrite Hy, inject_Z_mult, <- pow2_int by lia.
    replace (e - e')%Z with (e + - e')%Z by lia. rewrite pow2_add. ring. }
  rewrite (rne_int _ _ Hscaled), inject_Z_mult, <- pow2_int by lia.
  rewrite Hy.
  assert (Hsplit : pow2 e == pow2 (e - e') * pow2 e').
  { rewrite <- pow2_add. now replace (e - e' + e')%Z with e by lia. }
  transitivity (inject_Z n * (pow2 (e - e') * pow2 e')); [ring|].
  now rewrite <- Hsplit.
Qed.

(** Rounding a non-negative rational gives a binary64 number. *)
Lemma round64_idempotent (x : Q) :
  0 <= x -> round64 (round64 x) == round64 x.
Proof.
  intros Hx. destruct (Qeq_dec x 0) as [Hzero | Hnz].
  { pose proof (round64_zero x Hzero) as Hz.
    rewrite (round64_zero _ Hz). now symmetry. }
  assert (Hpos : 0 < x) by lra.
  pose proof (round64_nonneg x Hx) as Hr.
  pose proof (round64_pos_eq x Hpos) as Heq.
  set (e := fexp (mag x)) in *. set (n := rne (x * pow2 (- e))) in *.
  destruct (fexp_ge (mag x)) as [Hmin Hprec]. fold e in Hmin, Hprec.
  destruct (mag_spec x Hpos) as [_ Hhigh].
  assert (Hn : (n <= 2 ^ 53)%Z).
  { apply rne_le_int. rewrite <- pow2_int by lia.
    apply Qle_trans with (pow2 (mag x - e)).
    - apply scaled_le. lra.
    - apply pow2_le. lia. }
  pose proof (pow2_pos e) as He.
  destruct (Z.eq_dec n (2 ^ 53)) as [Hcarry | Hsmall].
  - apply (round64_fix _ (2 ^ 52) (e + 1)); [lia| |exact Hr|].
    + rewrite Heq, Hcarry, <- (pow2_int 53), <- (pow2_int 52) by lia.
      rewrite <- !pow2_add.
      now replace (53 + e)%Z with (52 + (e + 1))%Z by lia.
    + rewrite Heq, Hcarry, <- (pow2_int 53) by lia. rewrite <- pow2_add.
      apply pow2_lt. lia.
  - apply (round64_fix _ n e); [lia|exact Heq|exact Hr|].
    rewrite Heq. replace (e + 53)%Z with (53 + e)%Z by lia.
    rewrite pow2_add, (pow2_int 53) by lia.
    assert (Hlt : inject_Z n < inject_Z (2 ^ 53)) by (rewrite <- Zlt_Qlt; lia).
    nra.
Qed.

Lemma round64_is_binary64 (x : Q) : 0 <= x -> is_binary64 (round64 x).
Proof. exact (round64_idempotent x). Qed.

Lemma round64_below (x p : Q) :
  0 <= x -> x <= p -> is_binary64 p -> round64 x <= p.
Proof.
  intros Hx Hxp Hp. unfold is_binary64 in Hp. rewrite <- Hp.
  now apply round64_le.
Qed.

Lemma round64_above (x p : Q) :
  0 <= p -> p <= x -> is_binary64 p -> p <= round64 x.
Proof.
  intros Hp0 Hpx Hp. unfold is_binary64 in Hp. rewrite <- Hp.
  now apply round64_le.
Qed.

Lemma pow2_is_binary64 (k : Z) : (-1074 <= k)%Z -> is_binary64 (pow2 k).
Proof.
  intros Hk. pose proof (pow2_pos k) as Hpos.
  apply (round64_fix _ 1 k); [exact Hk| |lra|apply pow2_lt; lia].
  change (inject_Z 1) with 1. ring.
Qed.

(** The product of a binary64 number [p >= 0] and a fraction: between 0 and
    [p]. *)
Lemma product_bounds (d p : Q) :
  0 < d -> d < 1 -> 0 <= p -> is_binary64 p ->
  0 <= round64 (d * p) /\ round64 (d * p) <= p.
Proof.
  intros Hd0 Hd1 Hp0 Hp. split.
  - apply round64_nonneg. nra.
  - apply round64_below; [nra|nra|exact Hp].
Qed.

(** The rounded difference [p - m] for [0 <= m <= p]: between 0 and [p]. *)
Lemma difference_bounds (p m : Q) :
  0 <= m -> m <= p -> is_binary64 p ->
  0 <= round64 (p - m) /\ round64 (p - m) <= p.
Proof.
  intros Hm0 Hmp Hp. split.
  - apply round64_nonneg. lra.
  - apply round64_below; [lra|lra|exact Hp].
Qed.

(** The rounded sum [p + m] for [0 <= m <= p <= 2^k]: between [p] and
    [2^(k+1)]. *)
Lemma sum_bounds (p m : Q) (k : Z) :
  (-1074 <= k)%Z -> 0 <= m -> m <= p -> 0 <= p -> p <= pow2 k ->
  is_binary64 p ->
  p <= round64 (p + m) /\ round64 (p + m) <= pow2 (k + 1).
Proof.
  intros Hk Hm0 Hmp Hp0 Hbound Hp. split.
  - apply round64_above; [exact Hp0|lra|exact Hp].
  - apply round64_below; [lra| |apply pow2_is_binary64; lia].
    rewrite pow2_add. change (pow2 1) with 2. lra.
Qed.

(** A quote between 0 and the bound, after [float(...)]. *)
Lemma quote_bounds (f : Q) :
  0 <= f -> f <= price_bound ->
  is_binary64 (round64 f) /\ 0 <= round64 f /\ round64 f <= pow2 1021.
Proof.
  intros Hf0 Hbound. split; [now apply round64_is_binary64|].
  split; [now apply round64_nonneg|].
  apply round64_below; [exact Hf0|exact Hbound|].
  apply pow2_is_binary64. lia.
Qed.

(** The level [p - d * p] of the code in binary64. *)
Lemma level_below (d p : Q) :
  0 < d -> d < 1 -> is_binary64 p -> 0 <= p ->
  let x := fsub binary64 p (fmul binary64 d p) in
  is_binary64 x /\ 0 <= x /\ x <= p.
Proof.
  intros Hd0 Hd1 Hp Hp0 x. subst x. cbn [fsub fmul binary64].
  destruct (product_bounds d p Hd0 Hd1 Hp0 Hp) as [Hm0 Hmp].
  destruct (difference_bounds p _ Hm0 Hmp Hp) as [Hx0 Hxp].
  split; [apply round64_is_binary64; lra|]. now split.
Qed.

(** The level [p + d * p] of the code in binary64. *)
Lemma level_above (d p : Q) (k : Z) :
  (-1074 <= k)%Z -> 0 < d -> d < 1 -> is_binary64 p -> 0 <= p ->
  p <= pow2 k ->
  let x := fadd binary64 p (fmul binary64 d p) in
  is_binary64 x /\ p <= x /\ x <= pow2 (k + 1).
Proof.
  intros Hk Hd0 Hd1 Hp Hp0 Hbound x. subst x. cbn [fadd fmul binary64].
  destruct (product_bounds d p Hd0 Hd1 Hp0 Hp) as [Hm0 Hmp].
  destruct (sum_bounds p _ k Hk Hm0 Hmp Hp0 Hbound Hp) as [Hpx Hxb].
  split; [apply round64_is_binary64; lra|]. now split.
Qed.

(** ** The error of the rounding *)

(** [rne] is at most one half away. *)
Lemma rne_error (y : Q) : Qabs (inject_Z (rne y) - y) <= 1 # 2.
Proof.
  pose proof (Qfloor_le y) as Hlow. pose proof (Qlt_floor y) as Hhigh.
  rewrite inject_Z_plus in Hhigh. change (inject_Z 1) with 1 in Hhigh.
  apply Qabs_Qle_condition. unfold rne.
  destruct (Qcompare_spec (y - inject_Z (Qfloor y)) (1 # 2)) as [H | H | H].
  - destruct (Z.even (Qfloor y)).
    + split; lra.
    + rewrite inject_Z_plus. change (inject_Z 1) with 1. split; lra.
  - split; lra.
  - rewrite inject_Z_plus. change (inject_Z 1) with 1. split; lra.
Qed.

(** [round64] is at most half a last mantissa bit away: it rounds to a
    nearest binary64 number. *)
Lemma round64_error (x : Q) :
  0 < x ->
  Qabs (round64 x - x) <= (1 # 2) * pow2 (fexp (mag x)).
Proof.
  intros Hx. rewrite (round64_pos_eq x Hx).
  set (e := fexp (mag x)).
  pose proof (pow2_pos e) as He.
  pose proof (rne_error (x * pow2 (- e))) as Herr.
  apply Qabs_Qle_condition in Herr. destruct Herr as [Hlow Hhigh].
  pose proof (pow2_cancel e) as Hcancel.
  assert (Hx' : x == x * pow2 (- e) * pow2 e).
  { rewrite <- Qmult_assoc, Hcancel. ring. }
  apply Qabs_Qle_condition. split.
  - assert (H : (inject_Z (rne (x * pow2 (- e))) - x * pow2 (- e)) * pow2 e
                >= - (1 # 2) * pow2 e) by nra.
    rewrite Hx' at 2. lra.
  - assert (H : (inject_Z (rne (x * pow2 (- e))) - x * pow2 (- e)) * pow2 e
                <= (1 # 2) * pow2 e) by nra.
    rewrite Hx' at 2. lra.
Qed.

(** ** Runs of the engine in an arithmetic *)

Section RoundedRuns.

Context {W : Type} (client : Gateway W) (a : arithmetic).

Lemma enter_long_in_run (m : machine W) :
  enter_long_in client a m =
  let t := self m in
  let order := entry_order LONG t in
  match futures_create_order client order (world m) with
  | (inl e, w1) => (Raise e, moved m t w1 [CreateOrder order])
  | (inr _, w1) =>
      match futures_symbol_ticker client (symbol t) w1 with
      | (inl e, w2) =>
          (Raise e, moved m t w2 [CreateOrder order; SymbolTicker (symbol t)])
      | (inr p, w2) =>
          (Return tt,
           moved m (entered_long_in a p t) w2
             [CreateOrder order; SymbolTicker (symbol t)])
      end
  end.
Proof.
  cbv [enter_long_in entry_order entered_long_in opening_side create_order
       symbol_ticker report_trade];
    unfold_monad.
  order_answer; cbn [self world calls]; [reflexivity|].
  ticker_answer; cbn [self world calls]; rewrite <- app_assoc; reflexivity.
Qed.

Lemma enter_short_in_run (m : machine W) :
  enter_short_in client a m =
  let t := self m in
  let order := entry_order SHORT t in
  match futures_create_order client order (world m) with
  | (inl e, w1) => (Raise e, moved m t w1 [CreateOrder order])
  | (inr _, w1) =>
      match futures_symbol_ticker client (symbol t) w1 with
      | (inl e, w2) =>
          (Raise e, moved m t w2 [CreateOrder order; SymbolTicker (symbol t)])
      | (inr p, w2) =>
          (Return tt,
           moved m (entered_short_in a p t) w2
             [CreateOrder order; SymbolTicker (symbol t)])
      end
  end.
Proof.
  cbv [enter_short_in entry_order entered_short_in opening_side create_order
       symbol_ticker report_trade];
    unfold_monad.
  order_answer; cbn [self world calls]; [reflexivity|].
  ticker_answer; cbn [self world calls]; rewrite <- app_assoc; reflexivity.
Qed.

Lemma hedge_short_in_run (m : machine W) :
  hedge_short_in client a m =
  let t := self m in
  let order := hedge_order_in a SHORT t in
  match futures_create_order client order (world m) with
  | (inl e, w1) => (Raise e, moved m t w1 [CreateOrder order])
  | (inr _, w1) =>
      match futures_symbol_ticker client (symbol t) w1 with
      | (inl e, w2) =>
          (Raise e, moved m t w2 [CreateOrder order; SymbolTicker (symbol t)])
      | (inr p, w2) =>
          (Return tt,
           moved m (hedged_short_in a p t) w2
             [CreateOrder order; SymbolTicker (symbol t)])
      end
  end.
Proof.
  cbv [hedge_short_in hedge_order_in hedged_short_in opening_side
       create_order symbol_ticker report_trade];
    unfold_monad.
  order_answer; cbn [self world calls]; [reflexivity|].
  ticker_answer; cbn [self world calls]; rewrite <- app_assoc; reflexivity.
Qed.

Lemma hedge_long_in_run (m : machine W) :
  hedge_long_in client a m =
  let t := self m in
  let order := hedge_order_in a LONG t in
  match futures_create_order client order (world m) with
  | (inl e, w1) => (Raise e, moved m t w1 [CreateOrder order])
  | (inr _, w1) =>
      match futures_symbol_ticker client (symbol t) w1 with
      | (inl e, w2) =>
          (Raise e, moved m t w2 [CreateOrder order; SymbolTicker (symbol t)])
      | (inr p, w2) =>
          (Return tt,
           moved m (hedged_long_in a p t) w2
             [CreateOrder order; SymbolTicker (symbol t)])
      end
  end.
Proof.
  cbv [hedge_long_in hedge_order_in hedged_long_in opening_side
       create_order symbol_ticker report_trade];
    unfold_monad.
  order_answer; cbn [self world calls]; [reflexivity|].
  ticker_answer; cbn [self world calls]; rewrite <- app_assoc; reflexivity.
Qed.

Lemma first_trade_in_run (m : machine W) :
  first_trade_in client a m =
  if (side (self m) =? "LONG")%string then enter_long_in client a m
  else if (side (self m) =? "SHORT")%string then enter_short_in client a m
  else (Return tt, m).
Proof.
  unfold first_trade_in. rewrite reraise_run.
  unfold bind at 1, get_self at 1.
  destruct (side (self m) =? "LONG")%string; [reflexivity|].
  now destruct (side (self m) =? "SHORT")%string.
Qed.

Lemma first_trade_in_filled_long (m : machine W) o w1 f w2 :
  let t := self m in
  side t = "LONG"%string ->
  futures_create_order client (entry_order LONG t) (world m) = (inr o, w1) ->
  futures_symbol_ticker client (symbol t) w1 = (inr f, w2) ->
  first_trade_in client a m =
  (Return tt,
   moved m (entered_long_in a f t) w2
     [CreateOrder (entry_order LONG t); SymbolTicker (symbol t)]).
Proof.
  intros t Hside Horder Hticker. rewrite first_trade_in_run.
  fold t. rewrite Hside. cbn [String.eqb Ascii.eqb Bool.eqb].
  rewrite enter_long_in_run. cbv zeta. fold t. now rewrite Horder, Hticker.
Qed.

Lemma first_trade_in_filled_short (m : machine W) o w1 f w2 :
  let t := self m in
  side t = "SHORT"%string ->
  futures_create_order client (entry_order SHORT t) (world m) = (inr o, w1) ->
  futures_symbol_ticker client (symbol t) w1 = (inr f, w2) ->
  first_trade_in client a m =
  (Return tt,
   moved m (entered_short_in a f t) w2
     [CreateOrder (entry_order SHORT t); SymbolTicker (symbol t)]).
Proof.
  intros t Hside Horder Hticker. rewrite first_trade_in_run.
  fold t. rewrite Hside. cbn [String.eqb Ascii.eqb Bool.eqb].
  rewrite enter_short_in_run. cbv zeta. fold t. now rewrite Horder, Hticker.
Qed.

(** The block [hedging_loop] selects, by the guards in the order the code
    evaluates them. *)
Lemma hedging_loop_in_run (m : machine W) :
  hedging_loop_in client a m =
  let t := self m in
  (Return tt,
   snd (match last_direction t with
        | Some LONG =>
            if Qlt_bool 0 (last_units t) then
              if Qle_bool (close t) (short_entry t)
              then hedge_short_in client a m
              else if Qle_bool (long_tp t) (close t)
                   then take_profit_long_in client a m
                   else (Return tt, m)
            else (Return tt, m)
        | Some SHORT =>
            if Qlt_bool (last_units t) 0 then
              if Qle_bool (long_entry t) (close t)
              then hedge_long_in client a m
              else if Qle_bool (close t) (short_tp t)
                   then take_profit_short_in client a m
                   else (Return tt, m)
            else (Return tt, m)
        | None => (Return tt, m)
        end)).
Proof.
  unfold hedging_loop_in. rewrite swallow_run.
  unfold bind at 1, get_self at 1. cbv zeta.
  destruct (last_direction (self m)) as [[|]|];
    repeat match goal with
           | |- context [if ?b then _ else _] => destruct b
           end;
    reflexivity.
Qed.

Lemma stream_price_in_run (p : Q) (time : Z) (m : machine W) :
  stream_price_in client a {| E := Some time; k_c := Some p |} m =
  hedging_loop_in client a
    (with_self (with_close (float_of a p) (self m)) m).
Proof.
  unfold stream_price_in. rewrite swallow_run.
  cbv [bind field ret assign E k_c with_self]; cbn [self world calls].
  rewrite hedging_loop_in_run. reflexivity.
Qed.

End RoundedRuns.

(** The engine of the first part is the engine in the exact arithmetic. *)
Lemma engine_is_exact {W : Type} (client : Gateway W) :
  first_trade_in client exact = first_trade client
  /\ hedging_loop_in client exact = hedging_loop client
  /\ (forall msg, stream_price_in client exact msg = stream_price client msg)
  /\ (forall feed,
        start_trading_in client exact feed = start_trading client feed).
Proof. repeat split. Qed.

(** ** The levels of the blocks in binary64 *)

Lemma level_in_range_weaken (x : Q) (k : Z) :
  (k <= 1023)%Z -> is_binary64 x -> 0 <= x -> x <= pow2 k ->
  level_in_range x.
Proof.
  intros Hk Hx Hx0 Hbound. split; [exact Hx|]. split; [exact Hx0|].
  pose proof (pow2_le k 1023 Hk). lra.
Qed.

Lemma entered_long_in_levels (t : Trader) (f : Q) :
  valid_configuration t -> 0 <= f -> f <= price_bound ->
  let t' := entered_long_in binary64 f t in
  levels_weakly_ordered t' /\ levels_in_range t'.
Proof.
  intros Hvalid Hf0 Hbound t'. subst t'.
  destruct Hvalid as (_ & [Hsed0 Hsed1] & [Hlta0 Hlta1] & [Hlsd0 Hlsd1]
                      & [Hstd0 Hstd1] & [Hssa0 Hssa1]).
  destruct (quote_bounds f Hf0 Hbound) as (Hp & Hp0 & Hpb).
  set (p := round64 f) in *.
  set (se := fsub binary64 p (fmul binary64 (short_entry_deduct t) p)).
  unfold levels_weakly_ordered, levels_in_range.
  change (long_entry (entered_long_in binary64 f t)) with p.
  change (short_entry (entered_long_in binary64 f t)) with se.
  change (long_tp (entered_long_in binary64 f t))
    with (fadd binary64 p (fmul binary64 (long_tp_add t) p)).
  change (long_sl (entered_long_in binary64 f t))
    with (fsub binary64 p (fmul binary64 (long_sl_deduct t) p)).
  change (short_tp (entered_long_in binary64 f t))
    with (fsub binary64 se (fmul binary64 (short_tp_deduct t) se)).
  change (short_sl (entered_long_in binary64 f t))
    with (fadd binary64 se (fmul binary64 (short_sl_add t) se)).
  destruct (level_below _ p Hsed0 Hsed1 Hp Hp0) as (Hse & Hse0 & Hsep).
  fold se in Hse, Hse0, Hsep.
  destruct (level_above _ p 1021 ltac:(lia) Hlta0 Hlta1 Hp Hp0 Hpb)
    as (Hltp & Hltp0 & Hltpb).
  destruct (level_below _ p Hlsd0 Hlsd1 Hp Hp0) as (Hlsl & Hlsl0 & Hlslp).
  destruct (level_below _ se Hstd0 Hstd1 Hse Hse0) as (Hstp & Hstp0 & Hstpp).
  assert (Hseb : se <= pow2 1021) by lra.
  destruct (level_above _ se 1021 ltac:(lia) Hssa0 Hssa1 Hse Hse0 Hseb)
    as (Hssl & Hssl0 & Hsslb).
  change (1021 + 1)%Z with 1022%Z in *.
  split; [now repeat split|].
  split_all.
  - apply (level_in_range_weaken _ 1021); [lia|assumption..].
  - apply (level_in_range_weaken _ 1021); [lia|assumption..].
  - apply (level_in_range_weaken _ 1022); [lia|exact Hltp|lra|exact Hltpb].
  - apply (level_in_range_weaken _ 1021); [lia|exact Hlsl|exact Hlsl0|lra].
  - apply (level_in_range_weaken _ 1021); [lia|exact Hstp|exact Hstp0|lra].
  - apply (level_in_range_weaken _ 1022); [lia|exact Hssl|lra|exact Hsslb].
Qed.

Lemma entered_short_in_levels (t : Trader) (f : Q) :
  valid_configuration t -> 0 <= f -> f <= price_bound ->
  let t' := entered_short_in binary64 f t in
  levels_weakly_ordered t' /\ levels_in_range t'.
Proof.
  intros Hvalid Hf0 Hbound t'. subst t'.
  destruct Hvalid as ([Hlea0 Hlea1] & _ & [Hlta0 Hlta1] & [Hlsd0 Hlsd1]
                      & [Hstd0 Hstd1] & [Hssa0 Hssa1]).
  destruct (quote_bounds f Hf0 Hbound) as (Hp & Hp0 & Hpb).
  set (p := round64 f) in *.
  set (le := fadd binary64 p (fmul binary64 (long_entry_add t) p)).
  unfold levels_weakly_ordered, levels_in_range.
  change (short_entry (entered_short_in binary64 f t)) with p.
  change (long_entry (entered_short_in binary64 f t)) with le.
  change (short_tp (entered_short_in binary64 f t))
    with (fsub binary64 p (fmul binary64 (short_tp_deduct t) p)).
  change (short_sl (entered_short_in binary64 f t))
    with (fadd binary64 p (fmul binary64 (short_sl_add t) p)).
  change (long_tp (entered_short_in binary64 f t))
    with (fadd binary64 le (fmul binary64 (long_tp_add t) le)).
  change (long_sl (entered_short_in binary64 f t))
    with (fsub binary64 le (fmul binary64 (long_sl_deduct t) le)).
  destruct (level_above _ p 1021 ltac:(lia) Hlea0 Hlea1 Hp Hp0 Hpb)
    as (Hle & Hlep & Hleb).
  fold le in Hle, Hlep, Hleb. change (1021 + 1)%Z with 1022%Z in *.
  assert (Hle0 : 0 <= le) by lra.
  destruct (level_below _ p Hstd0 Hstd1 Hp Hp0) as (Hstp & Hstp0 & Hstpp).
  destruct (level_above _ p 1021 ltac:(lia) Hssa0 Hssa1 Hp Hp0 Hpb)
    as (Hssl & Hssl0 & Hsslb).
  destruct (level_above _ le 1022 ltac:(lia) Hlta0 Hlta1 Hle Hle0 Hleb)
    as (Hltp & Hltp0 & Hltpb).
  destruct (level_below _ le Hlsd0 Hlsd1 Hle Hle0) as (Hlsl & Hlsl0 & Hlslp).
  change (1021 + 1)%Z with 1022%Z in *. change (1022 + 1)%Z with 1023%Z in *.
  split; [now repeat split|].
  split_all.
  - apply (level_in_range_weaken _ 1022); [lia|assumption..].
  - apply (level_in_range_weaken _ 1021); [lia|assumption..].
  - apply (level_in_range_weaken _ 1023); [lia|exact Hltp|lra|exact Hltpb].
  - apply (level_in_range_weaken _ 1022); [lia|exact Hlsl|exact Hlsl0|lra].
  - apply (level_in_range_weaken _ 1021); [lia|exact Hstp|exact Hstp0|lra].
  - apply (level_in_range_weaken _ 1022); [lia|exact Hssl|lra|exact Hsslb].
Qed.

Lemma hedged_short_in_levels (t : Trader) (f : Q) :
  valid_configuration t -> 0 <= f -> f <= price_bound ->
  let t' := hedged_short_in binary64 f t in
  (short_tp t' <= short_entry t' /\ short_entry t' <= short_sl t')
  /\ level_in_range (short_entry t') /\ level_in_range (short_tp t')
  /\ level_in_range (short_sl t')
  /\ long_entry t' = long_entry t /\ long_tp t' = long_tp t
  /\ long_sl t' = long_sl t.
Proof.
  intros Hvalid Hf0 Hbound t'. subst t'.
  destruct Hvalid as (_ & _ & _ & _ & [Hstd0 Hstd1] & [Hssa0 Hssa1]).
  destruct (quote_bounds f Hf0 Hbound) as (Hp & Hp0 & Hpb).
  set (p := round64 f) in *.
  change (short_entry (hedged_short_in binary64 f t)) with p.
  change (short_tp (hedged_short_in binary64 f t))
    with (fsub binary64 p (fmul binary64 (short_tp_deduct t) p)).
  change (short_sl (hedged_short_in binary64 f t))
    with (fadd binary64 p (fmul binary64 (short_sl_add t) p)).
  change (long_entry (hedged_short_in binary64 f t)) with (long_entry t).
  change (long_tp (hedged_short_in binary64 f t)) with (long_tp t).
  change (long_sl (hedged_short_in binary64 f t)) with (long_sl t).
  destruct (level_below _ p Hstd0 Hstd1 Hp Hp0) as (Hstp & Hstp0 & Hstpp).
  destruct (level_above _ p 1021 ltac:(lia) Hssa0 Hssa1 Hp Hp0 Hpb)
    as (Hssl & Hssl0 & Hsslb).
  change (1021 + 1)%Z with 1022%Z in *.
  split_all; try reflexivity; try assumption.
  - apply (level_in_range_weaken _ 1021); [lia|assumption..].
  - apply (level_in_range_weaken _ 1021); [lia|exact Hstp|exact Hstp0|lra].
  - apply (level_in_range_weaken _ 1022); [lia|exact Hssl|lra|exact Hsslb].
Qed.

Lemma hedged_long_in_levels (t : Trader) (f : Q) :
  valid_configuration t -> 0 <= f -> f <= price_bound ->
  let t' := hedged_long_in binary64 f t in
  (long_sl t' <= long_entry t' /\ long_entry t' <= long_tp t')
  /\ level_in_range (long_entry t') /\ level_in_range (long_tp t')
  /\ level_in_range (long_sl t')
  /\ short_entry t' = short_entry t /\ short_tp t' = short_tp t
  /\ short_sl t' = short_sl t.
Proof.
  intros Hvalid Hf0 Hbound t'. subst t'.
  destruct Hvalid as (_ & _ & [Hlta0 Hlta1] & [Hlsd0 Hlsd1] & _ & _).
  destruct (quote_bounds f Hf0 Hbound) as (Hp & Hp0 & Hpb).
  set (p := round64 f) in *.
  change (long_entry (hedged_long_in binary64 f t)) with p.
  change (long_tp (hedged_long_in binary64 f t))
    with (fadd binary64 p (fmul binary64 (long_tp_add t) p)).
  change (long_sl (hedged_long_in binary64 f t))
    with (fsub binary64 p (fmul binary64 (long_sl_deduct t) p)).
  change (short_entry (hedged_long_in binary64 f t)) with (short_entry t).
  change (short_tp (hedged_long_in binary64 f t)) with (short_tp t).
  change (short_sl (hedged_long_in binary64 f t)) with (short_sl t).
  destruct (level_below _ p Hlsd0 Hlsd1 Hp Hp0) as (Hlsl & Hlsl0 & Hlslp).
  destruct (level_above _ p 1021 ltac:(lia) Hlta0 Hlta1 Hp Hp0 Hpb)
    as (Hltp & Hltp0 & Hltpb).
  change (1021 + 1)%Z with 1022%Z in *.
  split_all; try reflexivity; try assumption.
  - apply (level_in_range_weaken _ 1021); [lia|assumption..].
  - apply (level_in_range_weaken _ 1022); [lia|exact Hltp|lra|exact Hltpb].
  - apply (level_in_range_weaken _ 1021); [lia|exact Hlsl|exact Hlsl0|lra].
Qed.

(** ** Rounding and the sign *)

Lemma Qfloor_unique (z : Q) (n : Z) :
  inject_Z n <= z -> z < inject_Z (n + 1) -> Qfloor z = n.
Proof.
  intros Hlow Hhigh.
  pose proof (Qfloor_le z) as Hfloor. pose proof (Qlt_floor z) as Hnext.
  assert (H1 : inject_Z n < inject_Z (Qfloor z + 1)) by lra.
  assert (H2 : inject_Z (Qfloor z) < inject_Z (n + 1)) by lra.
  rewrite <- Zlt_Qlt in H1, H2. lia.
Qed.

Lemma rne_compat (x y : Q) : x == y -> rne x = rne y.
Proof.
  intros H. unfold rne. rewrite (Qfloor_comp _ _ H).
  assert (Hc : Qcompare (x - inject_Z (Qfloor y)) (1 # 2)
               = Qcompare (y - inject_Z (Qfloor y)) (1 # 2)).
  { apply Qcompare_comp; [now rewrite H | reflexivity]. }
  now rewrite Hc.
Qed.

Lemma rne_opp (y : Q) : rne (- y) = (- rne y)%Z.
Proof.
  pose proof (Qfloor_le y) as Hlow. pose proof (Qlt_floor y) as Hhigh.
  rewrite inject_Z_plus in Hhigh. change (inject_Z 1) with 1 in Hhigh.
  destruct (Qeq_dec y (inject_Z (Qfloor y))) as [Hint | Hfrac].
  - rewrite (rne_int y (Qfloor y) Hint).
    apply rne_int. rewrite inject_Z_opp. now rewrite <- Hint.
  - assert (Hfloor : Qfloor (- y) = (- Qfloor y - 1)%Z).
    { apply Qfloor_unique.
      - unfold Z.sub. rewrite inject_Z_plus, inject_Z_opp.
        change (inject_Z (- (1))) with (- (1)). lra.
      - replace (- Qfloor y - 1 + 1)%Z with (- Qfloor y)%Z by lia.
        rewrite inject_Z_opp.
        assert (inject_Z (Qfloor y) < y); [|lra].
        apply Qle_lteq in Hlow. destruct Hlow as [Hlt | Heq]; [exact Hlt|].
        exfalso. apply Hfrac. now symmetry. }
    unfold rne. rewrite Hfloor.
    assert (Hinj : inject_Z (- Qfloor y - 1) == - inject_Z (Qfloor y) - 1).
    { unfold Z.sub. rewrite inject_Z_plus, inject_Z_opp. reflexivity. }
    assert (Heven : Z.even (- Qfloor y - 1) = negb (Z.even (Qfloor y))).
    { rewrite Z.even_sub, Z.even_opp. cbn.
      now destruct (Z.even (Qfloor y)). }
    destruct (Qcompare_spec (y - inject_Z (Qfloor y)) (1 # 2)) as [Ha|Ha|Ha];
      destruct (Qcompare_spec (- y - inject_Z (- Qfloor y - 1)) (1 # 2))
        as [Hb|Hb|Hb];
      rewrite Hinj in Hb; try lra; try lia.
    rewrite Heven. destruct (Z.even (Qfloor y)); cbn [negb]; lia.
Qed.

Lemma round64_opp (x : Q) : round64 (- x) == - round64 x.
Proof.
  unfold round64.
  assert (Hzero : Qeq_bool (- x) 0 = Qeq_bool x 0).
  { destruct (Qeq_bool x 0) eqn:Hx.
    - apply Qeq_bool_iff in Hx. apply Qeq_bool_iff. lra.
    - destruct (Qeq_bool (- x) 0) eqn:Hx'; [|reflexivity].
      apply Qeq_bool_iff in Hx'. apply Qeq_bool_neq in Hx.
      exfalso. apply Hx. lra. }
  rewrite Hzero. destruct (Qeq_bool x 0); [reflexivity|].
  assert (Habs : Qabs (- x) = Qabs x).
  { destruct x as [n d]. cbn. now rewrite Z.abs_opp. }
  rewrite Habs. cbv zeta.
  set (e := fexp (mag (Qabs x))).
  assert (Hscaled : - x * pow2 (- e) == - (x * pow2 (- e))) by ring.
  rewrite (rne_compat _ _ Hscaled), rne_opp, inject_Z_opp. ring.
Qed.

(** Changing the sign of a binary64 number is exact. *)
Lemma negation_is_exact (x : Q) :
  is_binary64 x -> fmul binary64 x (-1) == - x.
Proof.
  intros Hx. cbn [fmul binary64]. unfold is_binary64 in Hx.
  assert (Heq : round64 (x * -1) == round64 (- x)).
  { unfold round64.
    assert (Hzero : Qeq_bool (x * -1) 0 = Qeq_bool (- x) 0).
    { destruct (Qeq_bool (- x) 0) eqn:Hn.
      - apply Qeq_bool_iff in Hn. apply Qeq_bool_iff. lra.
      - destruct (Qeq_bool (x * -1) 0) eqn:Hn'; [|reflexivity].
        apply Qeq_bool_iff in Hn'. apply Qeq_bool_neq in Hn.
        exfalso. apply Hn. lra. }
    rewrite Hzero. destruct (Qeq_bool (- x) 0); [reflexivity|].
    assert (Habs : Qabs (x * -1) = Qabs (- x)).
    { destruct x as [n d]. unfold Qabs, Qmult, Qopp. cbn [Qnum Qden].
      f_equal; [|apply Pos.mul_1_r].
      now replace (n * -1)%Z with (- n)%Z by lia. }
    rewrite Habs. cbv zeta.
    assert (Hscaled : x * -1 * pow2 (- fexp (mag (Qabs (- x))))
                      == - x * pow2 (- fexp (mag (Qabs (- x))))) by ring.
    now rewrite (rne_compat _ _ Hscaled). }
  rewrite Heq, round64_opp, Hx. reflexivity.
Qed.

(** ** Offsets that rounding does not absorb *)

(** A positive binary64 number is a multiple [n * 2^e] of its last mantissa
    bit, with [0 < n < 2^53]. *)
Lemma binary64_mantissa (p : Q) :
  is_binary64 p -> 0 < p ->
  exists n : Z,
    (0 < n < 2 ^ 53)%Z /\ p == inject_Z n * pow2 (fexp (mag p)).
Proof.
  intros Hp Hpos. unfold is_binary64 in Hp.
  rewrite (round64_pos_eq p Hpos) in Hp.
  set (e := fexp (mag p)) in *. set (n := rne (p * pow2 (- e))) in *.
  exists n. split; [|now symmetry].
  pose proof (pow2_pos e) as He.
  destruct (mag_spec p Hpos) as [_ Hhigh].
  destruct (fexp_ge (mag p)) as [_ Hprec]. fold e in Hprec.
  pose proof (pow2_le (mag p) (53 + e) ltac:(lia)) as Hle.
  rewrite pow2_add, (pow2_int 53) in Hle by lia.
  split.
  - rewrite Zlt_Qlt. change (inject_Z 0) with 0. nra.
  - rewrite Zlt_Qlt. nra.
Qed.

Lemma multiple_is_binary64 (n e : Z) :
  (-1074 <= e)%Z -> (0 <= n <= 2 ^ 53)%Z ->
  is_binary64 (inject_Z n * pow2 e).
Proof.
  intros He [Hn0 Hn]. pose proof (pow2_pos e) as Hpos.
  assert (Hq0 : 0 <= inject_Z n).
  { change 0 with (inject_Z 0). now rewrite <- Zle_Qle. }
  destruct (Z.eq_dec n (2 ^ 53)) as [Htop | Hbelow].
  - assert (Hpow : inject_Z n * pow2 e == pow2 (53 + e)).
    { rewrite Htop, <- (pow2_int 53), <- pow2_add by lia. reflexivity. }
    pose proof (pow2_is_binary64 (53 + e) ltac:(lia)) as Hbin.
    pose proof (pow2_pos (53 + e)) as Hpos'.
    apply (round64_fix _ 1 (53 + e)); [lia| |nra|].
    + rewrite Hpow. change (inject_Z 1) with 1. ring.
    + rewrite Hpow. apply pow2_lt. lia.
  - apply (round64_fix _ n e); [exact He|reflexivity|nra|].
    replace (e + 53)%Z with (53 + e)%Z by lia.
    rewrite pow2_add, (pow2_int 53) by lia.
    assert (Hlt : inject_Z n < inject_Z (2 ^ 53)) by (rewrite <- Zlt_Qlt; lia).
    nra.
Qed.

(** The binary64 numbers next to a positive binary64 number [p]: one last
    mantissa bit above it and below it. *)
Lemma binary64_neighbours (p : Q) :
  is_binary64 p -> 0 < p ->
  let u := pow2 (fexp (mag p)) in
  is_binary64 (p + u) /\ is_binary64 (p - u) /\ 0 <= p - u.
Proof.
  intros Hp Hpos u. subst u.
  destruct (binary64_mantissa p Hp Hpos) as (n & [Hn0 Hn] & Hrep).
  destruct (fexp_ge (mag p)) as [Hmin _].
  set (e := fexp (mag p)) in *. pose proof (pow2_pos e) as He.
  assert (Hup : p + pow2 e == inject_Z (n + 1) * pow2 e).
  { rewrite inject_Z_plus, Hrep. change (inject_Z 1) with 1. ring. }
  assert (Hdown : p - pow2 e == inject_Z (n - 1) * pow2 e).
  { unfold Z.sub. rewrite inject_Z_plus, Hrep.
    change (inject_Z (- (1))) with (- (1)). ring. }
  pose proof (multiple_is_binary64 (n + 1) e Hmin ltac:(lia)) as Hbup.
  pose proof (multiple_is_binary64 (n - 1) e Hmin ltac:(lia)) as Hbdown.
  unfold is_binary64 in *.
  assert (Hn1 : 0 <= inject_Z (n - 1)).
  { change 0 with (inject_Z 0). rewrite <- Zle_Qle. lia. }
  split; [|split].
  - pose proof (round64_le (p + pow2 e) (inject_Z (n + 1) * pow2 e)
                  ltac:(lra) ltac:(lra)).
    pose proof (round64_le (inject_Z (n + 1) * pow2 e) (p + pow2 e)
                  ltac:(lra) ltac:(lra)).
    lra.
  - assert (H0 : 0 <= p - pow2 e) by nra.
    pose proof (round64_le (p - pow2 e) (inject_Z (n - 1) * pow2 e)
                  H0 ltac:(lra)).
    pose proof (round64_le (inject_Z (n - 1) * pow2 e) (p - pow2 e)
                  ltac:(nra) ltac:(lra)).
    lra.
  - nra.
Qed.

(** The last mantissa bit of a normal number. *)
Lemma normal_fexp (p : Q) :
  pow2 (-1022) <= p -> fexp (mag p) = (mag p - 53)%Z.
Proof.
  intros Hp. pose proof (mag_ge_bound p (-1022) Hp). unfold fexp. lia.
Qed.

(** The product of a normal binary64 number [p] and an offset of at least
    [2^(-52)] is at least one last mantissa bit of [p]. *)
Lemma product_resolves (d p : Q) :
  pow2 (-1022) <= p -> pow2 (-52) <= d ->
  pow2 (fexp (mag p)) <= round64 (d * p).
Proof.
  intros Hp Hd. pose proof (pow2_pos (-1022)) as Hmin.
  assert (Hpos : 0 < p) by lra.
  rewrite (normal_fexp p Hp).
  destruct (mag_spec p Hpos) as [Hlow _].
  pose proof (mag_ge_bound p (-1022) Hp) as Hmag.
  pose proof (pow2_pos (-52)) as H52. pose proof (pow2_pos (mag p - 1)) as Hk.
  apply round64_above.
  - pose proof (pow2_pos (mag p - 53)). lra.
  - replace (mag p - 53)%Z with (-52 + (mag p - 1))%Z by lia.
    rewrite pow2_add. nra.
  - apply pow2_is_binary64. lia.
Qed.

(** The level [p + d * p] is above [p]. *)
Lemma level_strictly_above (d p : Q) :
  is_binary64 p -> pow2 (-1022) <= p -> pow2 (-52) <= d ->
  p < fadd binary64 p (fmul binary64 d p).
Proof.
  intros Hp Hnormal Hd. cbn [fadd fmul binary64].
  pose proof (pow2_pos (-1022)) as Hmin.
  assert (Hpos : 0 < p) by lra.
  pose proof (product_resolves d p Hnormal Hd) as Hm.
  destruct (binary64_neighbours p Hp Hpos) as (Hup & _ & _). cbv zeta in Hup.
  pose proof (pow2_pos (fexp (mag p))) as Hu.
  apply Qlt_le_trans with (p + pow2 (fexp (mag p))); [lra|].
  apply round64_above; [lra|lra|exact Hup].
Qed.

(** The level [p - d * p] is below [p]. *)
Lemma level_strictly_below (d p : Q) :
  is_binary64 p -> pow2 (-1022) <= p -> pow2 (-52) <= d -> d < 1 ->
  fsub binary64 p (fmul binary64 d p) < p.
Proof.
  intros Hp Hnormal Hd Hd1. cbn [fsub fmul binary64].
  pose proof (pow2_pos (-1022)) as Hmin. pose proof (pow2_pos (-52)) as H52.
  assert (Hpos : 0 < p) by lra.
  pose proof (product_resolves d p Hnormal Hd) as Hm.
  destruct (product_bounds d p ltac:(lra) Hd1 ltac:(lra) Hp) as [_ Hmp].
  destruct (binary64_neighbours p Hp Hpos) as (_ & Hdown & Hdown0).
  cbv zeta in Hdown, Hdown0.
  pose proof (pow2_pos (fexp (mag p))) as Hu.
  apply Qle_lt_trans with (p - pow2 (fexp (mag p))); [|lra].
  apply round64_below; [lra|lra|exact Hdown].
Qed.

(** Half of a binary64 number of at least [2^(-1021)] is a binary64
    number. *)
Lemma half_is_binary64 (p : Q) :
  is_binary64 p -> pow2 (-1021) <= p -> is_binary64 (p * (1 # 2)).
Proof.
  intros Hp Hlow. pose proof (pow2_pos (-1021)) as Hmin.
  assert (Hpos : 0 < p) by lra.
  destruct (binary64_mantissa p Hp Hpos) as (n & [Hn0 Hn] & Hrep).
  pose proof (pow2_le (-1022) (-1021) ltac:(lia)) as Hstep.
  rewrite (normal_fexp p ltac:(lra)) in Hrep.
  pose proof (mag_ge_bound p (-1021) Hlow) as Hmag.
  set (k := mag p) in *.
  assert (Hhalf : p * (1 # 2) == inject_Z n * pow2 (k - 54)).
  { rewrite Hrep. replace (k - 53)%Z with (1 + (k - 54))%Z by lia.
    rewrite pow2_add. change (pow2 1) with 2. ring. }
  pose proof (multiple_is_binary64 n (k - 54) ltac:(lia) ltac:(lia))
    as Hbin.
  unfold is_binary64 in *.
  pose proof (pow2_pos (k - 54)) as Hu.
  assert (Hq0 : 0 < inject_Z n).
  { change 0 with (inject_Z 0). now rewrite <- Zlt_Qlt. }
  pose proof (round64_le (p * (1 # 2)) (inject_Z n * pow2 (k - 54))
                ltac:(lra) ltac:(lra)).
  pose proof (round64_le (inject_Z n * pow2 (k - 54)) (p * (1 # 2))
                ltac:(nra) ltac:(lra)).
  lra.
Qed.

(** With an offset of at most one half, the level [p - d * p] is at least
    half of [p]. *)
Lemma level_below_half (d p : Q) :
  is_binary64 p -> pow2 (-1021) <= p -> 0 < d -> d <= 1 # 2 ->
  p * (1 # 2) <= fsub binary64 p (fmul binary64 d p).
Proof.
  intros Hp Hlow Hd0 Hd. cbn [fsub fmul binary64].
  pose proof (pow2_pos (-1021)) as Hmin.
  pose proof (half_is_binary64 p Hp Hlow) as Hhalf.
  assert (Hm : round64 (d * p) <= p * (1 # 2)).
  { apply round64_below; [nra|nra|exact Hhalf]. }
  apply round64_above; [lra|lra|exact Hhalf].
Qed.

(** ** Strict orders in binary64 *)

Lemma resolved_offset_fraction (x : Q) :
  resolved_offset x -> offset_fraction x.
Proof.
  intros [Hlow Hhigh]. pose proof (pow2_pos (-52)).
  split; lra.
Qed.

Lemma resolved_is_valid (t : Trader) :
  resolved_configuration t -> valid_configuration t.
Proof.
  intros (H1 & H2 & H3 & H4 & H5 & H6).
  repeat split; now apply resolved_offset_fraction.
Qed.

(** A quote between the floor and the bound, after [float(...)]. *)
Lemma quote_normal (f : Q) :
  price_floor <= f -> f <= price_bound ->
  is_binary64 (round64 f) /\ pow2 (-1021) <= round64 f
  /\ pow2 (-1022) <= round64 f.
Proof.
  intros Hlow Hhigh. unfold price_floor in Hlow.
  pose proof (pow2_pos (-1021)) as Hpos.
  pose proof (pow2_le (-1022) (-1021) ltac:(lia)) as Hstep.
  assert (Hround : pow2 (-1021) <= round64 f).
  { apply round64_above; [lra|exact Hlow|apply pow2_is_binary64; lia]. }
  split; [apply round64_is_binary64; lra|]. split; lra.
Qed.

Lemma half_floor (p : Q) : pow2 (-1021) <= p -> pow2 (-1022) <= p * (1 # 2).
Proof.
  intros Hp. change (-1021)%Z with (1 + -1022)%Z in Hp.
  rewrite pow2_add in Hp. change (pow2 1) with 2 in Hp. lra.
Qed.

Lemma entered_long_in_strict (t : Trader) (f : Q) :
  resolved_configuration t -> price_floor <= f -> f <= price_bound ->
  levels_ordered (entered_long_in binary64 f t).
Proof.
  intros Hres Hlow Hhigh.
  destruct Hres as (_ & [Hsed0 Hsed1] & [Hlta0 Hlta1] & [Hlsd0 Hlsd1]
                    & [Hstd0 Hstd1] & [Hssa0 Hssa1]).
  destruct (quote_normal f Hlow Hhigh) as (Hp & Hpf & Hpn).
  pose proof (pow2_pos (-52)) as H52. pose proof (pow2_pos (-1022)) as Hmin.
  set (p := round64 f) in *.
  set (se := fsub binary64 p (fmul binary64 (short_entry_deduct t) p)).
  unfold levels_ordered.
  change (long_entry (entered_long_in binary64 f t)) with p.
  change (short_entry (entered_long_in binary64 f t)) with se.
  change (long_tp (entered_long_in binary64 f t))
    with (fadd binary64 p (fmul binary64 (long_tp_add t) p)).
  change (long_sl (entered_long_in binary64 f t))
    with (fsub binary64 p (fmul binary64 (long_sl_deduct t) p)).
  change (short_tp (entered_long_in binary64 f t))
    with (fsub binary64 se (fmul binary64 (short_tp_deduct t) se)).
  change (short_sl (entered_long_in binary64 f t))
    with (fadd binary64 se (fmul binary64 (short_sl_add t) se)).
  destruct (level_below (short_entry_deduct t) p ltac:(lra) ltac:(lra) Hp
              ltac:(lra)) as (Hse & _ & _).
  pose proof (level_below_half (short_entry_deduct t) p Hp Hpf ltac:(lra)
                Hsed1) as Hhalf.
  fold se in Hse, Hhalf. pose proof (half_floor p Hpf) as Hfloor.
  assert (Hsen : pow2 (-1022) <= se) by lra.
  split_all.
  - apply level_strictly_below; [exact Hp|exact Hpn|exact Hlsd0|lra].
  - apply level_strictly_above; [exact Hp|exact Hpn|exact Hlta0].
  - apply level_strictly_below; [exact Hse|exact Hsen|exact Hstd0|lra].
  - apply level_strictly_above; [exact Hse|exact Hsen|exact Hssa0].
Qed.

Lemma entered_short_in_strict (t : Trader) (f : Q) :
  resolved_configuration t -> price_floor <= f -> f <= price_bound ->
  levels_ordered (entered_short_in binary64 f t).
Proof.
  intros Hres Hlow Hhigh.
  destruct Hres as ([Hlea0 Hlea1] & _ & [Hlta0 Hlta1] & [Hlsd0 Hlsd1]
                    & [Hstd0 Hstd1] & [Hssa0 Hssa1]).
  destruct (quote_normal f Hlow Hhigh) as (Hp & Hpf & Hpn).
  destruct (quote_bounds f) as (_ & Hp0 & Hpb).
  { unfold price_floor in Hlow. pose proof (pow2_pos (-1021)). lra. }
  { exact Hhigh. }
  pose proof (pow2_pos (-52)) as H52. pose proof (pow2_pos (-1022)) as Hmin.
  set (p := round64 f) in *.
  set (le := fadd binary64 p (fmul binary64 (long_entry_add t) p)).
  unfold levels_ordered.
  change (short_entry (entered_short_in binary64 f t)) with p.
  change (long_entry (entered_short_in binary64 f t)) with le.
  change (short_tp (entered_short_in binary64 f t))
    with (fsub binary64 p (fmul binary64 (short_tp_deduct t) p)).
  change (short_sl (entered_short_in binary64 f t))
    with (fadd binary64 p (fmul binary64 (short_sl_add t) p)).
  change (long_tp (entered_short_in binary64 f t))
    with (fadd binary64 le (fmul binary64 (long_tp_add t) le)).
  change (long_sl (entered_short_in binary64 f t))
    with (fsub binary64 le (fmul binary64 (long_sl_deduct t) le)).
  destruct (level_above (long_entry_add t) p 1021 ltac:(lia) ltac:(lra)
              ltac:(lra) Hp Hp0 Hpb) as (Hle & Hlep & _).
  fold le in Hle, Hlep.
  assert (Hlen : pow2 (-1022) <= le) by lra.
  split_all.
  - apply level_strictly_below; [exact Hle|exact Hlen|exact Hlsd0|lra].
  - apply level_strictly_above; [exact Hle|exact Hlen|exact Hlta0].
  - apply level_strictly_below; [exact Hp|exact Hpn|exact Hstd0|lra].
  - apply level_strictly_above; [exact Hp|exact Hpn|exact Hssa0].
Qed.

Lemma hedged_short_in_strict (t : Trader) (f : Q) :
  resolved_configuration t -> price_floor <= f -> f <= price_bound ->
  let t' := hedged_short_in binary64 f t in
  short_tp t' < short_entry t' /\ short_entry t' < short_sl t'.
Proof.
  intros Hres Hlow Hhigh t'. subst t'.
  destruct Hres as (_ & _ & _ & _ & [Hstd0 Hstd1] & [Hssa0 Hssa1]).
  destruct (quote_normal f Hlow Hhigh) as (Hp & Hpf & Hpn).
  set (p := round64 f) in *.
  change (short_entry (hedged_short_in binary64 f t)) with p.
  change (short_tp (hedged_short_in binary64 f t))
    with (fsub binary64 p (fmul binary64 (short_tp_deduct t) p)).
  change (short_sl (hedged_short_in binary64 f t))
    with (fadd binary64 p (fmul binary64 (short_sl_add t) p)).
  split.
  - apply level_strictly_below; [exact Hp|exact Hpn|exact Hstd0|lra].
  - apply level_strictly_above; [exact Hp|exact Hpn|exact Hssa0].
Qed.

Lemma hedged_long_in_strict (t : Trader) (f : Q) :
  resolved_configuration t -> price_floor <= f -> f <= price_bound ->
  let t' := hedged_long_in binary64 f t in
  long_sl t' < long_entry t' /\ long_entry t' < long_tp t'.
Proof.
  intros Hres Hlow Hhigh t'. subst t'.
  destruct Hres as (_ & _ & [Hlta0 Hlta1] & [Hlsd0 Hlsd1] & _ & _).
  destruct (quote_normal f Hlow Hhigh) as (Hp & Hpf & Hpn).
  set (p := round64 f) in *.
  change (long_entry (hedged_long_in binary64 f t)) with p.
  change (long_tp (hedged_long_in binary64 f t))
    with (fadd binary64 p (fmul binary64 (long_tp_add t) p)).
  change (long_sl (hedged_long_in binary64 f t))
    with (fsub binary64 p (fmul binary64 (long_sl_deduct t) p)).
  split.
  - apply level_strictly_below; [exact Hp|exact Hpn|exact Hlsd0|lra].
  - apply level_strictly_above; [exact Hp|exact Hpn|exact Hlta0].
Qed.

(** ** Properties the engine keeps over a run, in an arithmetic *)

Section Preservation.

Context {W : Type} (client : Gateway W) (a : arithmetic).

Lemma feed_in_preserves (I : Trader -> Prop) :
  (forall msg m,
     I (self m) -> I (self (snd (stream_price_in client a msg m)))) ->
  forall feed m,
    I (self m) ->
    I (self (snd (for_each feed (stream_price_in client a) m))).
Proof.
  intros Hmsg feed. induction feed as [|msg feed IH]; intros m Hm;
    [exact Hm|].
  cbn [for_each]. unfold bind.
  pose proof (Hmsg msg m Hm) as H1.
  destruct (stream_price_in client a msg m) as [[u | e] m1]; cbn [snd] in *.
  - now apply IH.
  - exact H1.
Qed.

(** [start_trading], step by step. *)
Lemma start_trading_in_run (feed : list kline_msg) (m : machine W) :
  start_trading_in client a feed m =
  let t := self m in
  let request := ChangeLeverage (symbol t) (leverage t) in
  match futures_change_leverage client (symbol t) (leverage t) (world m) with
  | (inl e, w1) => (Raise e, moved m t w1 [request])
  | (inr _, w1) =>
      match first_trade_in client a
              (snd (ensure_dual_side client (moved m t w1 [request]))) with
      | (Return _, m3) => for_each feed (stream_price_in client a) m3
      | (Raise e, m3) => (Raise e, m3)
      end
  end.
Proof.
  unfold start_trading_in. unfold bind at 1, get_self at 1.
  unfold bind at 1. unfold change_leverage, client_call at 1. cbv zeta.
  destruct (futures_change_leverage client _ _ _) as [[e | []] w1];
    [reflexivity|].
  unfold bind at 1. fold (ensure_dual_side client).
  pose proof (ensure_dual_side_self client
                (moved m (self m) w1
                   [ChangeLeverage (symbol (self m)) (leverage (self m))]))
    as [Hret _].
  unfold moved in *.
  destruct (ensure_dual_side client _) as [[[] | e] m2]; cbn [fst snd] in *;
    [|discriminate].
  unfold bind. now destruct (first_trade_in client a m2) as [[[] | e] m3].
Qed.

Lemma start_trading_in_preserves (I : Trader -> Prop) :
  (forall m, I (self m) -> I (self (snd (first_trade_in client a m)))) ->
  (forall msg m,
     I (self m) -> I (self (snd (stream_price_in client a msg m)))) ->
  forall feed m,
    I (self m) -> I (self (snd (start_trading_in client a feed m))).
Proof.
  intros Hfirst Hmsg feed m Hm. rewrite start_trading_in_run. cbv zeta.
  destruct (futures_change_leverage client _ _ _) as [[e | u] w1];
    [exact Hm|].
  pose proof (ensure_dual_side_self client
                (moved m (self m) w1
                   [ChangeLeverage (symbol (self m)) (leverage (self m))]))
    as [_ Hself].
  cbn [moved self] in Hself.
  pose proof (Hfirst (snd (ensure_dual_side client
                             (moved m (self m) w1
                                [ChangeLeverage (symbol (self m))
                                   (leverage (self m))])))) as H1.
  rewrite Hself in H1. specialize (H1 Hm).
  destruct (first_trade_in client a _) as [[u' | e] m3]; cbn [snd] in *.
  - now apply feed_in_preserves.
  - exact H1.
Qed.

Lemma take_profit_long_in_run (m : machine W) :
  take_profit_long_in client a m =
  match close_all_positions client m with
  | (Return _, m1) =>
      first_trade_in client a (with_self (flattened "LONG" (self m1)) m1)
  | (Raise e, m1) => (Raise e, m1)
  end.
Proof.
  unfold take_profit_long_in, flattened.
  cbv [bind print ret assign with_self]; cbn [self world calls].
  now destruct (close_all_positions client m) as [[u | e] m1].
Qed.

Lemma take_profit_short_in_run (m : machine W) :
  take_profit_short_in client a m =
  match close_all_positions client m with
  | (Return _, m1) =>
      first_trade_in client a (with_self (flattened "SHORT" (self m1)) m1)
  | (Raise e, m1) => (Raise e, m1)
  end.
Proof.
  unfold take_profit_short_in, flattened.
  cbv [bind print ret assign with_self]; cbn [self world calls].
  now destruct (close_all_positions client m) as [[u | e] m1].
Qed.

(** A condition [C] on the configuration and a condition [L] on the levels
    that every block establishes when the ticker answers a quote in [G]. *)
Variables (C L : Trader -> Prop) (G : Q -> Prop).

Hypothesis quotes :
  forall symbol0 w f w',
    futures_symbol_ticker client symbol0 w = (inr f, w') -> G f.

Hypothesis entered_long_keeps :
  forall f t, C t -> G f ->
    C (entered_long_in a f t) /\ L (entered_long_in a f t).
Hypothesis entered_short_keeps :
  forall f t, C t -> G f ->
    C (entered_short_in a f t) /\ L (entered_short_in a f t).
Hypothesis hedged_short_keeps :
  forall f t, C t -> L t -> G f ->
    C (hedged_short_in a f t) /\ L (hedged_short_in a f t).
Hypothesis hedged_long_keeps :
  forall f t, C t -> L t -> G f ->
    C (hedged_long_in a f t) /\ L (hedged_long_in a f t).
Hypothesis flattened_keeps : forall s t, C t -> C (flattened s t).
Hypothesis with_close_keeps :
  forall c t, (C t -> C (with_close c t)) /\ (L t -> L (with_close c t)).

(** Case analysis on the answers of the goal, keeping the ticker's. *)
Ltac graded_answer :=
  match goal with
  | |- context [futures_symbol_ticker ?c ?s ?w] =>
      let H := fresh "Hquote" in
      destruct (futures_symbol_ticker c s w) as [[?e | ?p] ?w2] eqn:H;
      [|apply quotes in H]
  end.

(** The invariant: the configuration and, once a position is tracked, the
    levels. *)
Let kept (t : Trader) : Prop :=
  C t /\ (last_direction t <> None -> L t).

Lemma first_trade_in_keeps (m : machine W) :
  kept (self m) -> kept (self (snd (first_trade_in client a m))).
Proof.
  intros [Hconf Hkeep]. rewrite first_trade_in_run.
  destruct (side (self m) =? "LONG")%string.
  - rewrite enter_long_in_run. cbv zeta.
    order_answer; [now split|]. graded_answer; [now split|].
    cbn [snd moved self].
    destruct (entered_long_keeps p (self m) Hconf Hquote) as [HC HL].
    split; [exact HC|]. intros _. exact HL.
  - destruct (side (self m) =? "SHORT")%string; [|now split].
    rewrite enter_short_in_run. cbv zeta.
    order_answer; [now split|]. graded_answer; [now split|].
    cbn [snd moved self].
    destruct (entered_short_keeps p (self m) Hconf Hquote) as [HC HL].
    split; [exact HC|]. intros _. exact HL.
Qed.

Lemma take_profit_in_keeps (s : string) (m : machine W) :
  kept (self m) ->
  kept (self (snd (match close_all_positions client m with
                   | (Return _, m1) =>
                       first_trade_in client a
                         (with_self (flattened s (self m1)) m1)
                   | (Raise e, m1) => (Raise e, m1)
                   end))).
Proof.
  intros Hm. pose proof (close_all_positions_self client m) as Hself.
  destruct (close_all_positions client m) as [[u | e] m1]; cbn [snd] in *;
    [|now rewrite Hself].
  apply first_trade_in_keeps. cbn [with_self self]. rewrite Hself.
  destruct Hm as [Hconf _]. split; [now apply flattened_keeps|].
  intros Hdir. now contradiction Hdir.
Qed.

Lemma stream_price_in_keeps (msg : kline_msg) (m : machine W) :
  kept (self m) -> kept (self (snd (stream_price_in client a msg m))).
Proof.
  intros Hm.
  destruct msg as [[time|] [p|]].
  2-4: (unfold stream_price_in; rewrite swallow_run; exact Hm).
  rewrite stream_price_in_run, hedging_loop_in_run. cbv zeta. cbn [snd].
  set (priced := with_self (with_close (float_of a p) (self m)) m).
  assert (Hpriced : kept (self priced)).
  { destruct Hm as [Hconf Hkeep].
    destruct (with_close_keeps (float_of a p) (self m)) as [HC HL].
    split; [now apply HC|]. intros Hdir. apply HL, Hkeep. exact Hdir. }
  clearbody priced. clear Hm.
  destruct (last_direction (self priced)) as [[|]|] eqn:Hdir;
    [| |exact Hpriced].
  - destruct (Qlt_bool 0 (last_units (self priced))); [|exact Hpriced].
    destruct (Qle_bool (close (self priced)) (short_entry (self priced))).
    + rewrite hedge_short_in_run. cbv zeta.
      order_answer; [exact Hpriced|]. graded_answer; [exact Hpriced|].
      cbn [snd moved self]. destruct Hpriced as [Hconf Hkeep].
      assert (Hlevels : L (self priced)) by (apply Hkeep; now rewrite Hdir).
      destruct (hedged_short_keeps p0 (self priced) Hconf Hlevels Hquote)
        as [HC HL].
      split; [exact HC|]. intros _. exact HL.
    + destruct (Qle_bool (long_tp (self priced)) (close (self priced)));
        [|exact Hpriced].
      rewrite take_profit_long_in_run. now apply take_profit_in_keeps.
  - destruct (Qlt_bool (last_units (self priced)) 0); [|exact Hpriced].
    destruct (Qle_bool (long_entry (self priced)) (close (self priced))).
    + rewrite hedge_long_in_run. cbv zeta.
      order_answer; [exact Hpriced|]. graded_answer; [exact Hpriced|].
      cbn [snd moved self]. destruct Hpriced as [Hconf Hkeep].
      assert (Hlevels : L (self priced)) by (apply Hkeep; now rewrite Hdir).
      destruct (hedged_long_keeps p0 (self priced) Hconf Hlevels Hquote)
        as [HC HL].
      split; [exact HC|]. intros _. exact HL.
    + destruct (Qle_bool (close (self priced)) (short_tp (self priced)));
        [|exact Hpriced].
      rewrite take_profit_short_in_run. now apply take_profit_in_keeps.
Qed.

Lemma run_in_keeps (feed : list kline_msg) (m : machine W) :
  C (self m) -> last_direction (self m) = None ->
  forall m',
    m' = snd (for_each feed (stream_price_in client a) m)
    \/ m' = snd (start_trading_in client a feed m) ->
    last_direction (self m') <> None -> L (self m').
Proof.
  intros Hconf Hdir m' Hm'.
  assert (Hm : kept (self m)).
  { split; [exact Hconf|]. intros H. now contradiction H. }
  assert (H : kept (self m')).
  { destruct Hm' as [-> | ->].
    - apply (feed_in_preserves kept); [|exact Hm].
      apply stream_price_in_keeps.
    - apply (start_trading_in_preserves kept); [| |exact Hm].
      + apply first_trade_in_keeps.
      + apply stream_price_in_keeps. }
  exact (proj2 H).
Qed.

End Preservation.

(** ** The order of the levels in binary64 *)

Lemma run_weakly_ordered {W : Type} (client : Gateway W)
    (feed : list kline_msg) (m : machine W) :
  bounded_quotes client ->
  valid_configuration (self m) -> last_direction (self m) = None ->
  forall m',
    m' = snd (for_each feed (stream_price_in client binary64) m)
    \/ m' = snd (start_trading_in client binary64 feed m) ->
    last_direction (self m') <> None -> levels_weakly_ordered (self m').
Proof.
  intros Hquotes.
  apply (run_in_keeps client binary64 valid_configuration
           levels_weakly_ordered (fun f => 0 < f /\ f <= price_bound)).
  - exact Hquotes.
  - intros f t Hconf [Hf0 Hf]. split; [exact Hconf|].
    apply entered_long_in_levels; [exact Hconf|lra|exact Hf].
  - intros f t Hconf [Hf0 Hf]. split; [exact Hconf|].
    apply entered_short_in_levels; [exact Hconf|lra|exact Hf].
  - intros f t Hconf [Hlong _] [Hf0 Hf]. split; [exact Hconf|].
    destruct (hedged_short_in_levels t f Hconf ltac:(lra) Hf)
      as (Hshort & _ & _ & _ & He & Htp & Hsl).
    split; [|exact Hshort]. now rewrite He, Htp, Hsl.
  - intros f t Hconf [_ Hshort] [Hf0 Hf]. split; [exact Hconf|].
    destruct (hedged_long_in_levels t f Hconf ltac:(lra) Hf)
      as (Hlong & _ & _ & _ & He & Htp & Hsl).
    split; [exact Hlong|]. now rewrite He, Htp, Hsl.
  - intros s t Hconf. exact Hconf.
  - intros c t. split; intros H; exact H.
Qed.

Lemma run_strictly_ordered {W : Type} (client : Gateway W)
    (feed : list kline_msg) (m : machine W) :
  normal_quotes client ->
  resolved_configuration (self m) -> last_direction (self m) = None ->
  forall m',
    m' = snd (for_each feed (stream_price_in client binary64) m)
    \/ m' = snd (start_trading_in client binary64 feed m) ->
    last_direction (self m') <> None -> levels_ordered (self m').
Proof.
  intros Hquotes.
  apply (run_in_keeps client binary64 resolved_configuration
           levels_ordered (fun f => price_floor <= f /\ f <= price_bound)).
  - exact Hquotes.
  - intros f t Hconf [Hf0 Hf]. split; [exact Hconf|].
    now apply entered_long_in_strict.
  - intros f t Hconf [Hf0 Hf]. split; [exact Hconf|].
    now apply entered_short_in_strict.
  - intros f t Hconf [Hlong _] [Hf0 Hf]. split; [exact Hconf|].
    split; [exact Hlong|]. now apply hedged_short_in_strict.
  - intros f t Hconf [_ Hshort] [Hf0 Hf]. split; [exact Hconf|].
    split; [|exact Hshort]. now apply hedged_long_in_strict.
  - intros s t Hconf. exact Hconf.
  - intros c t. split; intros H; exact H.
Qed.

Lemma quoting_normal_quotes : normal_quotes quoting_normal.
Proof.
  intros symbol0 w f w'. cbn [quoting_normal futures_symbol_ticker].
  unfold venue_normal_ticker.
  destruct (ticker_up w); cbn [andb]; [|discriminate].
  destruct (Qle_bool price_floor (quote w)) eqn:Hlow; cbn [andb];
    [|discriminate].
  destruct (Qle_bool (quote w) price_bound) eqn:Hhigh; [|discriminate].
  intros [= <- _]. split; now apply Qle_bool_iff.
Qed.

Lemma normal_quotes_bounded {W : Type} (client : Gateway W) :
  normal_quotes client -> bounded_quotes client.
Proof.
  intros Hquotes symbol0 w f w' Hanswer.
  destruct (Hquotes symbol0 w f w' Hanswer) as [Hlow Hhigh].
  split; [|exact Hhigh]. unfold price_floor in Hlow.
  pose proof (pow2_pos (-1021)). lra.
Qed.

Section Binary64Entries.

Context {W : Type} (client : Gateway W).

(** C6, amended.  The levels are computed in binary64, as the code computes
    them.  For a valid configuration (every offset strictly between 0 and
    1) and a strictly positive ticker answer of at most [2^1021], a first
    trade on side LONG whose order is accepted returns with
    [long_sl <= long_entry <= long_tp] and
    [short_tp <= short_entry <= short_sl], every level a binary64 number
    between 0 and [2^1023] (no operation overflows), direction LONG and
    [last_units] equal to [base_units] (the entry size [int_units] being
    the [base_units] that [__init__] made it).  The inequalities are strict
    when every offset is between [2^(-52)] and one half and the ticker
    answer is at least [2^(-1021)]; a smaller offset can be absorbed by the
    rounding of [+] and [-]. *)
Theorem first_entry_levels_ordered_in_binary64
    (m : machine W) (o : order_response) (w1 : W) (f : Q) (w2 : W) :
  let t := self m in
  side t = "LONG"%string ->
  valid_configuration t ->
  int_units t = base_units t ->
  0 < f -> f <= price_bound ->
  futures_create_order client (entry_order LONG t) (world m) = (inr o, w1) ->
  futures_symbol_ticker client (symbol t) w1 = (inr f, w2) ->
  let result := first_trade_in client binary64 m in
  let t' := self (snd result) in
  fst result = Return tt
  /\ (long_sl t' <= long_entry t' /\ long_entry t' <= long_tp t')
  /\ (short_tp t' <= short_entry t' /\ short_entry t' <= short_sl t')
  /\ levels_in_range t'
  /\ last_direction t' = Some LONG
  /\ last_units t' = base_units t
  /\ (resolved_configuration t -> price_floor <= f ->
      (long_sl t' < long_entry t' /\ long_entry t' < long_tp t')
      /\ (short_tp t' < short_entry t' /\ short_entry t' < short_sl t')).
Proof.
  intros t Hside Hvalid Hsize Hf Hbound Horder Hticker result t'.
  subst t' result.
  rewrite (first_trade_in_filled_long client binary64 m o w1 f w2
             Hside Horder Hticker).
  cbn [fst snd moved self]. fold t.
  destruct (entered_long_in_levels t f Hvalid ltac:(lra) Hbound)
    as [[Hlong Hshort] Hrange].
  split; [reflexivity|]. split; [exact Hlong|]. split; [exact Hshort|].
  split; [exact Hrange|]. split; [reflexivity|]. split; [exact Hsize|].
  intros Hresolved Hfloor.
  exact (entered_long_in_strict t f Hresolved Hfloor Hbound).
Qed.

(** X17.  The SHORT mirror of the order of the levels after a first trade,
    in binary64: for a valid configuration and a positive ticker answer of
    at most [2^1021], a first trade on side SHORT whose order is accepted
    leaves [long_sl <= long_entry <= long_tp] and
    [short_tp <= short_entry <= short_sl], every level in range and
    direction SHORT; the tracked exposure is minus the entry size when the
    entry size is a binary64 number; and the inequalities are strict when
    every offset is between [2^(-52)] and one half and the ticker answer is
    at least [2^(-1021)]. *)
Theorem first_entry_levels_ordered_short_in_binary64
    (m : machine W) (o : order_response) (w1 : W) (f : Q) (w2 : W) :
  let t := self m in
  side t = "SHORT"%string ->
  valid_configuration t ->
  0 < f -> f <= price_bound ->
  futures_create_order client (entry_order SHORT t) (world m) = (inr o, w1) ->
  futures_symbol_ticker client (symbol t) w1 = (inr f, w2) ->
  let t' := self (snd (first_trade_in client binary64 m)) in
  (long_sl t' <= long_entry t' /\ long_entry t' <= long_tp t')
  /\ (short_tp t' <= short_entry t' /\ short_entry t' <= short_sl t')
  /\ levels_in_range t'
  /\ last_direction t' = Some SHORT
  /\ (is_binary64 (int_units t) -> last_units t' == - int_units t)
  /\ (resolved_configuration t -> price_floor <= f ->
      (long_sl t' < long_entry t' /\ long_entry t' < long_tp t')
      /\ (short_tp t' < short_entry t' /\ short_entry t' < short_sl t')).
Proof.
  intros t Hside Hvalid Hf Hbound Horder Hticker t'. subst t'.
  rewrite (first_trade_in_filled_short client binary64 m o w1 f w2
             Hside Horder Hticker).
  cbn [snd moved self]. fold t.
  destruct (entered_short_in_levels t f Hvalid ltac:(lra) Hbound)
    as [[Hlong Hshort] Hrange].
  split; [exact Hlong|]. split; [exact Hshort|]. split; [exact Hrange|].
  split; [reflexivity|]. split.
  - intros Hunits.
    change (last_units (entered_short_in binary64 f t))
      with (fmul binary64 (int_units t) (-1)).
    now apply negation_is_exact.
  - intros Hresolved Hfloor.
    exact (entered_short_in_strict t f Hresolved Hfloor Hbound).
Qed.

End Binary64Entries.

(** X11.  In binary64, on a venue whose ticker only answers positive prices
    of at most [2^1021], and with every offset strictly between 0 and 1,
    the levels of a trader that tracks a position are in order throughout
    the run, not only after the first entry: after any feed, with or
    without the first trade of [start_trading],
    [long_sl <= long_entry <= long_tp] and
    [short_tp <= short_entry <= short_sl], although a hedge recomputes one
    side only.  The inequalities are strict when every offset is between
    [2^(-52)] and one half and the ticker only answers prices of at least
    [2^(-1021)]. *)
Theorem levels_stay_ordered_in_binary64
    {W : Type} (client : Gateway W) (w : W)
    (symbol0 bar_length0 : string) (units : Q) (leverage0 : Z)
    (side0 : string)
    (long_entry_add0 short_entry_deduct0 long_tp_add0 long_sl_deduct0
       short_tp_deduct0 short_sl_add0 : Q)
    (feed : list kline_msg) :
  bounded_quotes client ->
  offset_fraction long_entry_add0 -> offset_fraction short_entry_deduct0 ->
  offset_fraction long_tp_add0 -> offset_fraction long_sl_deduct0 ->
  offset_fraction short_tp_deduct0 -> offset_fraction short_sl_add0 ->
  let m0 :=
    boot (init symbol0 bar_length0 units leverage0 side0
            long_entry_add0 short_entry_deduct0 long_tp_add0 long_sl_deduct0
            short_tp_deduct0 short_sl_add0) w in
  let fed := snd (for_each feed (stream_price_in client binary64) m0) in
  let started := snd (start_trading_in client binary64 feed m0) in
  (last_direction (self fed) <> None -> levels_weakly_ordered (self fed))
  /\ (last_direction (self started) <> None ->
      levels_weakly_ordered (self started))
  /\ (normal_quotes client -> resolved_configuration (self m0) ->
      (last_direction (self fed) <> None -> levels_ordered (self fed))
      /\ (last_direction (self started) <> None ->
          levels_ordered (self started))).
Proof.
  intros Hquotes H1 H2 H3 H4 H5 H6 m0 fed started.
  assert (Hvalid : valid_configuration (self m0)).
  { unfold valid_configuration. split_all; assumption. }
  split; [|split].
  - apply (run_weakly_ordered client feed m0 Hquotes Hvalid eq_refl).
    now left.
  - apply (run_weakly_ordered client feed m0 Hquotes Hvalid eq_refl).
    now right.
  - intros Hnormal Hresolved. split.
    + apply (run_strictly_ordered client feed m0 Hnormal Hresolved eq_refl).
      now left.
    + apply (run_strictly_ordered client feed m0 Hnormal Hresolved eq_refl).
      now right.
Qed.

(** ** Binary64 on concrete runs *)

(** The rounding of the model is the rounding of the primitive binary64
    numbers of Rocq, on the literals and on the operations of scenario A
    and of the scenario with offsets of [1e-17]: each primitive result
    stands for the rational [round64] gives. *)
Example round64_agrees_with_primitive_floats :
  float_is 0x1.70ef54646d497p-57%float tiny_offset = true
  /\ float_is 0x1.3333333333333p-2%float (round64 0.3) = true
  /\ float_is (0x1.999999999999ap-2 / 100)%float (percent 0.4) = true
  /\ float_is (0x1.999999999999ap-1 / 100)%float (percent 0.8) = true
  /\ float_is (0x1.3333333333333p+0 / 100)%float (percent 1.2) = true
  /\ float_is (50000 - 0x1.999999999999ap-2 / 100 * 50000)%float
       (short_entry (self scenario_A_binary64)) = true
  /\ float_is (50000 + 0x1.999999999999ap-1 / 100 * 50000)%float
       (long_tp (self scenario_A_binary64)) = true
  /\ float_is (50000 - 0x1.3333333333333p+0 / 100 * 50000)%float
       (long_sl (self scenario_A_binary64)) = true
  /\ float_is
       (let e := (50000 - 0x1.999999999999ap-2 / 100 * 50000)%float in
        e - 0x1.999999999999ap-1 / 100 * e)%float
       (short_tp (self scenario_A_binary64)) = true
  /\ float_is
       (let e := (50000 - 0x1.999999999999ap-2 / 100 * 50000)%float in
        e + 0x1.3333333333333p+0 / 100 * e)%float
       (short_sl (self scenario_A_binary64)) = true
  /\ float_is (50000 - 0x1.70ef54646d497p-57 * 50000)%float
       (long_sl (self scenario_tiny)) = true
  /\ float_is (50000 + 0x1.70ef54646d497p-57 * 50000)%float
       (long_tp (self scenario_tiny)) = true.
Proof. split_all; vm_compute; reflexivity. Qed.

(** The same on ties, on subnormal numbers, next to the largest binary64
    number and on a negative product. *)
Example round64_agrees_on_ties_and_subnormals :
  float_is (0x1.999999999999ap-4 + 0x1.999999999999ap-3)%float
    (round64 (round64 0.1 + round64 0.2)) = true
  /\ float_is (9007199254740992 + 1)%float (round64 9007199254740993) = true
  /\ float_is (9007199254740994 + 1)%float (round64 9007199254740995) = true
  /\ float_is (0x1p-1074 * 1.5)%float (round64 (pow2 (-1074) * 1.5)) = true
  /\ float_is (0x1p-1074 * 0.5)%float (round64 (pow2 (-1074) * 0.5)) = true
  /\ float_is (0x1p-1074 * 2.5)%float (round64 (pow2 (-1074) * 2.5)) = true
  /\ float_is (0x1.ffffffffffffep-1023 * 0x1.8p-1)%float
       (round64 ((pow2 (-1022) - pow2 (-1074)) * 0.75)) = true
  /\ float_is (0x1.fffffffffffffp+1022 + 0x1p+969)%float
       (round64 ((pow2 1023 - pow2 970) + pow2 969)) = true
  /\ float_is (-0x1.8p+1 * 0x1.5555555555555p-2)%float
       (round64 (-3 * round64 (1 # 3))) = true.
Proof. split_all; vm_compute; reflexivity. Qed.

(** Scenario A in binary64: the levels are those of the exact arithmetic to
    the decimal the specification prints, and four of them exactly. *)
Example scenario_A_in_binary64 :
  let t' := self scenario_A_binary64 in
  long_entry t' == 50000 /\ short_entry t' == 49800
  /\ long_tp t' == 50400 /\ long_sl t' == 49400
  /\ approx (short_tp t') 49401.6 /\ approx (short_sl t') 50397.6
  /\ ~ short_tp t' == 49401.6
  /\ last_units t' == round64 0.3.
Proof. cbv zeta. unfold approx. split_all; evaluate. Qed.

(** The bot of the [__main__] block, its literals as floats, on a healthy
    venue quoting 50000: the levels are strictly ordered. *)
Lemma first_entry_levels_ordered_in_binary64_witness :
  let m := boot main_trader_binary64 (healthy 50000 []) in
  let t' := self (snd (first_trade_in scripted binary64 m)) in
  valid_configuration (self m) /\ resolved_configuration (self m)
  /\ fst (first_trade_in scripted binary64 m) = Return tt
  /\ (long_sl t' < long_entry t' /\ long_entry t' < long_tp t')
  /\ (short_tp t' < short_entry t' /\ short_entry t' < short_sl t')
  /\ levels_in_range t'
  /\ last_direction t' = Some LONG
  /\ last_units t' = base_units (self m).
Proof.
  cbv zeta.
  assert (Hvalid : valid_configuration
                     (self (boot main_trader_binary64 (healthy 50000 [])))).
  { unfold valid_configuration, offset_fraction. split_all; evaluate. }
  assert (Hresolved : resolved_configuration
                        (self (boot main_trader_binary64
                                 (healthy 50000 [])))).
  { unfold resolved_configuration, resolved_offset. split_all; evaluate. }
  answered Horder
    (futures_create_order scripted
       (entry_order LONG
          (self (boot main_trader_binary64 (healthy 50000 []))))
       (world (boot main_trader_binary64 (healthy 50000 [])))).
  match type of Horder with
  | _ = (inr ?o, ?w1) =>
      pose proof (first_entry_levels_ordered_in_binary64 scripted
                    (boot main_trader_binary64 (healthy 50000 []))
                    o w1 50000 w1) as H
  end.
  cbv zeta in H.
  assert (Hside : side (self (boot main_trader_binary64 (healthy 50000 [])))
                  = "LONG"%string) by evaluate.
  specialize (H Hside Hvalid). discharge H.
  destruct H as (Hret & _ & _ & Hrange & Hdir & Hunits & Hstrict).
  assert (Hfloor : price_floor <= 50000) by evaluate.
  destruct (Hstrict Hresolved Hfloor) as [Hlong Hshort].
  split; [exact Hvalid|]. split; [exact Hresolved|]. split; [exact Hret|].
  split; [exact Hlong|]. split; [exact Hshort|]. split; [exact Hrange|].
  split; [exact Hdir | exact Hunits].
Defined.

(** C6, as stated.  With every offset the float [1e-17], a valid
    configuration, and a ticker answer of 50000, the first trade on side
    LONG returns and the six levels are all 50000: no level is strictly
    below or above its entry. *)
Lemma first_entry_levels_collapse_counterexample :
  valid_configuration tiny_trader
  /\ side tiny_trader = "LONG"%string
  /\ int_units tiny_trader = base_units tiny_trader
  /\ 0 < tiny_offset /\ tiny_offset < 1 /\ is_binary64 tiny_offset
  /\ futures_symbol_ticker scripted (symbol tiny_trader) (healthy 50000 [])
     = (inr 50000, healthy 50000 [])
  /\ fst (first_trade_in scripted binary64
            (boot tiny_trader (healthy 50000 []))) = Return tt
  /\ long_entry (self scenario_tiny) == 50000
  /\ long_sl (self scenario_tiny) == 50000
  /\ long_tp (self scenario_tiny) == 50000
  /\ short_entry (self scenario_tiny) == 50000
  /\ short_tp (self scenario_tiny) == 50000
  /\ short_sl (self scenario_tiny) == 50000
  /\ ~ long_sl (self scenario_tiny) < long_entry (self scenario_tiny)
  /\ ~ long_entry (self scenario_tiny) < long_tp (self scenario_tiny)
  /\ ~ short_tp (self scenario_tiny) < short_entry (self scenario_tiny)
  /\ ~ short_entry (self scenario_tiny) < short_sl (self scenario_tiny).
Proof.
  split.
  { unfold valid_configuration, offset_fraction. split_all; evaluate. }
  unfold is_binary64. split_all; evaluate.
Qed.

(** The bot of the [__main__] block, its literals as floats, started SHORT
    on a healthy venue quoting 50000. *)
Lemma first_entry_levels_ordered_short_in_binary64_witness :
  let m := boot (with_side "SHORT" main_trader_binary64)
             (healthy 50000 []) in
  let t' := self (snd (first_trade_in scripted binary64 m)) in
  valid_configuration (self m) /\ resolved_configuration (self m)
  /\ (long_sl t' < long_entry t' /\ long_entry t' < long_tp t')
  /\ (short_tp t' < short_entry t' /\ short_entry t' < short_sl t')
  /\ levels_in_range t'
  /\ last_direction t' = Some SHORT
  /\ last_units t' == - int_units (self m).
Proof.
  cbv zeta.
  assert (Hvalid : valid_configuration
                     (self (boot (with_side "SHORT" main_trader_binary64)
                              (healthy 50000 [])))).
  { unfold valid_configuration, offset_fraction. split_all; evaluate. }
  assert (Hresolved : resolved_configuration
                        (self (boot (with_side "SHORT" main_trader_binary64)
                                 (healthy 50000 [])))).
  { unfold resolved_configuration, resolved_offset. split_all; evaluate. }
  answered Horder
    (futures_create_order scripted
       (entry_order SHORT
          (self (boot (with_side "SHORT" main_trader_binary64)
                   (healthy 50000 []))))
       (world (boot (with_side "SHORT" main_trader_binary64)
                 (healthy 50000 [])))).
  match type of Horder with
  | _ = (inr ?o, ?w1) =>
      pose proof (first_entry_levels_ordered_short_in_binary64 scripted
                    (boot (with_side "SHORT" main_trader_binary64)
                       (healthy 50000 []))
                    o w1 50000 w1) as H
  end.
  cbv zeta in H.
  assert (Hside : side (self (boot (with_side "SHORT" main_trader_binary64)
                                (healthy 50000 []))) = "SHORT"%string)
    by evaluate.
  specialize (H Hside Hvalid). discharge H.
  destruct H as (_ & _ & Hrange & Hdir & Hunits & Hstrict).
  assert (Hfloor : price_floor <= 50000) by evaluate.
  destruct (Hstrict Hresolved Hfloor) as [Hlong Hshort].
  assert (Hsize : is_binary64
                    (int_units
                       (self (boot (with_side "SHORT" main_trader_binary64)
                                (healthy 50000 []))))).
  { unfold is_binary64. evaluate. }
  split; [exact Hvalid|]. split; [exact Hresolved|].
  split; [exact Hlong|]. split; [exact Hshort|]. split; [exact Hrange|].
  split; [exact Hdir | exact (Hunits Hsize)].
Defined.

(** The bot of the [__main__] block, its literals as floats, on the venue
    that quotes prices in range only: the first trade at 50000, then a
    hedge. *)
Lemma levels_stay_ordered_in_binary64_witness :
  let m0 := boot main_trader_binary64 (healthy 50000 []) in
  let feed := [ {| E := Some 0%Z; k_c := Some 49800 |} ] in
  let started := snd (start_trading_in quoting_normal binary64 feed m0) in
  bounded_quotes quoting_normal
  /\ last_direction (self started) = Some SHORT
  /\ levels_weakly_ordered (self started)
  /\ levels_ordered (self started).
Proof.
  cbv zeta.
  pose proof (levels_stay_ordered_in_binary64 quoting_normal
                (healthy 50000 [])
                "BTCUSDT" "1m" (round64 0.3) 50 "LONG"
                (percent 0.4) (percent 0.4) (percent 0.8) (percent 1.2)
                (percent 0.8) (percent 1.2)
                [ {| E := Some 0%Z; k_c := Some 49800 |} ]
                (normal_quotes_bounded quoting_normal
                   quoting_normal_quotes)) as H.
  unfold offset_fraction in H.
  repeat match type of H with
         | ?A /\ ?B -> _ =>
             let Ha := fresh "Ha" in
             assert (Ha : A /\ B) by (split; evaluate); specialize (H Ha)
         end.
  cbv zeta in H. destruct H as (_ & Hweak & Hstrict).
  assert (Hdir : last_direction
                   (self (snd (start_trading_in quoting_normal binary64
                                 [ {| E := Some 0%Z; k_c := Some 49800 |} ]
                                 (boot main_trader_binary64
                                    (healthy 50000 [])))))
                 = Some SHORT) by evaluate.
  assert (Hresolved : resolved_configuration
                        (self (boot main_trader_binary64
                                 (healthy 50000 [])))).
  { unfold resolved_configuration, resolved_offset. split_all; evaluate. }
  destruct (Hstrict quoting_normal_quotes Hresolved) as [_ Hordered].
  split; [exact (normal_quotes_bounded quoting_normal
                   quoting_normal_quotes)|].
  split; [exact Hdir|]. split.
  - apply Hweak. fold main_trader_binary64. rewrite Hdir. discriminate.
  - apply Hordered. fold main_trader_binary64. rewrite Hdir. discriminate.
Defined.

(** * Closing the positions of a report in dual-side mode *)

Section ClosingReported.

Context {W : Type} (client : Gateway W).

(** On an entry of a dual-side report the guards of [close_position] hold
    exactly when the amount is not zero. *)
Lemma sign_consistent_closable (pos : position) :
  sign_consistent pos ->
  closable pos = negb (Qeq_bool (positionAmt pos) 0).
Proof.
  unfold sign_consistent, closable. intros Hsign.
  destruct (Qeq_bool (positionAmt pos) 0) eqn:Hzero; [reflexivity|].
  apply Qeq_bool_neq in Hzero. cbn [negb andb].
  destruct (positionSide pos =? "LONG")%string; cbn [andb orb].
  - assert (Hpos : 0 < positionAmt pos).
    { apply Qle_lteq in Hsign. destruct Hsign as [Hlt | Heq]; [exact Hlt|].
      exfalso. apply Hzero. now symmetry. }
    apply Qlt_bool_iff in Hpos. now rewrite Hpos.
  - destruct (positionSide pos =? "SHORT")%string; cbn [andb].
    + assert (Hneg : positionAmt pos < 0).
      { apply Qle_lteq in Hsign. destruct Hsign as [Hlt | Heq]; [exact Hlt|].
        exfalso. now apply Hzero. }
      apply Qlt_bool_iff in Hneg. now rewrite Hneg.
    + exfalso. now apply Hzero.
Qed.

(** The order [close_position] sends for it is the opposing order. *)
Lemma sign_consistent_order (symbol0 : string) (pos : position) :
  sign_consistent pos -> closable pos = true ->
  closing_order symbol0 pos = opposing_order symbol0 pos.
Proof.
  unfold sign_consistent, closable, closing_order, opposing_order.
  intros Hsign Hclosable.
  destruct (Qeq_bool (positionAmt pos) 0) eqn:Hzero; [discriminate|].
  apply Qeq_bool_neq in Hzero.
  destruct (positionSide pos =? "LONG")%string; cbn [andb orb] in *;
    [|reflexivity].
  assert (Hpos : 0 < positionAmt pos).
  { apply Qle_lteq in Hsign. destruct Hsign as [Hlt | Heq]; [exact Hlt|].
    exfalso. apply Hzero. now symmetry. }
  apply Qlt_bool_iff in Hpos. now rewrite Hpos.
Qed.

Lemma closing_calls_reported (symbol0 : string) (ps : list position) :
  dual_side_report ps ->
  closing_calls symbol0 ps = opposing_calls symbol0 ps.
Proof.
  unfold closing_calls, opposing_calls, nonzero_positions, dual_side_report.
  induction 1 as [|pos ps Hpos Hps IH]; [reflexivity|].
  cbn [filter]. rewrite <- (sign_consistent_closable pos Hpos).
  destruct (closable pos) eqn:Hclosable; [|exact IH].
  cbn [map]. now rewrite IH, (sign_consistent_order symbol0 pos Hpos).
Qed.

(** On a venue that accepts every order the loop over the report returns. *)
Lemma for_each_close_accepted (ps : list position) (m : machine W) :
  accepting client ->
  fst (for_each ps (close_position client) m) = Return tt.
Proof.
  intros Haccept. revert m.
  induction ps as [|pos ps IH]; intros m; [reflexivity|].
  cbn [for_each]. unfold bind. rewrite close_position_run.
  destruct (closable pos); [|apply IH]. cbv zeta.
  destruct (Haccept (closing_order (symbol (self m)) pos) (world m))
    as (o & w' & Hanswer).
  rewrite Hanswer. apply IH.
Qed.

(** C9.  [close_all_positions] queries the positions of the venue.  When
    the answer is the report of a venue in dual-side mode (no LONG entry
    with a negative amount, no SHORT entry with a positive amount, no other
    entry with a nonzero amount), the calls after the query are orders
    opposing the entries with a nonzero amount, one for each, in the order
    of the report, each a market order for the absolute amount of its
    entry: all of them when the call returns, which it does on a venue that
    accepts every order, and an initial part of them when an order is
    rejected and the call raises.  When every reported amount is zero it
    returns having sent no order.  In every outcome the trader is as it
    was: no level, no tracked exposure, no direction and no side is
    assigned. *)
Theorem close_all_positions_closes_reported
    (m : machine W) (ps : list position) (w0 : W) :
  let t := self m in
  let query := PositionInformation (symbol t) in
  futures_position_information client (symbol t) (world m) = (inr ps, w0) ->
  dual_side_report ps ->
  let result := close_all_positions client m in
  self (snd result) = t
  /\ (exists n,
        calls (snd result)
        = calls m ++ query :: firstn n (opposing_calls (symbol t) ps))
  /\ (forall m',
        result = (Return tt, m') ->
        calls m' = calls m ++ query :: opposing_calls (symbol t) ps)
  /\ (accepting client ->
      fst result = Return tt
      /\ calls (snd result)
         = calls m ++ query :: opposing_calls (symbol t) ps
      /\ orders_of (calls (snd result))
         = orders_of (calls m)
           ++ map (opposing_order (symbol t)) (nonzero_positions ps))
  /\ ((forall pos, In pos ps -> positionAmt pos == 0) ->
      result = (Return tt, moved m t w0 [query])).
Proof.
  intros t query Hquery Hreport result. subst result query t.
  pose proof (closing_calls_reported (symbol (self m)) ps Hreport) as Hsame.
  assert (Hreturns : forall m',
            close_all_positions client m = (Return tt, m') ->
            calls m'
            = calls m ++ PositionInformation (symbol (self m))
                         :: opposing_calls (symbol (self m)) ps).
  { intros m'. rewrite close_all_positions_run. cbv zeta.
    rewrite Hquery. intros Hloop. apply for_each_close_returns in Hloop.
    rewrite Hloop. cbn [moved calls self].
    now rewrite <- app_assoc, Hsame. }
  split; [apply close_all_positions_self|].
  split; [|split; [exact Hreturns|split]].
  - rewrite close_all_positions_run. cbv zeta. rewrite Hquery.
    destruct (for_each_close_prefix client ps
                (moved m (self m) w0 [PositionInformation (symbol (self m))]))
      as [n Hn].
    exists n. rewrite Hn. cbn [moved calls self].
    now rewrite <- app_assoc, Hsame.
  - intros Haccept.
    assert (Hfst : fst (close_all_positions client m) = Return tt).
    { rewrite close_all_positions_run. cbv zeta. rewrite Hquery.
      now apply for_each_close_accepted. }
    destruct (close_all_positions client m) as [outcome0 m'] eqn:Hrun.
    cbn [fst snd] in *. subst outcome0.
    pose proof (Hreturns m' eq_refl) as Hcalls.
    split; [reflexivity|]. split; [exact Hcalls|].
    rewrite Hcalls. unfold opposing_calls.
    clear. induction (calls m) as [|c cs IH].
    + cbn [app orders_of].
      induction (nonzero_positions ps) as [|pos rest IHr]; [reflexivity|].
      cbn [map orders_of]. now rewrite IHr.
    + cbn [app]. destruct c; cbn [orders_of]; rewrite IH; reflexivity.
  - intros Hzero. rewrite close_all_positions_run. cbv zeta.
    rewrite Hquery. apply for_each_close_nothing.
    now apply closing_calls_zero.
Qed.

End ClosingReported.

Lemma obliging_accepting : accepting obliging.
Proof. intros request w. eexists. eexists. reflexivity. Qed.

(** A report in dual-side mode with a LONG position of 0.3, a SHORT position
    of -0.6 and an empty entry, on a venue that accepts every order: one
    SELL of 0.3 on the LONG side, then one BUY of 0.6 on the SHORT side, and
    the trader is as it was. *)
Lemma close_all_positions_closes_reported_witness :
  let ps := [ {| positionSide := "LONG"; positionAmt := 0.3 |};
              {| positionSide := "SHORT"; positionAmt := -0.6 |};
              {| positionSide := "BOTH"; positionAmt := 0 |} ] in
  let m := boot main_trader (healthy 50400 ps) in
  dual_side_report ps
  /\ self (snd (close_all_positions obliging m)) = self m
  /\ fst (close_all_positions obliging m) = Return tt
  /\ orders_of (calls (snd (close_all_positions obliging m)))
     = orders_of (calls m)
       ++ map (opposing_order (symbol (self m))) (nonzero_positions ps)
  /\ map (opposing_order (symbol (self m))) (nonzero_positions ps)
     = [ {| o_symbol := "BTCUSDT"; o_side := SELL; o_type := MARKET;
            o_quantity := 0.3; o_positionSide := LONG |};
         {| o_symbol := "BTCUSDT"; o_side := BUY; o_type := MARKET;
            o_quantity := 0.6; o_positionSide := SHORT |} ].
Proof.
  cbv zeta.
  assert (Hreport : dual_side_report
                      [ {| positionSide := "LONG"; positionAmt := 0.3 |};
                        {| positionSide := "SHORT"; positionAmt := -0.6 |};
                        {| positionSide := "BOTH"; positionAmt := 0 |} ]).
  { repeat constructor; evaluate. }
  pose proof (close_all_positions_closes_reported obliging
                (boot main_trader
                   (healthy 50400
                      [ {| positionSide := "LONG"; positionAmt := 0.3 |};
                        {| positionSide := "SHORT"; positionAmt := -0.6 |};
                        {| positionSide := "BOTH"; positionAmt := 0 |} ]))
                [ {| positionSide := "LONG"; positionAmt := 0.3 |};
                  {| positionSide := "SHORT"; positionAmt := -0.6 |};
                  {| positionSide := "BOTH"; positionAmt := 0 |} ]
                (healthy 50400
                   [ {| positionSide := "LONG"; positionAmt := 0.3 |};
                     {| positionSide := "SHORT"; positionAmt := -0.6 |};
                     {| positionSide := "BOTH"; positionAmt := 0 |} ])) as H.
  cbv zeta in H.
  assert (Hquery :
            futures_position_information obliging
              (symbol
                 (self
                    (boot main_trader
                       (healthy 50400
                          [ {| positionSide := "LONG"; positionAmt := 0.3 |};
                            {| positionSide := "SHORT";
                               positionAmt := -0.6 |};
                            {| positionSide := "BOTH";
                               positionAmt := 0 |} ]))))
              (world
                 (boot main_trader
                    (healthy 50400
                       [ {| positionSide := "LONG"; positionAmt := 0.3 |};
                         {| positionSide := "SHORT"; positionAmt := -0.6 |};
                         {| positionSide := "BOTH"; positionAmt := 0 |} ])))
            = (inr [ {| positionSide := "LONG"; positionAmt := 0.3 |};
                     {| positionSide := "SHORT"; positionAmt := -0.6 |};
                     {| positionSide := "BOTH"; positionAmt := 0 |} ],
               healthy 50400
                 [ {| positionSide := "LONG"; positionAmt := 0.3 |};
                   {| positionSide := "SHORT"; positionAmt := -0.6 |};
                   {| positionSide := "BOTH"; positionAmt := 0 |} ]))
    by evaluate.
  specialize (H Hquery Hreport).
  destruct H as (Hself & _ & _ & Haccept & _).
  destruct (Haccept obliging_accepting) as (Hret & _ & Horders).
  split; [exact Hreport|]. split; [exact Hself|]. split; [exact Hret|].
  split; [exact Horders|]. evaluate.
Defined.
